(** * An HTTP/1.1 command-line client: transport and message layer

  A shallow embedding of the client's transport socket, connection
  manager, HTTP message model and request orchestrator, together with the
  properties established about them.

  Conventions of the embedding.
  - A C++ [std::string] / [std::string_view] is a [string]; a [char] is an
    [ascii]; [std::string::npos] is [None].
  - [std::unordered_map<std::string, std::string>] is a [gmap string string].
  - Integers returned by system calls are [Z].
  - A C++ function runs in a [world] and gives a [result]: a value or an
    exception. The operating system is a script of answers consumed one
    system call at a time, and every call issued is appended to a trace.
    A loop that waits on the operating system takes one answer per turn;
    it is written with a bound on its turns that the script cannot outlast. *)

From Stdlib Require Import ZArith Ascii String List Lia Bool.
From stdpp Require Import gmap strings list fin_maps.

Local Open Scope string_scope.
Local Open Scope list_scope.

(* ===================================================================== *)
(** * Part I: the program                                                 *)
(* ===================================================================== *)

(** ** Characters and [std::string] operations *)

Module StdString.

Definition CR : ascii := "013"%char.
Definition LF : ascii := "010"%char.
Definition CRLF : string := String CR (String LF "").
Definition CRLFCRLF : string := CRLF +:+ CRLF.

Definition size (s : string) : nat := String.length s.

Definition empty (s : string) : bool :=
  match s with
  | EmptyString => true
  | String _ _ => false
  end.

(** [s.substr(pos)] for [pos <= s.size()]. *)
Fixpoint substr_from (s : string) (pos : nat) : string :=
  match pos, s with
  | O, _ => s
  | S p, String _ s' => substr_from s' p
  | S _, EmptyString => EmptyString
  end.

Fixpoint take (n : nat) (s : string) : string :=
  match n, s with
  | S m, String c s' => String c (take m s')
  | _, _ => EmptyString
  end.

(** [s.substr(pos, n)] for [pos <= s.size()]: at most [n] characters. *)
Definition substr (s : string) (pos n : nat) : string :=
  take n (substr_from s pos).

(** [s] begins with [pat]. *)
Fixpoint starts_with (pat s : string) : bool :=
  match pat, s with
  | EmptyString, _ => true
  | String a pat', String b s' =>
      if Ascii.eqb a b then starts_with pat' s' else false
  | String _ _, EmptyString => false
  end.

(** First occurrence of [pat] in [s], counted from the start of [s]. *)
Fixpoint find0 (pat s : string) : option nat :=
  if starts_with pat s then Some O
  else match s with
       | EmptyString => None
       | String _ s' => option_map S (find0 pat s')
       end.

(** [s.find(pat, pos)]. *)
Definition find (s pat : string) (pos : nat) : option nat :=
  if Nat.ltb (size s) pos then None
  else option_map (Nat.add pos) (find0 pat (substr_from s pos)).

Fixpoint mem (c : ascii) (set : string) : bool :=
  match set with
  | EmptyString => false
  | String d set' => if Ascii.eqb c d then true else mem c set'
  end.

Fixpoint find_first_not_of0 (set s : string) : option nat :=
  match s with
  | EmptyString => None
  | String c s' =>
      if mem c set then option_map S (find_first_not_of0 set s') else Some O
  end.

(** [s.find_first_not_of(set, pos)]. *)
Definition find_first_not_of (s set : string) (pos : nat) : option nat :=
  if Nat.ltb (size s) pos then None
  else option_map (Nat.add pos) (find_first_not_of0 set (substr_from s pos)).

(** [s.find_last_not_of(set)]. *)
Fixpoint find_last_not_of (s set : string) : option nat :=
  match s with
  | EmptyString => None
  | String c s' =>
      match find_last_not_of s' set with
      | Some i => Some (S i)
      | None => if mem c set then None else Some O
      end
  end.

(** [::tolower] in the "C" locale. *)
Definition tolower (c : ascii) : ascii :=
  let n := nat_of_ascii c in
  if Nat.leb 65 n && Nat.leb n 90 then ascii_of_nat (n + 32) else c.

Definition toupper (c : ascii) : ascii :=
  let n := nat_of_ascii c in
  if Nat.leb 97 n && Nat.leb n 122 then ascii_of_nat (n - 32) else c.

Definition is_upper (c : ascii) : bool :=
  let n := nat_of_ascii c in Nat.leb 65 n && Nat.leb n 90.

Definition is_lower (c : ascii) : bool :=
  let n := nat_of_ascii c in Nat.leb 97 n && Nat.leb n 122.

Fixpoint map (f : ascii -> ascii) (s : string) : string :=
  match s with
  | EmptyString => EmptyString
  | String c s' => String (f c) (map f s')
  end.

(** [std::string(n, c)] and [s.append(n, c)]: [n] copies of [c]. *)
Fixpoint fill (n : nat) (c : ascii) : string :=
  match n with
  | O => EmptyString
  | S m => String c (fill m c)
  end.

(** Every character of [s] belongs to [set]. *)
Fixpoint all_in (set s : string) : bool :=
  match s with
  | EmptyString => true
  | String c s' => mem c set && all_in set s'
  end.

(** [s.front()] and [s.back()], for a string that is not empty. *)
Definition front (s : string) : option ascii :=
  match s with
  | EmptyString => None
  | String c _ => Some c
  end.

Fixpoint back (s : string) : option ascii :=
  match s with
  | EmptyString => None
  | String c EmptyString => Some c
  | String _ s' => back s'
  end.

End StdString.

(** ** [n_utils::str_manip] *)

Module n_utils.

Import StdString.

Definition whitespace : string :=
  String " " (String "009" (String "010" (String "013"
    (String "011" (String "012" "")))))%char.

(** [trim]: strip leading and trailing whitespace. *)
Definition trim (str : string) : string :=
  let start := find_first_not_of str whitespace 0 in
  let end_ := find_last_not_of str whitespace in
  match start, end_ with
  | Some st, Some en => substr str st (en - st + 1)
  | Some st, None => substr str st 0
  | None, _ => ""
  end.

(** [toLower]: [std::transform] with [::tolower]. *)
Definition toLower (str : string) : string := map tolower str.

(** [std::getline] over an [std::istringstream]: the lines of [s], a final
    line without a newline included, no empty line after a final newline. *)
Fixpoint getlines_aux (cur : string) (s : string) : list string :=
  match s with
  | EmptyString => if empty cur then [] else [String.rev cur]
  | String c s' =>
      if Ascii.eqb c LF then String.rev cur :: getlines_aux "" s'
      else getlines_aux (String c cur) s'
  end.

Definition getlines (s : string) : list string := getlines_aux "" s.

(** [parseHeaderValue]: the value of the first line that starts with
    [key + ":"], trimmed. *)
Definition parseHeaderValue (headers key : string) : option string :=
  let prefix := key +:+ ":" in
  match List.find (starts_with prefix) (getlines headers) with
  | Some line => Some (trim (substr_from line (size prefix)))
  | None => None
  end.

(** A string with no whitespace at either end. *)
Definition trimmed (s : string) : bool :=
  match front s, back s with
  | Some a, Some b => negb (mem a whitespace) && negb (mem b whitespace)
  | _, _ => true
  end.

(** Lines, each followed by a newline. *)
Fixpoint join_lines (lines : list string) : string :=
  match lines with
  | [] => ""
  | l :: lines' => l +:+ String LF (join_lines lines')
  end.

End n_utils.

(** ** [HttpMessage]: version, headers, body *)

Module HttpMessage.

Record t : Type := mk {
  version : string;
  headers : gmap string string;
  body : string
}.

(** The constructor: version "HTTP/1.1", no headers, empty body. *)
Definition new : t := mk "HTTP/1.1" ∅ "".

Definition getVersion (m : t) : string := version m.

Definition getHeader (m : t) (key : string) : option string :=
  let lowerKey := n_utils.toLower key in
  headers m !! lowerKey.

Definition getBody (m : t) : string := body m.

Definition setVersion (m : t) (v : string) : t :=
  mk v (headers m) (body m).

Definition setHeader (m : t) (key value : string) : t :=
  let lowerKey := n_utils.toLower key in
  mk (version m) (<[lowerKey := value]> (headers m)) (body m).

Definition removeHeader (m : t) (key : string) : bool * t :=
  let lowerKey := n_utils.toLower key in
  (bool_decide (is_Some (headers m !! lowerKey)),
   mk (version m) (delete lowerKey (headers m)) (body m)).

Definition setBody (m : t) (b : string) : t :=
  mk (version m) (headers m) b.

(** Two keys that differ at most in the case of their letters. *)
Definition same_char_up_to_case (a b : ascii) : Prop :=
  a = b
  \/ (StdString.is_upper a = true /\ b = StdString.tolower a)
  \/ (StdString.is_lower a = true /\ b = StdString.toupper a).

Inductive differ_only_in_case : string -> string -> Prop :=
| doic_nil : differ_only_in_case "" ""
| doic_cons a b s1 s2 :
    same_char_up_to_case a b ->
    differ_only_in_case s1 s2 ->
    differ_only_in_case (String a s1) (String b s2).

(** Every stored key is in lowercase. *)
Definition keys_lowercase (m : t) : Prop :=
  forall k v, headers m !! k = Some v -> n_utils.toLower k = k.

End HttpMessage.

(** ** [std::stoi] and [std::stoul] *)

Module StdConv.

Import StdString.

(** What a conversion yields: a value, or one of the two exceptions. *)
Inductive conv : Type :=
| Parsed (v : Z)
| InvalidArgument
| OutOfRange.

(** [isspace] in the "C" locale. *)
Definition isspace (c : ascii) : bool :=
  let n := nat_of_ascii c in
  Nat.eqb n 32 || (Nat.leb 9 n && Nat.leb n 13).

(** The value of [c] as a digit, for bases up to 36. *)
Definition digit_value (c : ascii) : option Z :=
  let n := Z.of_nat (nat_of_ascii c) in
  if (48 <=? n)%Z && (n <=? 57)%Z then Some (n - 48)%Z
  else if (97 <=? n)%Z && (n <=? 122)%Z then Some (n - 87)%Z
  else if (65 <=? n)%Z && (n <=? 90)%Z then Some (n - 55)%Z
  else None.

Definition digit_in_base (base : Z) (c : ascii) : option Z :=
  match digit_value c with
  | Some d => if (d <? base)%Z then Some d else None
  | None => None
  end.

Fixpoint skip_space (s : string) : string :=
  match s with
  | String c s' => if isspace c then skip_space s' else s
  | EmptyString => EmptyString
  end.

(** An optional sign: [true] when negative, and the rest. *)
Definition read_sign (s : string) : bool * string :=
  match s with
  | String c s' =>
      if Ascii.eqb c "-" then (true, s')
      else if Ascii.eqb c "+" then (false, s')
      else (false, s)
  | EmptyString => (false, s)
  end.

(** In base 16 a "0x" or "0X" prefix is skipped when a hexadecimal digit
    follows it. *)
Definition skip_hex_prefix (base : Z) (s : string) : string :=
  if (base =? 16)%Z then
    match s with
    | String z (String x (String d s')) =>
        if Ascii.eqb z "0" && (Ascii.eqb x "x" || Ascii.eqb x "X") then
          match digit_in_base 16 d with
          | Some _ => String d s'
          | None => s
          end
        else s
    | _ => s
    end
  else s.

(** The longest run of digits: [None] when there is no digit at all. *)
Fixpoint read_digits (base : Z) (acc : option Z) (s : string) : option Z :=
  match s with
  | String c s' =>
      match digit_in_base base c with
      | Some d =>
          read_digits base
            (Some (match acc with Some a => a * base + d | None => d end)%Z) s'
      | None => acc
      end
  | EmptyString => acc
  end.

(** The common front end of [strtol] and [strtoul]: sign and magnitude. *)
Definition scan (s : string) (base : Z) : option (bool * Z) :=
  let '(neg, s1) := read_sign (skip_space s) in
  match read_digits base None (skip_hex_prefix base s1) with
  | Some v => Some (neg, v)
  | None => None
  end.

Definition INT_MIN : Z := (- 2 ^ 31)%Z.
Definition INT_MAX : Z := (2 ^ 31 - 1)%Z.
Definition ULONG_MAX : Z := (2 ^ 64 - 1)%Z.

(** [std::stoi(s, nullptr, base)]. *)
Definition stoi (s : string) (base : Z) : conv :=
  match scan s base with
  | None => InvalidArgument
  | Some (neg, v) =>
      let r := (if neg then - v else v)%Z in
      if (INT_MIN <=? r)%Z && (r <=? INT_MAX)%Z then Parsed r else OutOfRange
  end.

(** [std::stoul(s)]: a negative input is negated in unsigned arithmetic. *)
Definition stoul (s : string) : conv :=
  match scan s 10 with
  | None => InvalidArgument
  | Some (neg, v) =>
      if (ULONG_MAX <? v)%Z then OutOfRange
      else Parsed (if neg then (- v) mod 2 ^ 64 else v)%Z
  end.

(** [static_cast<char>] of an [int]: the low eight bits. *)
Definition char_of_int (v : Z) : ascii :=
  ascii_of_N (Z.to_N (v mod 256)%Z).

(** [std::isdigit] in the "C" locale. *)
Definition isdigit (c : ascii) : bool :=
  let n := nat_of_ascii c in Nat.leb 48 n && Nat.leb n 57.

(** The character of a decimal digit. *)
Definition digit_char (d : Z) : ascii := ascii_of_N (Z.to_N (48 + d)%Z).

(** The decimal digits of [v], most significant first, in front of [acc];
    [fuel] bounds their number. *)
Fixpoint to_string_aux (fuel : nat) (v : Z) (acc : string) : string :=
  match fuel with
  | O => acc
  | S fuel' =>
      let acc' := String (digit_char (v mod 10)%Z) acc in
      if (v <? 10)%Z then acc' else to_string_aux fuel' (v / 10)%Z acc'
  end.

(** [std::to_string] of an integer. *)
Definition to_string (v : Z) : string :=
  if (v <? 0)%Z
  then String "-" (to_string_aux (S (Z.to_nat (Z.log2 (- v)))) (- v)%Z "")
  else to_string_aux (S (Z.to_nat (Z.log2 v))) v "".

End StdConv.

(** ** [n_utils::io_style] *)

Module io_style.

Import StdString StdConv.

(** [seperator(title, fillChar, lineWidth)], for a title of fewer than
    [2^31] characters. [s.append(n, c)] with a negative [int] for [n] asks
    for more than [max_size()] characters and raises [std::length_error];
    the function is [noexcept], so the program is terminated: [None]. *)
Definition seperator (title : string) (fillChar : ascii) (lineWidth : Z)
    : option string :=
  if (lineWidth <? 0)%Z then Some ""
  else if empty title then Some (fill (Z.to_nat lineWidth) fillChar)
  else
    let titleLength := Z.of_nat (size title) in
    let totalPadding := (lineWidth - titleLength - 2)%Z in
    let padding := Z.quot totalPadding 2 in
    if (padding <? 0)%Z then None
    else
      let seperator :=
        fill (Z.to_nat padding) fillChar +:+ " " +:+ title +:+ " " +:+
        fill (Z.to_nat padding) fillChar in
      Some (if negb (Z.rem totalPadding 2 =? 0)%Z
            then seperator +:+ String fillChar ""
            else seperator).

End io_style.

(** ** [http::encoding]: percent-encoding of form bodies *)

Module http_encoding.

Import StdString StdConv.

Definition ENCODING_MAP : list (ascii * string) :=
  [ (" "%char, "%20"); ("!"%char, "%21"); ("034"%char, "%22"); ("#"%char, "%23"); ("$"%char, "%24");
    ("%"%char, "%25"); ("&"%char, "%26"); ("'"%char, "%27"); ("("%char, "%28"); (")"%char, "%29");
    ("*"%char, "%2A"); ("+"%char, "%2B"); (","%char, "%2C"); ("-"%char, "%2D"); ("."%char, "%2E");
    ("/"%char, "%2F"); (":"%char, "%3A"); (";"%char, "%3B"); ("<"%char, "%3C"); ("="%char, "%3D");
    (">"%char, "%3E"); ("?"%char, "%3F"); ("@"%char, "%40"); ("["%char, "%5B"); ("\"%char, "%5C");
    ("]"%char, "%5D"); ("^"%char, "%5E"); ("_"%char, "%5F"); ("`"%char, "%60"); ("{"%char, "%7B");
    ("|"%char, "%7C"); ("}"%char, "%7D"); ("~"%char, "%7E") ].

(** [ENCODING_MAP.find(c)]. *)
Definition lookup (c : ascii) : option string :=
  match List.find (fun p => Ascii.eqb (fst p) c) ENCODING_MAP with
  | Some p => Some (snd p)
  | None => None
  end.

(** One iteration of the loop of [encode]. *)
Definition encode_step (encoded : string) (c : ascii) : string :=
  match lookup c with
  | Some e => encoded +:+ e
  | None => encoded +:+ String c ""
  end.

Fixpoint encode_loop (encoded : string) (str : string) : string :=
  match str with
  | EmptyString => encoded
  | String c rest => encode_loop (encode_step encoded c) rest
  end.

Definition encode (str : string) : string := encode_loop "" str.

(** The loop of [decode]. The argument [str] is the unread part of the
    input, that is [str[i..]] for the loop index [i]; [i + 2 < str.size()]
    says that two more characters follow the one at [i]. *)
Fixpoint decode_loop (decoded : string) (str : string) : string :=
  match str with
  | EmptyString => decoded
  | String c rest =>
      if Ascii.eqb c "%" then
        match rest with
        | String h1 (String h2 rest') =>
            match stoi (String h1 (String h2 "")) 16 with
            | Parsed v => decode_loop (decoded +:+ String (char_of_int v) "") rest'
            | _ => decode_loop (decoded +:+ "%") rest
            end
        | _ => decode_loop (decoded +:+ String c "") rest
        end
      else decode_loop (decoded +:+ String c "") rest
  end.

Definition decode (str : string) : string := decode_loop "" str.

(** What [encode] appends for one character. *)
Definition encoded_char (c : ascii) : string := encode_step "" c.

(** The table is consistent with [decode], character by character: a
    character of the table is sent to a triple whose two digits read back as
    that character, any other character is not the percent sign. *)
Definition char_round_trips (c : ascii) : bool :=
  match lookup c with
  | Some (String p (String h1 (String h2 EmptyString))) =>
      Ascii.eqb p "%" &&
      match stoi (String h1 (String h2 "")) 16 with
      | Parsed v => Ascii.eqb (char_of_int v) c
      | _ => false
      end
  | Some _ => false
  | None => negb (Ascii.eqb c "%")
  end.

(** A character that [encode] may leave in its result: one that is not in
    the table, or the percent sign. *)
Definition unreserved (c : ascii) : bool :=
  match lookup c with
  | Some _ => Ascii.eqb c "%"
  | None => true
  end.

Fixpoint all_unreserved (s : string) : bool :=
  match s with
  | EmptyString => true
  | String c s' => unreserved c && all_unreserved s'
  end.

End http_encoding.

(** ** The operating system seen from the program *)

Module Sys.

(** Linux values of the constants the program names. *)
Definition EINTR : Z := 4.
Definition EAGAIN : Z := 11.
Definition EWOULDBLOCK : Z := 11.
Definition EINPROGRESS : Z := 115.
Definition O_RDWR : Z := 2.
Definition O_NONBLOCK : Z := 2048.
Definition MSG_PEEK : Z := 2.
Definition MSG_DONTWAIT : Z := 64.
Definition MSG_NOSIGNAL : Z := 16384.
Definition POLLIN : Z := 1.
Definition POLLOUT : Z := 4.

(** The text of an exception: a fixed message, possibly followed by
    [strerror] of an error number. *)
Inductive what : Type :=
| Text (msg : string)
| TextErrno (msg : string) (errnum : Z).

(** The exception classes the program throws. [std::system_error] derives
    from [std::runtime_error]; [std::invalid_argument] and
    [std::out_of_range] derive from [std::logic_error]; all of them derive
    from [std::exception]. *)
Inductive exn : Type :=
| runtime_error (w : what)
| system_error (code : Z) (msg : string)
| invalid_argument (msg : string)
| out_of_range (msg : string).

(** [catch(const std::runtime_error&)] *)
Definition is_runtime_error (e : exn) : bool :=
  match e with
  | runtime_error _ | system_error _ _ => true
  | invalid_argument _ | out_of_range _ => false
  end.

(** [catch(const std::exception&)] *)
Definition is_std_exception (e : exn) : bool :=
  match e with
  | runtime_error _ | system_error _ _
  | invalid_argument _ | out_of_range _ => true
  end.

(** The failures of the transport layer, as exceptions. *)
Definition SocketCreateError (w : what) : exn := runtime_error w.
Definition InvalidDescriptor : exn :=
  runtime_error (Text "Invalid socket file descriptor").
Definition SocketControlError (msg : string) : exn := runtime_error (Text msg).
Definition ConnectTimeout : exn := runtime_error (Text "Connection timed out").
Definition PollError (errnum : Z) : exn :=
  runtime_error (TextErrno "Poll error during connect: " errnum).
Definition ConnectFailed (errnum : Z) : exn :=
  runtime_error (TextErrno "connect() failed: " errnum).
Definition ConnectFailedAtOnce (errnum : Z) : exn :=
  runtime_error (TextErrno "" errnum).
Definition SendError (errnum : Z) : exn :=
  system_error errnum "Failed to send data".
Definition RecvError (errnum : Z) : exn :=
  system_error errnum "Failed to receive data".

(** One answer of the operating system to one system call: success with a
    non-negative value (a byte count, a descriptor, a number of ready
    descriptors, the pending error of [SO_ERROR]), failure with an error
    number (the call returns -1 and sets [errno]), or, for a read, the bytes
    available on the connection. *)
Inductive answer : Type :=
| Success (v : N)
| Failure (errnum : Z)
| Delivered (data : string).

(** A [sockaddr_in]: the sixteen bits of [sin_port], in network byte order
    as [htons] gives them, and the text of the address given to
    [inet_pton]. *)
Record sockaddr : Type := mkSockaddr {
  sin_port : Z;
  sin_addr : string
}.

(** The system calls the program issues, with the arguments that matter. *)
Inductive call : Type :=
| SysSocket
| SysSetsockopt (fd : Z)
| SysFcntlGet (fd : Z)
| SysFcntlSet (fd : Z) (flags : Z)
| SysConnect (fd : Z) (addr : sockaddr)
| SysPoll (fd : Z) (events : Z) (timeout_ms : Z)
| SysGetsockopt (fd : Z)
| SysRecv (fd : Z) (len : N) (flags : Z)
| SysSend (fd : Z) (data : string) (flags : Z)
| SysClose (fd : Z)
| SysSleep (ms : Z).

Inductive LogLevel : Type := DEBUG | INFO | WARN | ERROR.

(** [level < currentLevel] on the enumeration. *)
Definition level_rank (l : LogLevel) : nat :=
  match l with DEBUG => 0 | INFO => 1 | WARN => 2 | ERROR => 3 end.

Definition level_below (l current : LogLevel) : bool :=
  Nat.ltb (level_rank l) (level_rank current).

(** A fragment of a message: text, a number, the text of an exception. *)
Inductive frag : Type :=
| Str (s : string)
| Int (z : Z)
| What (e : exn).

(** A line written to the console: by [Logger::log] with its level, or by
    [Logger::print]. *)
Inductive line : Type :=
| Logged (level : LogLevel) (message : list frag)
| Printed (message : list frag).

(** The world the program runs in: [errno], the file status flags of the
    socket (a non-negative number), the answers the operating system is
    going to give (one per system call, in order), the result of [inet_pton]
    on each text, the calls issued so far (oldest first), the lines written
    to the console, the level of the logger, and the one [ConnectionManager]
    of the process: the descriptor of the socket it owns, if any, and its
    [connected] flag. *)
Record world : Type := mkWorld {
  errno : Z;
  fd_flags : N;
  script : list answer;
  inet_pton : string -> Z;
  trace : list call;
  logs : list line;
  currentLevel : LogLevel;
  mgr_socket : option Z;
  mgr_connected : bool
}.

(** What running a piece of the program gives: a value, an exception, or
    [Stuck] when the script has no (fitting) answer left for a call. *)
Inductive result (A : Type) : Type :=
| Returned (a : A)
| Thrown (e : exn)
| Stuck.

Arguments Returned {A} a.
Arguments Thrown {A} e.
Arguments Stuck {A}.

Definition M (A : Type) : Type := world -> result A * world.

Definition ret {A} (a : A) : M A := fun w => (Returned a, w).

Definition bind {A B} (m : M A) (k : A -> M B) : M B :=
  fun w =>
    match m w with
    | (Returned a, w') => k a w'
    | (Thrown e, w') => (Thrown e, w')
    | (Stuck, w') => (Stuck, w')
    end.

Definition throw {A} (e : exn) : M A := fun w => (Thrown e, w).

Definition stuck {A} : M A := fun w => (Stuck, w).

(** [try { m } catch(const T& e) { handler e }], where [catches] tells
    whether an exception is a [T]. *)
Definition try_catch {A} (m : M A) (catches : exn -> bool)
    (handler : exn -> M A) : M A :=
  fun w =>
    match m w with
    | (Thrown e, w') => if catches e then handler e w' else (Thrown e, w')
    | r => r
    end.

(** Two ways of speaking about every run of a computation: the exceptions
    it may raise, and a relation between the world before and after. *)
Definition throws_only {A} (P : exn -> Prop) (m : M A) : Prop :=
  forall w e w', m w = (Thrown e, w') -> P e.

Definition relates {A} (R : world -> world -> Prop) (m : M A) : Prop :=
  forall w r w', m w = (r, w') -> R w w'.

(** No exception at all; only exceptions that are [std::runtime_error]s. *)
Definition never : exn -> Prop := fun _ => False.

(** The manager is as it was. *)
Definition same_manager (w w' : world) : Prop :=
  mgr_socket w' = mgr_socket w /\ mgr_connected w' = mgr_connected w.

(** Every run of a computation keeps a property of the world. *)
Definition keeps {A} (I : world -> Prop) (m : M A) : Prop :=
  relates (fun w w' => I w -> I w') m.

Definition get_errno : M Z := fun w => (Returned (errno w), w).

Definition get_fd_flags : M Z := fun w => (Returned (Z.of_N (fd_flags w)), w).

Definition set_errno (e : Z) (w : world) : world :=
  mkWorld e (fd_flags w) (script w) (inet_pton w) (trace w) (logs w)
    (currentLevel w) (mgr_socket w) (mgr_connected w).

Definition set_fd_flags (f : Z) (w : world) : world :=
  mkWorld (errno w) (Z.to_N f) (script w) (inet_pton w) (trace w) (logs w)
    (currentLevel w) (mgr_socket w) (mgr_connected w).

Definition set_script (s : list answer) (w : world) : world :=
  mkWorld (errno w) (fd_flags w) s (inet_pton w) (trace w) (logs w)
    (currentLevel w) (mgr_socket w) (mgr_connected w).

Definition record (c : call) (w : world) : world :=
  mkWorld (errno w) (fd_flags w) (script w) (inet_pton w) (trace w ++ [c])
    (logs w) (currentLevel w) (mgr_socket w) (mgr_connected w).

Definition write (l : list line) (w : world) : world :=
  mkWorld (errno w) (fd_flags w) (script w) (inet_pton w) (trace w)
    (logs w ++ l) (currentLevel w) (mgr_socket w) (mgr_connected w).

Definition set_socket (s : option Z) (w : world) : world :=
  mkWorld (errno w) (fd_flags w) (script w) (inet_pton w) (trace w) (logs w)
    (currentLevel w) s (mgr_connected w).

Definition set_connected (c : bool) (w : world) : world :=
  mkWorld (errno w) (fd_flags w) (script w) (inet_pton w) (trace w) (logs w)
    (currentLevel w) (mgr_socket w) c.

(** [Logger::getInstance().log(message, level)]: nothing is written for a
    level below the current one. *)
Definition log (message : list frag) (level : LogLevel) : M unit :=
  fun w =>
    (Returned tt,
     write (if level_below level (currentLevel w) then []
            else [Logged level message]) w).

(** [Logger::getInstance().print(message)] *)
Definition print (message : list frag) : M unit :=
  fun w => (Returned tt, write [Printed message] w).

(** A call that consumes no answer. *)
Definition emit (c : call) : M unit := fun w => (Returned tt, record c w).

(** A system call with an integer result: it is recorded, the next answer
    is consumed; a failure sets [errno] and returns -1. *)
Definition syscall (c : call) : M Z :=
  fun w =>
    match script w with
    | Success v :: rest => (Returned (Z.of_N v), set_script rest (record c w))
    | Failure e :: rest =>
        (Returned (-1)%Z, set_errno e (set_script rest (record c w)))
    | Delivered _ :: _ => (Stuck, w)
    | [] => (Stuck, w)
    end.

(** [::socket(domain, type, protocol)]: a fresh descriptor, opened for
    reading and writing, blocking. *)
Definition sys_socket : M Z :=
  bind (syscall SysSocket) (fun fd =>
  fun w => (Returned fd, if (fd <? 0)%Z then w else set_fd_flags O_RDWR w)).

Definition sys_setsockopt (fd : Z) : M Z := syscall (SysSetsockopt fd).

(** [fcntl(fd, F_GETFL, 0)]: the file status flags, or -1. *)
Definition sys_fcntl_getfl (fd : Z) : M Z :=
  bind (syscall (SysFcntlGet fd)) (fun r =>
  if (r <? 0)%Z then ret r else get_fd_flags).

(** [fcntl(fd, F_SETFL, flags)] *)
Definition sys_fcntl_setfl (fd : Z) (flags : Z) : M Z :=
  bind (syscall (SysFcntlSet fd flags)) (fun r =>
  fun w => (Returned r, if (r <? 0)%Z then w else set_fd_flags flags w)).

(** [::connect(fd, addr, addrlen)]: 0 or -1. *)
Definition sys_connect (fd : Z) (addr : sockaddr) : M Z :=
  bind (syscall (SysConnect fd addr)) (fun r =>
  ret (if (r <? 0)%Z then r else 0%Z)).

(** [poll(&pfd, 1, timeout_ms)]: the number of ready descriptors, or -1. *)
Definition sys_poll (fd events timeout_ms : Z) : M Z :=
  syscall (SysPoll fd events timeout_ms).

(** [getsockopt(fd, SOL_SOCKET, SO_ERROR, &socket_error, &len)]: the result
    of the call and the value stored in [socket_error] (left at its initial
    value 0 when the call fails). *)
Definition sys_getsockopt_so_error (fd : Z) : M (Z * Z) :=
  bind (syscall (SysGetsockopt fd)) (fun r =>
  ret (if (r <? 0)%Z then (r, 0%Z) else (0%Z, r))).

(** [::send(fd, buf, len, flags)]: the kernel takes at most [len] bytes. *)
Definition sys_send (fd : Z) (data : string) (flags : Z) : M Z :=
  bind (syscall (SysSend fd data flags)) (fun r =>
  ret (Z.min r (Z.of_nat (StdString.size data)))).

(** [::recv(fd, buf, len, flags)]: the number of bytes stored and the bytes
    themselves, at most [len] of them; no byte at all means that the peer
    has closed the connection. *)
Definition sys_recv (fd : Z) (len : N) (flags : Z) : M (Z * string) :=
  fun w =>
    match script w with
    | Delivered data :: rest =>
        let got := StdString.take (N.to_nat len) data in
        (Returned (Z.of_nat (StdString.size got), got),
         set_script rest (record (SysRecv fd len flags) w))
    | Failure e :: rest =>
        (Returned ((-1)%Z, ""),
         set_errno e (set_script rest (record (SysRecv fd len flags) w)))
    | Success _ :: _ => (Stuck, w)
    | [] => (Stuck, w)
    end.

Definition sys_close (fd : Z) : M unit := emit (SysClose fd).

(** The number of answers left in the script: a bound on the turns of a
    loop that takes one answer per turn. *)
Definition answers_left : M nat :=
  fun w => (Returned (List.length (script w)), w).

(** [std::this_thread::sleep_for(std::chrono::milliseconds(ms))] *)
Definition sleep_for (ms : Z) : M unit := emit (SysSleep ms).

(** A line written by [Logger::log] at level [ERROR]. *)
Definition is_error_line (l : line) : bool :=
  match l with
  | Logged ERROR _ => true
  | _ => false
  end.

End Sys.

(** ** [Logger]: the names of the levels *)

Module Logger.

Import Sys.

(** [Logger::toString(level)] *)
Definition toString (level : LogLevel) : string :=
  match level with
  | DEBUG => "DEBUG"
  | INFO => "INFO"
  | WARN => "WARN"
  | ERROR => "ERROR"
  end.

(** [Logger::toEnum(level)] *)
Definition toEnum (level : string) : LogLevel :=
  if String.eqb level "DEBUG" then DEBUG
  else if String.eqb level "INFO" then INFO
  else if String.eqb level "WARN" then WARN
  else if String.eqb level "ERROR" then ERROR
  else INFO.

End Logger.

Declare Scope prog_scope.
Delimit Scope prog_scope with prog.
Notation "x <- c ;; k" := (Sys.bind c (fun x => k))
  (at level 100, c at next level, right associativity) : prog_scope.
Notation "c ;;; k" := (Sys.bind c (fun _ => k))
  (at level 100, right associativity) : prog_scope.

(** ** [Socket]: the transport socket *)

Module Socket.

Import Sys.
Local Open Scope prog_scope.
Local Open Scope Z_scope.

(** [Socket::Socket(domain, type, protocol)]: the descriptor owned by the
    new object. *)
Definition create : M Z :=
  socket_fd <- sys_socket ;;
  if socket_fd <? 0 then
    e <- get_errno ;;
    throw (SocketCreateError (TextErrno "Failed to create socket: " e))
  else
    r <- sys_setsockopt socket_fd ;;
    if r <? 0 then
      e <- get_errno ;;
      throw (SocketCreateError (TextErrno "Failed to set socket options: " e))
    else ret socket_fd.

(** [Socket::Socket(int socket_fd)] *)
Definition adopt (socket_fd : Z) : M Z :=
  if socket_fd <? 0 then throw InvalidDescriptor else ret socket_fd.

(** [Socket::~Socket()] *)
Definition destroy (socket_fd : Z) : M unit :=
  if 0 <=? socket_fd then
    log [Str "Closing socket."] DEBUG ;;;
    sys_close socket_fd
  else ret tt.

(** [Socket::setNonBlocking(enable)] *)
Definition setNonBlocking (socket_fd : Z) (enable : bool) : M unit :=
  flags <- sys_fcntl_getfl socket_fd ;;
  if flags <? 0 then
    throw (SocketControlError "Failed to get socket flags")
  else
    let flags' :=
      if enable then Z.lor flags O_NONBLOCK
      else Z.land flags (Z.lnot O_NONBLOCK) in
    r <- sys_fcntl_setfl socket_fd flags' ;;
    if r <? 0 then
      throw (SocketControlError "Failed to set socket to non-blocking mode")
    else ret tt.

(** The [do { poll } while(poll_result < 0 && errno == EINTR)] loop of
    [Socket::connect]; every iteration consumes one answer. *)
Fixpoint poll_until_not_interrupted (fuel : nat) (socket_fd timeout_ms : Z)
    : M Z :=
  match fuel with
  | O => stuck
  | S fuel' =>
      poll_result <- sys_poll socket_fd POLLOUT timeout_ms ;;
      e <- get_errno ;;
      if (poll_result <? 0) && (e =? EINTR)
      then poll_until_not_interrupted fuel' socket_fd timeout_ms
      else ret poll_result
  end.

(** [Socket::connect(server_addr, addrlen, timeout_ms)] *)
Definition connect (socket_fd : Z) (server_addr : sockaddr) (timeout_ms : Z)
    : M unit :=
  setNonBlocking socket_fd true ;;;
  result <- sys_connect socket_fd server_addr ;;
  if result =? 0 then ret tt
  else
    e <- get_errno ;;
    if negb (e =? EINPROGRESS) then throw (ConnectFailedAtOnce e)
    else
      fuel <- answers_left ;;
      poll_result <-
        poll_until_not_interrupted (S fuel) socket_fd timeout_ms ;;
      if poll_result =? 0 then throw ConnectTimeout
      else if poll_result <? 0 then
        e <- get_errno ;;
        throw (PollError e)
      else
        got <- sys_getsockopt_so_error socket_fd ;;
        let '(r, socket_error) := got in
        if r <? 0 then
          e <- get_errno ;;
          throw (runtime_error (TextErrno "getsockopt failed: " e))
        else if negb (socket_error =? 0) then
          throw (ConnectFailed socket_error)
        else ret tt.

(** [Socket::recv(buf, len, flags)]: the value returned and the bytes
    stored in [buf]. *)
Definition recv (socket_fd : Z) (len : N) (flags : Z) : M (Z * string) :=
  got <- sys_recv socket_fd len flags ;;
  let '(bytesRead, buf) := got in
  if bytesRead <? 0 then
    e <- get_errno ;;
    log [Str "recv() returned -1.  errno: "; Int e] DEBUG ;;;
    if negb (e =? EAGAIN) && negb (e =? EWOULDBLOCK) then
      throw (RecvError e)
    else ret (bytesRead, buf)
  else
    log [Str "recv() returned: "; Int bytesRead] DEBUG ;;;
    ret (bytesRead, buf).

(** The [while(totalSent < len)] loop of [Socket::send]; every iteration
    consumes one answer. *)
Fixpoint send_loop (fuel : nat) (socket_fd : Z) (data : string)
    (flags : Z) (totalSent : nat) : M Z :=
  if Nat.ltb totalSent (StdString.size data) then
    match fuel with
    | O => stuck
    | S fuel' =>
        bytesSent <-
          sys_send socket_fd (StdString.substr_from data totalSent) flags ;;
        log [Str "send() returned: "; Int bytesSent] DEBUG ;;;
        if bytesSent <? 0 then
          e <- get_errno ;;
          log [Str "send() returned -1. errno: "; Int e] DEBUG ;;;
          if (e =? EAGAIN) || (e =? EWOULDBLOCK) then
            sleep_for 1 ;;;
            send_loop fuel' socket_fd data flags totalSent
          else throw (SendError e)
        else
          send_loop fuel' socket_fd data flags
            (totalSent + Z.to_nat bytesSent)%nat
    end
  else ret (Z.of_nat totalSent).

(** [Socket::send(buf, len, flags)] *)
Definition send (socket_fd : Z) (data : string) (flags : Z) : M Z :=
  fuel <- answers_left ;;
  send_loop fuel socket_fd data flags 0%nat.

(** A would-block answer to a read or a write. *)
Definition would_block (a : answer) : bool :=
  match a with
  | Failure e => (e =? EAGAIN) || (e =? EWOULDBLOCK)
  | _ => false
  end.

(** A script for a writer that never fails for good: every answer either
    accepts some bytes or is a would-block. *)
Fixpoint patient_writes (answers : list answer) : bool :=
  match answers with
  | [] => true
  | Success _ :: rest => patient_writes rest
  | a :: rest => would_block a && patient_writes rest
  end.

(** The number of bytes such a script is ready to accept in all. *)
Fixpoint accepted (answers : list answer) : nat :=
  match answers with
  | [] => O
  | Success v :: rest => (N.to_nat v + accepted rest)%nat
  | _ :: rest => accepted rest
  end.

(** The bytes the kernel has taken: for every write among [calls], in
    order, the part of the data offered that the matching answer accepts.
    A call other than a write takes no answer. *)
Fixpoint taken (calls : list call) (answers : list answer) : string :=
  match calls with
  | [] => ""
  | SysSend _ data _ :: calls' =>
      match answers with
      | Success v :: answers' =>
          StdString.take (N.to_nat v) data +:+ taken calls' answers'
      | _ :: answers' => taken calls' answers'
      | [] => ""
      end
  | _ :: calls' => taken calls' answers
  end.

(** The writes and the pauses among the calls issued. *)
Definition is_write (c : call) : bool :=
  match c with SysSend _ _ _ => true | _ => false end.

Definition is_pause (c : call) : bool :=
  match c with SysSleep _ => true | _ => false end.

(** A write of [Socket::send]: a part of the buffer that is not empty,
    from some position to its end; or the pause after a would-block. *)
Definition write_or_pause (socket_fd : Z) (data : string) (flags : Z)
    (c : call) : Prop :=
  c = SysSleep 1
  \/ exists totalSent : nat,
       (totalSent < StdString.size data)%nat
       /\ c = SysSend socket_fd (StdString.substr_from data totalSent) flags.

(** The descriptor is in non-blocking mode. *)
Definition non_blocking (w : world) : bool :=
  negb (Z.land (Z.of_N (fd_flags w)) O_NONBLOCK =? 0).

(** A world that has just started: no error, a blocking descriptor, nothing
    issued or written yet, every address text accepted by [inet_pton], the
    logger at its default level, a manager without a socket. *)
Definition fresh_world (answers : list answer) : world :=
  mkWorld 0 (Z.to_N O_RDWR) answers (fun _ => 1) [] [] INFO None false.

(** The same, with a C library that accepts no address text. *)
Definition world_rejecting_addresses (answers : list answer) : world :=
  mkWorld 0 (Z.to_N O_RDWR) answers (fun _ => 0) [] [] INFO None false.

(** [Socket::Socket(Socket&& other)]: the descriptor of the new object and
    the one left in [other]. *)
Definition move_construct (other_fd : Z) : Z * Z := (other_fd, -1).

(** [Socket::operator=(Socket&& other)] on two distinct objects: the
    descriptor of the target and the one left in [other]. *)
Definition move_assign (socket_fd other_fd : Z) : M (Z * Z) :=
  (if 0 <=? socket_fd then sys_close socket_fd else ret tt) ;;;
  ret (other_fd, -1).

(** The number of times a descriptor is closed in a trace. *)
Definition closes (fd : Z) (t : list call) : nat :=
  List.length
    (List.filter
       (fun c => match c with SysClose fd' => fd' =? fd | _ => false end) t).

End Socket.

(** ** [ConnectionManager] *)

Module ConnectionManager.

Import StdString StdConv Sys.
Local Open Scope prog_scope.
Local Open Scope Z_scope.

Definition TIMEOUT_MS : Z := 5000.
Definition BUFFER_SIZE : N := 128 * 1024.

(** The members [socket] and [connected]. *)
Definition get_socket : M (option Z) := fun w => (Returned (mgr_socket w), w).
Definition put_socket (s : option Z) : M unit :=
  fun w => (Returned tt, set_socket s w).
Definition get_connected : M bool := fun w => (Returned (mgr_connected w), w).
Definition put_connected (c : bool) : M unit :=
  fun w => (Returned tt, set_connected c w).

(** [ConnectionManager::ConnectionManager()] *)
Definition new (w : world) : world := set_connected false (set_socket None w).

(** [socket.reset()]: the owned [Socket] is destroyed. *)
Definition reset_socket : M unit :=
  s <- get_socket ;;
  match s with
  | Some socket_fd => Socket.destroy socket_fd ;;; put_socket None
  | None => ret tt
  end.

(** The flags of the read of [isConnected]. *)
Definition peek_flags : Z := Z.lor MSG_PEEK MSG_DONTWAIT.

(** [ConnectionManager::isConnected()] *)
Definition isConnected : M bool :=
  s <- get_socket ;;
  match s with
  | None => ret false
  | Some socket_fd =>
      got <- sys_recv socket_fd 1 peek_flags ;;
      let result := fst got in
      e <- get_errno ;;
      (if result =? 0 then put_connected false
       else if (result <? 0) && (negb (e =? EAGAIN) && negb (e =? EWOULDBLOCK))
       then put_connected false
       else ret tt) ;;;
      get_connected
  end.

(** [ConnectionManager::pollSocket(events, timeout_ms)] *)
Definition pollSocket (events : Z) (timeout_ms : Z) : M bool :=
  s <- get_socket ;;
  match s with
  | None => ret false
  | Some socket_fd =>
      poll_ret <- sys_poll socket_fd events timeout_ms ;;
      if poll_ret <=? 0 then
        let eventStr := if events =? POLLOUT then "writing" else "reading" in
        log [Str "Socket not ready for "; Str eventStr; Str "."] DEBUG ;;;
        ret false
      else ret true
  end.

Definition isWritable : M bool := pollSocket POLLOUT 50.
Definition isReadable : M bool := pollSocket POLLIN 50.

(** [ConnectionManager::disconnect()] *)
Definition disconnect : M unit :=
  reset_socket ;;;
  put_connected false.

(** [std::stoi(port)], with its exceptions. *)
Definition stoi_or_throw (str : string) : M Z :=
  match stoi str 10 with
  | Parsed v => ret v
  | InvalidArgument => throw (invalid_argument "stoi")
  | OutOfRange => throw (out_of_range "stoi")
  end.

(** [htons] on a little-endian host (Linux on x86-64, the system whose
    constants [Sys] lists): the argument is cut to sixteen bits
    ([uint16_t]) and its two bytes are exchanged. *)
Definition htons (v : Z) : Z :=
  Z.lor (Z.land (Z.shiftr v 8) 255) (Z.shiftl (Z.land v 255) 8).

(** The [try] statement of [connect]. *)
Definition try_connect (socket_fd : Z) (addr : sockaddr) : M bool :=
  try_catch
    (Socket.connect socket_fd addr TIMEOUT_MS ;;;
     log [Str "Connection successful."] INFO ;;;
     put_connected true ;;;
     ret true)
    is_runtime_error
    (fun e =>
       log [Str "Connection failed: "; What e] ERROR ;;;
       ret false).

(** [ConnectionManager::connect(ip, port)] *)
Definition connect (ip port : string) : M bool :=
  if empty ip || empty port then ret false
  else
    s <- get_socket ;;
    (match s with Some _ => disconnect | None => ret tt end) ;;;
    socket_fd <- Socket.create ;;
    put_socket (Some socket_fd) ;;;
    port_number <- stoi_or_throw port ;;
    let addr := mkSockaddr (htons port_number) ip in
    converted <- (fun w => (Returned (inet_pton w ip), w)) ;;
    if converted <=? 0 then
      log [Str "Invalid IP address: "; Str ip] ERROR ;;;
      ret false
    else
      log [Str "Attempting to connect to "; Str ip; Str ":"; Str port;
           Str "..."] INFO ;;;
      try_connect socket_fd addr.

(** [ConnectionManager::send(data)]: the number of bytes sent, converted
    to [bool]. *)
Definition send (data : string) : M bool :=
  s <- get_socket ;;
  match s with
  | None => ret false
  | Some socket_fd =>
      sent <- Socket.send socket_fd data MSG_NOSIGNAL ;;
      ret (negb (sent =? 0))
  end.

(** The first loop of [receive]: read until the data hold the delimiter.
    [None] stands for [return std::nullopt]. *)
Fixpoint read_headers (fuel : nat) (socket_fd : Z) (data : string)
    : M (option string) :=
  match find data CRLFCRLF 0 with
  | Some _ => ret (Some data)
  | None =>
      match fuel with
      | O => stuck
      | S fuel' =>
          readable <- isReadable ;;
          if negb readable then ret None
          else
            got <- Socket.recv socket_fd BUFFER_SIZE 0 ;;
            let '(bytesRead, buffer) := got in
            if bytesRead <=? 0 then
              log [Str "Failed to read headers."] ERROR ;;;
              ret None
            else read_headers fuel' socket_fd (data +:+ buffer)
      end
  end.

(** The value of [contentLength] after the headers have been inspected. *)
Definition content_length (headersStr : string) : M Z :=
  let lowerKey := n_utils.toLower "Content-Length" in
  match n_utils.parseHeaderValue headersStr lowerKey with
  | Some contentLengthStr =>
      match stoul contentLengthStr with
      | Parsed v => ret v
      | InvalidArgument => ret 0
      | OutOfRange => throw (out_of_range "stoul")
      end
  | None => ret 0
  end.

(** The second loop of [receive]: read while the body is shorter than
    announced. [None] stands for [return std::nullopt], [Some body] for the
    end of the loop, by its condition or by [break]. *)
Fixpoint read_body (fuel : nat) (socket_fd : Z) (contentLength : Z)
    (body : string) : M (option string) :=
  if (0 <? contentLength) && (Z.of_nat (size body) <? contentLength) then
    match fuel with
    | O => stuck
    | S fuel' =>
        readable <- isReadable ;;
        if negb readable then ret None
        else
          got <- Socket.recv socket_fd BUFFER_SIZE 0 ;;
          let '(bytesRead, buffer) := got in
          if bytesRead <=? 0 then ret (Some body)
          else read_body fuel' socket_fd contentLength (body +:+ buffer)
    end
  else ret (Some body).

(** [ConnectionManager::receive()] *)
Definition receive : M (option string) :=
  s <- get_socket ;;
  match s with
  | None => ret None
  | Some socket_fd =>
      fuel <- answers_left ;;
      got <- read_headers (S fuel) socket_fd "" ;;
      match got with
      | None => ret None
      | Some data =>
          match find data CRLFCRLF 0 with
          | None => stuck (* not reached: the loop has found the delimiter *)
          | Some headerEnd =>
              let headersStr := substr data 0 headerEnd in
              let body := substr_from data (headerEnd + 4) in
              contentLength <- content_length headersStr ;;
              fuel <- answers_left ;;
              rest <- read_body (S fuel) socket_fd contentLength body ;;
              match rest with
              | None => ret None
              | Some body' => ret (Some (headersStr +:+ CRLFCRLF +:+ body'))
              end
          end
      end
  end.

(** The [connected] flag is only ever set while a socket is held, and a
    socket that is held owns a descriptor. *)
Definition consistent (w : world) : Prop :=
  (mgr_connected w = true -> mgr_socket w <> None)
  /\ (forall socket_fd, mgr_socket w = Some socket_fd -> 0 <= socket_fd).

(** The same, with a socket held for sure. *)
Definition holds_socket (w : world) : Prop :=
  consistent w /\ mgr_socket w <> None.

(** A script in which the socket is readable and delivers the given chunks
    one after the other, and what they amount to. *)
Definition ready_reads (chunks : list string) : list answer :=
  List.flat_map (fun c => [Success 1; Delivered c]) chunks.

Definition concat_chunks (chunks : list string) : string :=
  List.fold_right String.append "" chunks.

(** The bytes the reads of [receive] get from a run of answers: of every
    answer that delivers data, what fits the buffer. *)
Fixpoint delivered (answers : list answer) : string :=
  match answers with
  | [] => ""
  | Delivered data :: rest =>
      take (N.to_nat BUFFER_SIZE) data +:+ delivered rest
  | _ :: rest => delivered rest
  end.

(** A chunk a read can deliver as it is: not empty, no longer than the
    buffer. *)
Definition deliverable (c : string) : Prop :=
  c <> "" /\ (size c <= N.to_nat BUFFER_SIZE)%nat.

(** A manager that holds a socket, in a world that has just started. *)
Definition holding_world (socket_fd : Z) (answers : list answer) : world :=
  set_socket (Some socket_fd) (Socket.fresh_world answers).

(** A response that announces ten body bytes and brings two. *)
Definition short_response : string :=
  "HTTP/1.1 200 OK" +:+ CRLF +:+ "content-length: 10" +:+ CRLFCRLF +:+ "hi".

(** The calls that release the socket held, if any. *)
Definition teardown (w : world) : list call :=
  match mgr_socket w with
  | Some socket_fd => [SysClose socket_fd]
  | None => []
  end.

End ConnectionManager.

(** ** [http::status] and [http::method] *)

Module http_status.

Import StdConv.

(** [enum class Code], by its integer values. *)
Definition Code : Type := Z.
Definition OK : Code := 200%Z.
Definition INVALID : Code := 0%Z.

Definition REASON_MAP : list (Code * string) :=
  [ (100, "Continue");
    (101, "Switching Protocols");
    (102, "Processing");
    (103, "Early Hints");
    (200, "OK");
    (201, "Created");
    (202, "Accepted");
    (203, "Non-Authoritative Information");
    (204, "No Content");
    (205, "Reset Content");
    (206, "Partial Content");
    (207, "Multi-Status");
    (208, "Already Reported");
    (226, "IM Used");
    (300, "Multiple Choices");
    (301, "Moved Permanently");
    (302, "Found");
    (303, "See Other");
    (304, "Not Modified");
    (305, "Use Proxy");
    (306, "Switch Proxy");
    (307, "Temporary Redirect");
    (308, "Permanent Redirect");
    (400, "Bad Request");
    (401, "Unauthorized");
    (402, "Payment Required");
    (403, "Forbidden");
    (404, "Not Found");
    (405, "Method Not Allowed");
    (406, "Not Acceptable");
    (407, "Proxy Authentication Required");
    (408, "Request Timeout");
    (409, "Conflict");
    (410, "Gone");
    (411, "Length Required");
    (412, "Precondition Failed");
    (413, "Payload Too Large");
    (414, "URI Too Long");
    (415, "Unsupported Media Type");
    (416, "Range Not Satisfiable");
    (417, "Expectation Failed");
    (418, "I'm a teapot");
    (421, "Misdirected Request");
    (422, "Unprocessable Entity");
    (423, "Locked");
    (424, "Failed Dependency");
    (425, "Too Early");
    (426, "Upgrade Required");
    (428, "Precondition Required");
    (429, "Too Many Requests");
    (431, "Request Header Fields Too Large");
    (451, "Unavailable For Legal Reasons");
    (500, "Internal Server Error");
    (501, "Not Implemented");
    (502, "Bad Gateway");
    (503, "Service Unavailable");
    (504, "Gateway Timeout");
    (505, "HTTP Version Not Supported");
    (0, "Invalid") ]%Z.

(** [toString]: the reason phrase. *)
Definition toString (code : Code) : string :=
  match List.find (fun p => Z.eqb (fst p) code) REASON_MAP with
  | Some p => snd p
  | None => "Invalid"
  end.

(** [fromString]: the code a text denotes, [INVALID] when it denotes none. *)
Definition fromString (str : string) : Code :=
  match stoi str 10 with
  | Parsed codeValue =>
      match List.find (fun p => Z.eqb (fst p) codeValue) REASON_MAP with
      | Some p => fst p
      | None => INVALID
      end
  | InvalidArgument => INVALID
  | OutOfRange => INVALID
  end.

(** [getCode]: the decimal text of a code. *)
Definition getCode (code : Code) : string := to_string code.

(** The codes of the enumeration. *)
Definition codes : list Code := List.map fst REASON_MAP.

End http_status.

Module http_method.

Inductive Method : Type :=
| GET | POST | PUT | DELETE | HEAD | OPTIONS | TRACE | CONNECT | INVALID.

Definition toString (method : Method) : string :=
  match method with
  | GET => "GET"
  | POST => "POST"
  | PUT => "PUT"
  | DELETE => "DELETE"
  | HEAD => "HEAD"
  | OPTIONS => "OPTIONS"
  | TRACE => "TRACE"
  | CONNECT => "CONNECT"
  | INVALID => "INVALID"
  end.

Definition METHOD_MAP : list (Method * string) :=
  [ (GET, "GET"); (POST, "POST"); (PUT, "PUT"); (DELETE, "DELETE");
    (HEAD, "HEAD"); (OPTIONS, "OPTIONS"); (TRACE, "TRACE");
    (CONNECT, "CONNECT") ].

Definition Method_eqb (a b : Method) : bool :=
  match a, b with
  | GET, GET | POST, POST | PUT, PUT | DELETE, DELETE | HEAD, HEAD
  | OPTIONS, OPTIONS | TRACE, TRACE | CONNECT, CONNECT
  | INVALID, INVALID => true
  | _, _ => false
  end.

(** [fromString]: the method whose name is [str]. The names of the table
    are distinct, so the order in which it is traversed does not matter. *)
Definition fromString (str : string) : Method :=
  match List.find (fun p => String.eqb (snd p) str) METHOD_MAP with
  | Some p => fst p
  | None => INVALID
  end.

(** [isValid]: the method is in the table. *)
Definition isValid (method : Method) : bool :=
  match List.find (fun p => Method_eqb (fst p) method) METHOD_MAP with
  | Some _ => true
  | None => false
  end.

End http_method.

Module http_mime.

Inductive Media : Type :=
| APP_FORM | APP_JSON | APP_JAVASCRIPT | APP_OCTET_STREAM | APP_XML | APP_ZIP
| AUDIO_MPEG | AUDIO_OGG | AUDIO_WAV
| FONT_OTF | FONT_TTF | FONT_WOFF | FONT_WOFF2
| IMAGE_GIF | IMAGE_JPEG | IMAGE_PNG | IMAGE_SVG_XML | IMAGE_WEBP
| TEXT_CSS | TEXT_CSV | TEXT_HTML | TEXT_PLAIN | TEXT_XML
| VIDEO_MP4 | VIDEO_MPEG | VIDEO_OGG | VIDEO_WEBM
| INVALID.

(** [toString]: the entry of [MIME_MAP]. *)
Definition toString (mime : Media) : string :=
  match mime with
  | APP_FORM => "application/x-www-form-urlencoded"
  | APP_JAVASCRIPT => "application/javascript"
  | APP_JSON => "application/json"
  | APP_OCTET_STREAM => "application/octet-stream"
  | APP_XML => "application/xml"
  | APP_ZIP => "application/zip"
  | AUDIO_MPEG => "audio/mpeg"
  | AUDIO_OGG => "audio/ogg"
  | AUDIO_WAV => "audio/wav"
  | FONT_OTF => "font/otf"
  | FONT_TTF => "font/ttf"
  | FONT_WOFF => "font/woff"
  | FONT_WOFF2 => "font/woff2"
  | IMAGE_GIF => "image/gif"
  | IMAGE_JPEG => "image/jpeg"
  | IMAGE_PNG => "image/png"
  | IMAGE_SVG_XML => "image/svg+xml"
  | IMAGE_WEBP => "image/webp"
  | TEXT_CSS => "text/css"
  | TEXT_CSV => "text/csv"
  | TEXT_HTML => "text/html"
  | TEXT_PLAIN => "text/plain"
  | TEXT_XML => "text/xml"
  | VIDEO_MP4 => "video/mp4"
  | VIDEO_MPEG => "video/mpeg"
  | VIDEO_OGG => "video/ogg"
  | VIDEO_WEBM => "video/webm"
  | INVALID => "Invalid"
  end.

End http_mime.

(** ** [HttpRequest] and [HttpResponse] *)

Module HttpRequest.

Record t : Type := mk {
  msg : HttpMessage.t;
  method : string;
  uri : string
}.

Definition new : t := mk HttpMessage.new "" "".

Definition getMethod (r : t) : string := method r.
Definition getURI (r : t) : string := uri r.

Definition setMethod (r : t) (m : http_method.Method) : t :=
  mk (msg r) (http_method.toString m) (uri r).

Definition setURI (r : t) (u : string) : t := mk (msg r) (method r) u.

Definition setHeader (r : t) (key value : string) : t :=
  mk (HttpMessage.setHeader (msg r) key value) (method r) (uri r).

Definition setBody (r : t) (b : string) : t :=
  mk (HttpMessage.setBody (msg r) b) (method r) (uri r).

(** [HttpRequest::getStatusLine()] *)
Definition getStatusLine (r : t) : string :=
  getMethod r +:+ " " +:+ getURI r +:+ " " +:+ HttpMessage.getVersion (msg r).

(** [HttpRequest::display()]: what is printed, piece by piece; the headers
    come in the order in which the table is traversed. *)
Definition display (r : t) : Sys.M unit :=
  Sys.print
    (Sys.Str "HTTP REQUEST" :: Sys.Str (getStatusLine r) ::
     List.map (fun kv => Sys.Str (fst kv +:+ ": " +:+ snd kv))
       (map_to_list (HttpMessage.headers (msg r)))
     ++ [Sys.Str (HttpMessage.getBody (msg r))]).

End HttpRequest.

Module HttpResponse.

Import StdString StdConv Sys.
Local Open Scope prog_scope.

Record t : Type := mk {
  msg : HttpMessage.t;
  status : http_status.Code;
  keepAlive : bool
}.

(** [HttpResponse::HttpResponse()] *)
Definition new : t := mk HttpMessage.new http_status.OK true.

Definition getStatus (r : t) : http_status.Code := status r.
Definition isKeepAlive (r : t) : bool := keepAlive r.
Definition getHeader (r : t) (key : string) : option string :=
  HttpMessage.getHeader (msg r) key.
Definition getBody (r : t) : string := HttpMessage.getBody (msg r).

Definition setStatus (r : t) (c : http_status.Code) : t :=
  mk (msg r) c (keepAlive r).
Definition setVersion (r : t) (v : string) : t :=
  mk (HttpMessage.setVersion (msg r) v) (status r) (keepAlive r).
Definition setHeader (r : t) (key value : string) : t :=
  mk (HttpMessage.setHeader (msg r) key value) (status r) (keepAlive r).
Definition setBody (r : t) (b : string) : t :=
  mk (HttpMessage.setBody (msg r) b) (status r) (keepAlive r).
Definition setKeepAlive (r : t) (k : bool) : t := mk (msg r) (status r) k.

(** [HttpResponse::getStatusLine()] *)
Definition getStatusLine (r : t) : list frag :=
  [Str (HttpMessage.getVersion (msg r)); Str " "; Int (status r); Str " ";
   Str (http_status.toString (status r))].

(** [HttpResponse::display()] *)
Definition display (r : t) : M unit :=
  print
    (Str "HTTP RESPONSE" :: getStatusLine r ++
     List.map (fun kv => Str (fst kv +:+ ": " +:+ snd kv))
       (map_to_list (HttpMessage.headers (msg r)))
     ++ [Str (getBody r)]).

(** [HttpResponse::determineKeepAlive()] *)
Definition determineKeepAlive (r : t) : t :=
  match getHeader r "Connection" with
  | Some connectionHeader =>
      let connection := n_utils.trim connectionHeader in
      let lowerValue := n_utils.toLower connection in
      setKeepAlive r (String.eqb lowerValue "keep-alive")
  | None => r
  end.

(** [HttpResponse::parseStartLine(line)] *)
Definition parseStartLine (r : t) (line : string) : M (bool * t) :=
  match find line " " 0 with
  | None =>
      log [Str "Malformed start line: Missing space after version."] ERROR ;;;
      ret (false, r)
  | Some versionEnd =>
      match find line " " (versionEnd + 1) with
      | None =>
          log [Str "Malformed start line: Missing space after URI."] ERROR ;;;
          ret (false, r)
      | Some statusCodeEnd =>
          let versionStr := substr line 0 versionEnd in
          let statusCodeStr :=
            substr line (versionEnd + 1) (statusCodeEnd - versionEnd - 1) in
          let code := http_status.fromString statusCodeStr in
          if Z.eqb code http_status.INVALID then
            log [Str "Invalid status code."] ERROR ;;;
            ret (false, r)
          else ret (true, setStatus (setVersion r versionStr) code)
      end
  end.

(** One header line of [parseHeaders]. *)
Definition parseHeader (r : t) (header : string) : t :=
  if empty header then r
  else
    match find header ":" 0 with
    | Some separator =>
        let value :=
          match find_first_not_of header " " (separator + 1) with
          | Some valueStart => substr_from header valueStart
          | None => ""
          end in
        setHeader r (substr header 0 separator) value
    | None => r
    end.

(** The loop of [parseHeaders]: [pos] moves forward at every turn. *)
Fixpoint parseHeaders_loop (fuel : nat) (r : t) (headersBlock : string)
    (pos : nat) : t :=
  if Nat.ltb pos (size headersBlock) then
    match fuel with
    | O => r
    | S fuel' =>
        let end_ :=
          match find headersBlock CRLF pos with
          | Some e => e
          | None => size headersBlock
          end in
        let header := substr headersBlock pos (end_ - pos) in
        let pos' :=
          if Nat.eqb end_ (size headersBlock) then end_ else end_ + 2 in
        parseHeaders_loop fuel' (parseHeader r header) headersBlock pos'
    end
  else r.

(** [HttpResponse::parseHeaders(headersBlock)] *)
Definition parseHeaders (r : t) (headersBlock : string) : t :=
  parseHeaders_loop (S (size headersBlock)) r headersBlock 0.

(** [HttpResponse::parseBody(rawData, bodyStart)] *)
Definition parseBody (r : t) (rawData : string) (bodyStart : nat)
    : M (bool * t) :=
  if Nat.ltb bodyStart (size rawData) then
    match getHeader r "Content-Length" with
    | Some contentLengthHeader =>
        match stoul contentLengthHeader with
        | Parsed contentLength =>
            if (contentLength <=? Z.of_nat (size rawData - bodyStart))%Z then
              ret (true,
                   setBody r (substr rawData bodyStart (Z.to_nat contentLength)))
            else
              log [Str "Incomplete response body received."] ERROR ;;;
              ret (false, r)
        | InvalidArgument =>
            log [Str "Invalid Content-Length header."] ERROR ;;;
            ret (false, r)
        | OutOfRange =>
            log [Str "Content-Length value out of range."] ERROR ;;;
            ret (false, r)
        end
    | None => ret (true, r)
    end
  else ret (true, setBody r "").

(** [HttpResponse::parse(rawData)]: whether the data were well formed, and
    the object as the call leaves it. *)
Definition parse (r : t) (rawData : string) : M (bool * t) :=
  match find rawData CRLF 0 with
  | None =>
      log [Str "Malformed response: Missing start line end."] ERROR ;;;
      ret (false, r)
  | Some startLineEnd =>
      let startLine := substr rawData 0 startLineEnd in
      started <- parseStartLine r startLine ;;
      let '(ok, r1) := started in
      if negb ok then
        log [Str "Malformed response: Invalid start line."] ERROR ;;;
        ret (false, r1)
      else
        let headersStart := startLineEnd + 2 in
        match find rawData CRLFCRLF headersStart with
        | None =>
            log [Str "Malformed response: Missing headers end."] ERROR ;;;
            ret (false, r1)
        | Some headersEnd =>
            let headersBlock :=
              substr rawData headersStart (headersEnd - headersStart) in
            let r2 := parseHeaders r1 headersBlock in
            let r3 := determineKeepAlive r2 in
            let bodyStart := headersEnd + 4 in
            parsed <- parseBody r3 rawData bodyStart ;;
            let '(ok', r4) := parsed in
            if negb ok' then
              log [Str "Malformed request: Invalid body."] ERROR ;;;
              ret (false, r4)
            else ret (true, r4)
        end
  end.

(** What stays as it is: the header table and the keep-alive flag. *)
Definition same_headers_and_flag (r r' : t) : Prop :=
  HttpMessage.headers (msg r') = HttpMessage.headers (msg r)
  /\ keepAlive r' = keepAlive r.

(** The response a call leaves behind, for the examples. *)
Definition parsed (raw : string) : t :=
  match fst (parse new raw (Socket.fresh_world [])) with
  | Returned (_, r) => r
  | _ => new
  end.

(** Sample responses: without a [Connection] header, with
    [Connection: close], with [Connection: Keep-Alive]. *)
Definition plain_response : string :=
  "HTTP/1.1 200 OK" +:+ CRLF +:+ "Content-Length: 5" +:+ CRLFCRLF +:+ "hello".

Definition closing_response : string :=
  "HTTP/1.1 200 OK" +:+ CRLF +:+ "Connection: close" +:+ CRLFCRLF.

Definition lasting_response : string :=
  "HTTP/1.1 200 OK" +:+ CRLF +:+ "Connection: Keep-Alive" +:+ CRLFCRLF.

End HttpResponse.

(** ** [HttpClient]: the orchestrator *)

Module HttpClient.

Import StdString Sys.
Local Open Scope prog_scope.

(** [HttpClient::serializeRequest(request)] *)
Definition serializeRequest (request : HttpRequest.t) : string :=
  let headers :=
    List.fold_left
      (fun acc kv => acc +:+ fst kv +:+ ": " +:+ snd kv +:+ CRLF)
      (map_to_list (HttpMessage.headers (HttpRequest.msg request))) "" in
  let body := HttpMessage.getBody (HttpRequest.msg request) in
  HttpRequest.getStatusLine request +:+ CRLF +:+ headers +:+ CRLF +:+
  (if empty body then "" else body).

(** [HttpClient::parseResponse(responseData)] *)
Definition parseResponse (responseData : string) : M HttpResponse.t :=
  parsed <- HttpResponse.parse HttpResponse.new responseData ;;
  let '(ok, response) := parsed in
  if negb ok then throw (runtime_error (Text "Failed to parse HTTP response."))
  else ret response.

(** The part of the [try] block of [processRequest] that leads to a parsed
    response; [None] stands for an early [return]. *)
Definition exchange (request : HttpRequest.t) (ip port : string)
    : M (option HttpResponse.t) :=
  alive <- ConnectionManager.isConnected ;;
  reached <-
    (if alive then ret true else ConnectionManager.connect ip port) ;;
  if negb reached then
    log [Str "Failed to connect to "; Str ip; Str ":"; Str port] ERROR ;;;
    ret None
  else
    log [Str "Connected to "; Str ip; Str ":"; Str port] INFO ;;;
    let requestData := serializeRequest request in
    log [Str "Serialized request."] DEBUG ;;;
    sent <- ConnectionManager.send requestData ;;
    if negb sent then
      log [Str "Failed to send request to "; Str ip; Str ":"; Str port]
        ERROR ;;;
      ret None
    else
      HttpRequest.display request ;;;
      responseData <- ConnectionManager.receive ;;
      match responseData with
      | None =>
          log [Str "Failed to receive response from "; Str ip; Str ":";
               Str port] ERROR ;;;
          ret None
      | Some data =>
          log [Str "Raw response received. Parsing...."] DEBUG ;;;
          response <- parseResponse data ;;
          ret (Some response)
      end.

(** The rest of the [try] block, once a response has been parsed. *)
Definition conclude (response : HttpResponse.t) : M unit :=
  HttpResponse.display response ;;;
  if negb (HttpResponse.isKeepAlive response) then
    log [Str "Connection not kept alive. Disconnecting."] INFO ;;;
    ConnectionManager.disconnect
  else ret tt.

(** The [try] block of [processRequest]. *)
Definition process (request : HttpRequest.t) (ip port : string) : M unit :=
  got <- exchange request ip port ;;
  match got with
  | Some response => conclude response
  | None => ret tt
  end.

(** [HttpClient::processRequest(request, ip, port)] *)
Definition processRequest (request : HttpRequest.t) (ip port : string)
    : M unit :=
  try_catch (process request ip port) is_std_exception
    (fun e => log [Str "Failed to process request: "; What e] ERROR).

(** The line the [catch] clause of [processRequest] writes. *)
Definition failure_line (e : exn) : line :=
  Logged ERROR [Str "Failed to process request: "; What e].

(** A request for the examples. *)
Definition sample_request : HttpRequest.t :=
  HttpRequest.setHeader
    (HttpRequest.setURI
       (HttpRequest.setMethod HttpRequest.new http_method.GET) "/index.html")
    "Host" "localhost".

(** A whole exchange: connect, send, receive a response that asks to
    close; and one in which the peer resets the connection while the
    response is read. *)
Definition closing_exchange : world :=
  Socket.fresh_world
    [Success 3; Success 0; Success 0; Success 0; Success 0; Success 100;
     Success 1; Delivered HttpResponse.closing_response].

Definition failing_exchange : world :=
  Socket.fresh_world
    [Success 3; Success 0; Success 0; Success 0; Success 0; Success 100;
     Success 1; Failure 104].

End HttpClient.

(** ** [InputHandler]: validation of what the user types, and the requests
    built from it *)

Module InputHandler.

Import StdString StdConv Sys.

Definition MAX_PORT : Z := 65535.
Definition MIN_PORT : Z := 1.

(** [InputHandler::checkValidIP(ip)] *)
Definition checkValidIP (ip : string) : M bool :=
  fun w => (Returned (inet_pton w ip =? 1)%Z, w).

(** [InputHandler::checkValidPort(port)] *)
Definition checkValidPort (port : string) : bool :=
  match port with
  | EmptyString => false
  | String c _ =>
      if negb (isdigit c) then false
      else
        match stoi port 10 with
        | Parsed portNum => (MIN_PORT <=? portNum)%Z && (portNum <=? MAX_PORT)%Z
        | InvalidArgument => false
        | OutOfRange => false
        end
  end.

(** [InputHandler::checkValidURI(uri)] *)
Definition checkValidURI (uri : string) : bool :=
  match uri with
  | EmptyString => false
  | String c _ => Ascii.eqb c "/"
  end.

(** [InputHandler::buildRequest(method, uri, body)], with the members [ip]
    and [port] of the handler. *)
Definition buildRequest (ip port : string) (method : http_method.Method)
    (uri body : string) : HttpRequest.t :=
  let request :=
    HttpRequest.setHeader
      (HttpRequest.setHeader
         (HttpRequest.setHeader
            (HttpRequest.setURI
               (HttpRequest.setMethod HttpRequest.new method) uri)
            "Host" (ip +:+ ":" +:+ port))
         "User-Agent" "HTTP Client/1.1")
      "Accept" "*/*" in
  match method with
  | http_method.GET => HttpRequest.setHeader request "Connection" "keep-alive"
  | http_method.POST =>
      HttpRequest.setHeader
        (HttpRequest.setHeader
           (HttpRequest.setHeader
              (HttpRequest.setBody request body)
              "Content-Type" (http_mime.toString http_mime.APP_FORM))
           "Content-Length" (to_string (Z.of_nat (size body))))
        "Connection" "close"
  | _ => request
  end.

(** The body [readPostBody] hands to [sendAndValidate] for what the user
    typed: the text is encoded and put under the key of the form. *)
Definition form_body (postData : string) : string :=
  "comment=" +:+ http_encoding.encode postData.

End InputHandler.

(* ===================================================================== *)
(** * Part II: properties                                                 *)
(* ===================================================================== *)

Section StringFacts.
Import StdString.

Lemma tolower_idem c : tolower (tolower c) = tolower c.
Proof. destruct c as [[] [] [] [] [] [] [] []]; reflexivity. Qed.

Lemma tolower_toupper c : is_lower c = true -> tolower (toupper c) = c.
Proof. destruct c as [[] [] [] [] [] [] [] []]; (reflexivity || discriminate). Qed.

Lemma tolower_of_lower c : is_lower c = true -> tolower c = c.
Proof. destruct c as [[] [] [] [] [] [] [] []]; (reflexivity || discriminate). Qed.

Lemma toLower_idem s : n_utils.toLower (n_utils.toLower s) = n_utils.toLower s.
Proof.
  induction s as [|c s IH]; [reflexivity|].
  cbn. rewrite tolower_idem. f_equal. exact IH.
Qed.

Lemma same_char_tolower a b :
  HttpMessage.same_char_up_to_case a b -> tolower a = tolower b.
Proof.
  intros [-> | [[_ ->] | [Hl ->]]].
  - reflexivity.
  - symmetry. apply tolower_idem.
  - rewrite (tolower_toupper _ Hl). apply tolower_of_lower, Hl.
Qed.

Lemma differ_only_in_case_toLower k1 k2 :
  HttpMessage.differ_only_in_case k1 k2 ->
  n_utils.toLower k1 = n_utils.toLower k2.
Proof.
  induction 1 as [|a b s1 s2 Hab _ IH]; [reflexivity|].
  cbn. rewrite (same_char_tolower _ _ Hab). f_equal. exact IH.
Qed.
End StringFacts.


(** ** Header access ([HttpMessage]) *)

Section HeaderAccess.
Import HttpMessage.

Lemma getHeader_setHeader_same_lower m k1 k2 v :
  n_utils.toLower k1 = n_utils.toLower k2 ->
  getHeader (setHeader m k1 v) k2 = Some v.
Proof.
  intros Hk. unfold getHeader, setHeader. cbn. rewrite Hk.
  apply lookup_insert_eq.
Qed.

Lemma getHeader_setHeader_other m k1 k2 v :
  n_utils.toLower k1 <> n_utils.toLower k2 ->
  getHeader (setHeader m k1 v) k2 = getHeader m k2.
Proof.
  intros Hk. unfold getHeader, setHeader. cbn.
  apply lookup_insert_ne. exact Hk.
Qed.

Lemma setHeader_keys_lowercase m k v :
  keys_lowercase m -> keys_lowercase (setHeader m k v).
Proof.
  intros Hm k' v'. unfold setHeader. cbn.
  rewrite lookup_insert. case_decide as Hd.
  - intros _. subst k'. apply toLower_idem.
  - apply Hm.
Qed.

Lemma new_keys_lowercase : keys_lowercase new.
Proof. intros k v. cbn. rewrite lookup_empty. discriminate. Qed.

(** C5. Header access is case-insensitive and the last write wins: after
    [setHeader k1 v1], reading under any key [k2] that differs from [k1] only
    in letter case returns [v1]; after a second write under [k2] both
    spellings read [v2], the header table is the one a single write of [v2]
    would have produced (nothing of [v1] is retained), there is exactly one
    entry for the key, namely under its lowercase form, and all stored keys
    stay in lowercase. *)
Theorem header_access_case_insensitive_last_write_wins :
  forall (m : HttpMessage.t) (k1 k2 v1 v2 : string),
    differ_only_in_case k1 k2 ->
    getHeader (setHeader m k1 v1) k2 = Some v1
    /\ getHeader (setHeader (setHeader m k1 v1) k2 v2) k1 = Some v2
    /\ getHeader (setHeader (setHeader m k1 v1) k2 v2) k2 = Some v2
    /\ headers (setHeader (setHeader m k1 v1) k2 v2) = headers (setHeader m k2 v2)
    /\ dom (headers (setHeader (setHeader m k1 v1) k2 v2))
       = {[ n_utils.toLower k1 ]} ∪ dom (headers m)
    /\ (keys_lowercase m ->
        keys_lowercase (setHeader (setHeader m k1 v1) k2 v2)).
Proof.
  intros m k1 k2 v1 v2 Hk.
  pose proof (differ_only_in_case_toLower _ _ Hk) as Hl.
  repeat split.
  - apply getHeader_setHeader_same_lower, Hl.
  - apply getHeader_setHeader_same_lower. symmetry. exact Hl.
  - apply getHeader_setHeader_same_lower. reflexivity.
  - unfold setHeader. cbn. rewrite Hl. apply insert_insert_eq.
  - unfold setHeader. cbn. rewrite Hl, insert_insert_eq.
    apply dom_insert_L.
  - intros Hm. do 2 apply setHeader_keys_lowercase. exact Hm.
Qed.

Lemma header_access_witness :
  differ_only_in_case "Content-Type" "content-type"
  /\ getHeader (setHeader new "Content-Type" "text/html") "content-type"
     = Some "text/html".
Proof.
  assert (H : differ_only_in_case "Content-Type" "content-type").
  { repeat (apply doic_cons;
            [first [ left; reflexivity
                   | right; left; split; reflexivity
                   | right; right; split; reflexivity ] | ]).
    apply doic_nil. }
  split; [exact H|].
  exact (proj1 (header_access_case_insensitive_last_write_wins
                  new "Content-Type" "content-type" "text/html" "x" H)).
Defined.

End HeaderAccess.

(** ** Percent-encoding ([http::encoding]) *)

Section StringAppend.

Lemma str_app_cons a (s1 s2 : string) : String a s1 +:+ s2 = String a (s1 +:+ s2).
Proof. reflexivity. Qed.

Lemma str_app_nil_l (s : string) : "" +:+ s = s.
Proof. reflexivity. Qed.

Lemma str_app_nil_r (s : string) : s +:+ "" = s.
Proof. induction s as [|a s IH]; [reflexivity|]. rewrite str_app_cons, IH. reflexivity. Qed.

Lemma str_app_assoc (s1 s2 s3 : string) : (s1 +:+ s2) +:+ s3 = s1 +:+ (s2 +:+ s3).
Proof.
  induction s1 as [|a s1 IH]; [reflexivity|].
  rewrite !str_app_cons, IH. reflexivity.
Qed.

Lemma str_length_app (s1 s2 : string) :
  String.length (s1 +:+ s2) = String.length s1 + String.length s2.
Proof.
  induction s1 as [|a s1 IH]; [reflexivity|].
  rewrite str_app_cons. cbn. rewrite IH. reflexivity.
Qed.

End StringAppend.

Section PercentEncoding.
Import StdString StdConv http_encoding.

Lemma encode_step_acc acc c : encode_step acc c = acc +:+ encoded_char c.
Proof.
  unfold encoded_char, encode_step. destruct (lookup c); reflexivity.
Qed.

Lemma encode_loop_acc s : forall acc, encode_loop acc s = acc +:+ encode s.
Proof.
  unfold encode. induction s as [|c s IH]; intros acc.
  - cbn. symmetry. apply str_app_nil_r.
  - cbn [encode_loop]. rewrite IH, (IH (encode_step "" c)).
    rewrite encode_step_acc, str_app_assoc. reflexivity.
Qed.

Lemma encode_cons c s : encode (String c s) = encoded_char c +:+ encode s.
Proof. unfold encode at 1. cbn [encode_loop]. apply encode_loop_acc. Qed.

Lemma decode_loop_plain acc c rest :
  Ascii.eqb c "%" = false ->
  decode_loop acc (String c rest) = decode_loop (acc +:+ String c "") rest.
Proof. intros H. cbn [decode_loop]. rewrite H. reflexivity. Qed.

Lemma decode_loop_triple acc h1 h2 rest v :
  stoi (String h1 (String h2 "")) 16 = Parsed v ->
  decode_loop acc (String "%" (String h1 (String h2 rest)))
  = decode_loop (acc +:+ String (char_of_int v) "") rest.
Proof.
  intros H. cbn [decode_loop].
  change (Ascii.eqb "%" "%") with true. cbv iota. rewrite H. reflexivity.
Qed.

Lemma decode_loop_acc_bounded n :
  forall s acc, String.length s <= n ->
    decode_loop acc s = acc +:+ decode s.
Proof.
  unfold decode.
  induction n as [|n IH]; intros s acc Hn.
  - destruct s; [|cbn in Hn; lia]. cbn. symmetry. apply str_app_nil_r.
  - destruct s as [|c rest]; [cbn; symmetry; apply str_app_nil_r|].
    cbn in Hn.
    assert (Hrest : forall a, decode_loop a rest = a +:+ decode_loop "" rest)
      by (intros a; apply IH; lia).
    cbn [decode_loop].
    destruct (Ascii.eqb c "%").
    + destruct rest as [|h1 [|h2 rest']].
      * rewrite Hrest, (Hrest ("" +:+ _)), str_app_assoc. reflexivity.
      * rewrite Hrest, (Hrest ("" +:+ _)), str_app_assoc. reflexivity.
      * destruct (stoi (String h1 (String h2 "")) 16).
        -- rewrite (IH rest' (acc +:+ _)), (IH rest' ("" +:+ _)), str_app_assoc;
             [reflexivity | cbn in Hn; lia | cbn in Hn; lia].
        -- rewrite Hrest, (Hrest ("" +:+ _)), str_app_assoc. reflexivity.
        -- rewrite Hrest, (Hrest ("" +:+ _)), str_app_assoc. reflexivity.
    + rewrite Hrest, (Hrest ("" +:+ _)), str_app_assoc. reflexivity.
Qed.

Lemma decode_loop_acc acc s : decode_loop acc s = acc +:+ decode s.
Proof. apply (decode_loop_acc_bounded (String.length s)). lia. Qed.

Lemma char_round_trips_all c : char_round_trips c = true.
Proof. destruct c as [[] [] [] [] [] [] [] []]; vm_compute; reflexivity. Qed.

Lemma decode_encoded_char c rest :
  decode (encoded_char c +:+ rest) = String c (decode rest).
Proof.
  pose proof (char_round_trips_all c) as H.
  unfold char_round_trips in H. unfold encoded_char, encode_step.
  destruct (lookup c) as [e|].
  - destruct e as [|p [|h1 [|h2 [|? ?]]]]; try discriminate.
    apply andb_true_iff in H as [Hp Hv].
    apply Ascii.eqb_eq in Hp. subst p.
    destruct (stoi (String h1 (String h2 "")) 16) as [v| |] eqn:Hs;
      try discriminate.
    apply Ascii.eqb_eq in Hv.
    rewrite str_app_nil_l. unfold decode at 1.
    rewrite !str_app_cons, str_app_nil_l.
    rewrite (decode_loop_triple _ _ _ _ _ Hs), Hv, decode_loop_acc.
    reflexivity.
  - apply negb_true_iff in H.
    rewrite str_app_nil_l. unfold decode at 1. rewrite str_app_cons, str_app_nil_l.
    rewrite (decode_loop_plain _ _ _ H), decode_loop_acc. reflexivity.
Qed.

(** C10. Percent-encoding followed by decoding is the identity on every
    string. *)
Theorem decode_encode_identity :
  forall s : string, decode (encode s) = s.
Proof.
  induction s as [|c s IH]; [reflexivity|].
  rewrite encode_cons, decode_encoded_char, IH. reflexivity.
Qed.

End PercentEncoding.

(** ** The transport socket ([Socket]) *)

Section SocketFacts.
Import StdString Sys Socket.

Lemma size_substr_from s k : size (substr_from s k) = size s - k.
Proof.
  revert s; induction k as [|k IH]; intros s; destruct s; cbn; try lia.
  apply IH.
Qed.

Lemma substr_from_0 s : substr_from s 0 = s.
Proof. destruct s; reflexivity. Qed.

Lemma size_take n s : size (take n s) = Nat.min n (size s).
Proof.
  revert s; induction n as [|n IH]; intros s; destruct s; cbn; try lia.
  rewrite IH. reflexivity.
Qed.

Lemma substr_from_size s : substr_from s (size s) = "".
Proof. induction s as [|c s IH]; [reflexivity | exact IH]. Qed.

Lemma take_min n : forall s, take (Nat.min n (size s)) s = take n s.
Proof.
  induction n as [|n IH]; intros [|c s]; try reflexivity.
  cbn [size String.length Nat.min take]. f_equal. apply IH.
Qed.

Lemma take_substr_from n : forall s, take n s +:+ substr_from s n = s.
Proof.
  induction n as [|n IH]; intros s.
  - destruct s; cbn [take]; rewrite str_app_nil_l; apply substr_from_0.
  - destruct s as [|c s]; [reflexivity|].
    cbn [take substr_from]. rewrite str_app_cons, IH. reflexivity.
Qed.

Lemma substr_from_add n m : forall s,
  substr_from (substr_from s n) m = substr_from s (n + m).
Proof.
  induction n as [|n IH]; intros s.
  - rewrite substr_from_0. reflexivity.
  - destruct s as [|c s].
    + cbn [substr_from Nat.add]. destruct m; reflexivity.
    + cbn [substr_from Nat.add]. apply IH.
Qed.

Lemma would_block_errno e :
  (e =? EAGAIN)%Z || (e =? EWOULDBLOCK)%Z = true <-> e = EAGAIN \/ e = EWOULDBLOCK.
Proof. rewrite orb_true_iff, !Z.eqb_eq. reflexivity. Qed.

Lemma not_would_block_errno e :
  e <> EAGAIN -> e <> EWOULDBLOCK ->
  (e =? EAGAIN)%Z = false /\ (e =? EWOULDBLOCK)%Z = false.
Proof. intros H1 H2. split; apply Z.eqb_neq; assumption. Qed.

(** *** [Socket::recv] *)

Lemma recv_failure fd len flags w e rest :
  script w = Failure e :: rest ->
  fst (recv fd len flags w)
  = if negb (e =? EAGAIN)%Z && negb (e =? EWOULDBLOCK)%Z
    then Thrown (RecvError e) else Returned ((-1)%Z, "").
Proof.
  intros Hs. unfold recv, bind, sys_recv. rewrite Hs. cbn.
  destruct (negb (e =? EAGAIN)%Z && negb (e =? EWOULDBLOCK)%Z); reflexivity.
Qed.

Lemma recv_delivered fd len flags w data rest :
  script w = Delivered data :: rest ->
  fst (recv fd len flags w)
  = Returned (Z.of_nat (size (take (N.to_nat len) data)), take (N.to_nat len) data).
Proof.
  intros Hs. unfold recv, bind, sys_recv. rewrite Hs. cbn.
  destruct (Z.of_nat (size (take (N.to_nat len) data)) <? 0)%Z eqn:Hneg; [|reflexivity].
  apply Z.ltb_lt in Hneg. lia.
Qed.

(** C2 (as the code has it). One read is issued. When it reports a
    would-block condition [Socket::recv] raises nothing and returns the
    result of the read unchanged, which is -1; any other failure raises
    [RecvError] with the error number; otherwise the bytes read and their
    number are returned, and the value 0 is returned exactly when the read
    delivered no byte, which is how a closed peer shows. *)
Theorem recv_would_block_returns_minus_one :
  forall (w : world) (fd : Z) (len : N) (flags : Z),
    (forall e rest,
        script w = Failure e :: rest -> e = EAGAIN \/ e = EWOULDBLOCK ->
        fst (recv fd len flags w) = Returned ((-1)%Z, ""))
    /\ (forall e rest,
        script w = Failure e :: rest -> e <> EAGAIN -> e <> EWOULDBLOCK ->
        fst (recv fd len flags w) = Thrown (RecvError e))
    /\ (forall data rest,
        script w = Delivered data :: rest ->
        fst (recv fd len flags w)
        = Returned (Z.of_nat (size (take (N.to_nat len) data)), take (N.to_nat len) data))
    /\ (forall n buf,
        fst (recv fd len flags w) = Returned (n, buf) ->
        (n = 0%Z <->
         exists data rest,
           script w = Delivered data :: rest /\ take (N.to_nat len) data = "")).
Proof.
  intros w fd len flags. repeat split.
  - intros e rest Hs He. rewrite (recv_failure _ _ _ _ _ _ Hs).
    apply would_block_errno in He.
    destruct (e =? EAGAIN)%Z, (e =? EWOULDBLOCK)%Z; cbn in *;
      try reflexivity; discriminate.
  - intros e rest Hs H1 H2. rewrite (recv_failure _ _ _ _ _ _ Hs).
    destruct (not_would_block_errno e H1 H2) as [-> ->]. reflexivity.
  - intros data rest Hs. apply (recv_delivered _ _ _ _ _ _ Hs).
  - intros Hn. subst n.
    destruct (script w) as [|[v|e|data] rest] eqn:Hs.
    + unfold recv, bind, sys_recv in H. rewrite Hs in H. discriminate.
    + unfold recv, bind, sys_recv in H. rewrite Hs in H. discriminate.
    + rewrite (recv_failure _ _ _ _ _ _ Hs) in H.
      destruct (negb (e =? EAGAIN)%Z && negb (e =? EWOULDBLOCK)%Z);
        discriminate.
    + rewrite (recv_delivered _ _ _ _ _ _ Hs) in H.
      exists data, rest. split; [reflexivity|].
      injection H as Hsz _. destruct (take (N.to_nat len) data); [reflexivity|].
      cbn in Hsz. lia.
  - intros (data & rest & Hs & Hnil).
    rewrite (recv_delivered _ _ _ _ _ _ Hs), Hnil in H.
    injection H as Hn _. subst n. reflexivity.
Qed.

Lemma recv_would_block_witness :
  fst (recv 3 16 0 (fresh_world [Failure EAGAIN])) = Returned ((-1)%Z, "").
Proof.
  apply (proj1 (recv_would_block_returns_minus_one
                  (fresh_world [Failure EAGAIN]) 3 16 0) EAGAIN []).
  - reflexivity.
  - left. reflexivity.
Defined.

(** The claim as stated fails: on a would-block read [Socket::recv] does
    not return 0. *)
Lemma recv_would_block_is_not_zero :
  would_block (Failure EAGAIN) = true
  /\ forall buf,
       fst (recv 3 16 0 (fresh_world [Failure EAGAIN])) <> Returned (0%Z, buf).
Proof. split; [reflexivity|]. intros buf. vm_compute. discriminate. Qed.

End SocketFacts.

(** *** [Socket::send] *)

Section SocketSend.
Import StdString Sys Socket.

Variables (fd : Z) (data : string) (flags : Z).

Lemma min_failure n : Z.min (-1) (Z.of_nat n) = (-1)%Z.
Proof. lia. Qed.

(** The loop returns only once everything has been sent. *)
Lemma send_loop_returns_size fuel :
  forall t w n w',
    t <= size data ->
    send_loop fuel fd data flags t w = (Returned n, w') ->
    n = Z.of_nat (size data).
Proof.
  induction fuel as [|fuel IH]; intros t w n w' Ht H; cbn [send_loop] in H;
    destruct (Nat.ltb t (size data)) eqn:Hlt;
    try (apply Nat.ltb_ge in Hlt; inversion H; f_equal; lia);
    try discriminate.
  apply Nat.ltb_lt in Hlt.
  unfold bind at 1 in H. unfold sys_send, bind at 1, syscall in H.
  destruct (script w) as [|[v|e|d] rest] eqn:Hs; try discriminate.
  - cbn in H. rewrite size_substr_from in H.
    destruct (_ <? 0)%Z eqn:Hneg in H; [apply Z.ltb_lt in Hneg; lia|].
    apply IH in H; [exact H | lia].
  - cbn in H. rewrite min_failure in H. cbn in H.
    destruct ((e =? EAGAIN)%Z || (e =? EWOULDBLOCK)%Z); cbn in H.
    + apply IH in H; [exact H | lia].
    + discriminate.
Qed.

(** The result of the loop depends on the world through its script only. *)
Lemma send_loop_script_only fuel :
  forall t w1 w2,
    script w1 = script w2 ->
    fst (send_loop fuel fd data flags t w1)
    = fst (send_loop fuel fd data flags t w2).
Proof.
  induction fuel as [|fuel IH]; intros t w1 w2 Hs; cbn [send_loop];
    destruct (Nat.ltb t (size data)); try reflexivity.
  unfold sys_send, syscall, bind. cbv beta. rewrite <- Hs.
  destruct (script w1) as [|[v|e|d] rest]; try reflexivity.
  - cbn.
    assert (Hpos : (Z.min (Z.of_N v) (Z.of_nat (size (substr_from data t))) <? 0)%Z
                   = false) by (apply Z.ltb_ge; lia).
    rewrite Hpos. apply IH. reflexivity.
  - cbn. rewrite min_failure. cbn.
    destruct ((e =? EAGAIN)%Z || (e =? EWOULDBLOCK)%Z); cbn.
    + apply IH. reflexivity.
    + reflexivity.
Qed.

Lemma send_loop_would_block fuel t w e rest :
  script w = Failure e :: rest ->
  e = EAGAIN \/ e = EWOULDBLOCK ->
  fst (send_loop (S fuel) fd data flags t w)
  = fst (send_loop fuel fd data flags t (set_script rest w)).
Proof.
  intros Hs He. apply would_block_errno in He.
  cbn [send_loop]. destruct (Nat.ltb t (size data)) eqn:Hlt.
  - unfold bind at 1. unfold sys_send, bind at 1, syscall. rewrite Hs.
    cbn. rewrite min_failure. cbn. rewrite He. cbn.
    apply send_loop_script_only. reflexivity.
  - destruct fuel; cbn [send_loop]; rewrite Hlt; reflexivity.
Qed.

Lemma send_loop_fatal fuel t w e rest :
  script w = Failure e :: rest ->
  e <> EAGAIN -> e <> EWOULDBLOCK ->
  t < size data ->
  fst (send_loop (S fuel) fd data flags t w) = Thrown (SendError e).
Proof.
  intros Hs H1 H2 Hlt. destruct (not_would_block_errno e H1 H2) as [E1 E2].
  cbn [send_loop]. apply Nat.ltb_lt in Hlt. rewrite Hlt.
  unfold bind at 1. unfold sys_send, bind at 1, syscall. rewrite Hs.
  cbn. rewrite min_failure. cbn. rewrite E1, E2. reflexivity.
Qed.

(** With a patient script that accepts enough bytes, the loop completes. *)
Lemma send_loop_completes answers :
  forall t w,
    script w = answers ->
    patient_writes answers = true ->
    size data <= t + accepted answers ->
    t <= size data ->
    fst (send_loop (List.length answers) fd data flags t w)
    = Returned (Z.of_nat (size data)).
Proof.
  induction answers as [|a rest IH]; intros t w Hs Hp Hacc Ht.
  - cbn in Hacc. cbn [List.length send_loop].
    destruct (Nat.ltb t (size data)) eqn:Hlt.
    + apply Nat.ltb_lt in Hlt. lia.
    + cbn. f_equal. f_equal. lia.
  - cbn [List.length send_loop].
    destruct (Nat.ltb t (size data)) eqn:Hlt.
    2:{ apply Nat.ltb_ge in Hlt. cbn. f_equal. f_equal. lia. }
    apply Nat.ltb_lt in Hlt.
    unfold bind at 1. unfold sys_send, bind at 1, syscall. rewrite Hs.
    destruct a as [v|e|d]; cbn in Hp, Hacc.
    + cbn. rewrite size_substr_from.
      destruct (_ <? 0)%Z eqn:Hneg; [apply Z.ltb_lt in Hneg; lia|].
      apply IH; [reflexivity | exact Hp | lia | lia].
    + apply andb_true_iff in Hp as [He Hp]. cbn. rewrite min_failure. cbn.
      rewrite He. cbn.
      apply IH; [reflexivity | exact Hp | lia | lia].
    + discriminate.
Qed.

(** The calls already issued stay in the trace. *)
Lemma send_loop_trace_extends fuel :
  forall t w,
    exists l, trace (snd (send_loop fuel fd data flags t w)) = trace w ++ l.
Proof.
  induction fuel as [|fuel IH]; intros t w; cbn [send_loop];
    destruct (Nat.ltb t (size data));
    try (exists []; rewrite app_nil_r; reflexivity).
  unfold sys_send, syscall, bind. cbv beta.
  destruct (script w) as [|[v|e|d] rest];
    try (exists []; rewrite app_nil_r; reflexivity).
  - cbn.
    assert (Hpos : (Z.min (Z.of_N v) (Z.of_nat (size (substr_from data t))) <? 0)%Z
                   = false) by (apply Z.ltb_ge; lia).
    rewrite Hpos.
    match goal with
    | |- context [send_loop fuel fd data flags ?t' ?w'] =>
        destruct (IH t' w') as [l Hl]
    end.
    rewrite Hl. cbn. rewrite <- app_assoc. eexists. reflexivity.
  - cbn. rewrite min_failure. cbn.
    destruct ((e =? EAGAIN)%Z || (e =? EWOULDBLOCK)%Z); cbn.
    + match goal with
      | |- context [send_loop fuel fd data flags ?t' ?w'] =>
          destruct (IH t' w') as [l Hl]
      end.
      rewrite Hl. cbn. rewrite <- !app_assoc. eexists. reflexivity.
    + eexists. reflexivity.
Qed.

(** After a would-block answer the call sleeps, then goes on. *)
Lemma send_pauses w e rest :
  script w = Failure e :: rest ->
  e = EAGAIN \/ e = EWOULDBLOCK ->
  data <> "" ->
  exists l,
    trace (snd (send fd data flags w))
    = trace w ++ SysSend fd data flags :: SysSleep 1 :: l.
Proof.
  intros Hs He Hne. apply would_block_errno in He.
  unfold send, bind. cbn. rewrite Hs. cbn [List.length send_loop].
  assert (Hlt : Nat.ltb 0 (size data) = true).
  { destruct data; [congruence | reflexivity]. }
  rewrite Hlt. unfold sys_send, syscall, bind. cbv beta. rewrite Hs.
  cbn. rewrite min_failure. cbn. rewrite He. cbn.
  match goal with
  | |- context [send_loop ?f fd data flags ?t' ?w'] =>
      destruct (send_loop_trace_extends f t' w') as [l Hl]
  end.
  rewrite Hl. cbn. rewrite <- !app_assoc, substr_from_0. exists l.
  reflexivity.
Qed.

(** What a write takes of the rest of the buffer, and what it leaves. *)
Lemma take_then_rest (v t : nat) :
  take v (substr_from data t)
  +:+ substr_from data (t + Nat.min v (size data - t))
  = substr_from data t.
Proof.
  rewrite <- substr_from_add, <- size_substr_from, <- take_min.
  apply take_substr_from.
Qed.

Lemma accepted_bytes (v : N) (t : nat) :
  Z.to_nat (Z.min (Z.of_N v) (Z.of_nat (size data - t)))
  = Nat.min (N.to_nat v) (size data - t).
Proof. lia. Qed.

(** A run of the loop that returns: the calls it adds are writes of what
    is left of the buffer and pauses, one write for every answer taken and
    one pause for every would-block among them, and what the kernel takes
    of the writes is exactly what was left. *)
Lemma send_loop_returned fuel :
  forall t w n w',
    t <= size data ->
    send_loop fuel fd data flags t w = (Returned n, w') ->
    exists l consumed,
      trace w' = trace w ++ l
      /\ script w = consumed ++ script w'
      /\ taken l (script w) = substr_from data t
      /\ Forall (write_or_pause fd data flags) l
      /\ List.length (List.filter is_write l) = List.length consumed
      /\ List.length (List.filter is_pause l)
         = List.length (List.filter would_block consumed).
Proof.
  induction fuel as [|fuel IH]; intros t w n w' Ht H; cbn [send_loop] in H;
    destruct (Nat.ltb t (size data)) eqn:Hlt;
    try discriminate;
    try (apply Nat.ltb_ge in Hlt; injection H as _ <-; exists [], [];
         rewrite app_nil_r; replace t with (size data) by lia;
         rewrite substr_from_size; repeat split; constructor).
  apply Nat.ltb_lt in Hlt.
  destruct w as [en ff sc ip' tr lg lv so co].
  unfold bind at 1 in H. unfold sys_send, bind at 1, syscall in H.
  cbn [script] in *.
  destruct sc as [|[v|e|d] rest]; try discriminate.
  - cbn in H. rewrite size_substr_from in H.
    destruct (_ <? 0)%Z eqn:Hneg in H; [apply Z.ltb_lt in Hneg; lia|].
    rewrite accepted_bytes in H.
    apply IH in H; [|lia].
    destruct H as (l & consumed & Htr & Hsc & Htk & Hall & Hwrites & Hpauses).
    cbn in Htr, Hsc, Htk. cbn [trace script].
    exists (SysSend fd (substr_from data t) flags :: l), (Success v :: consumed).
    split; [rewrite Htr, <- app_assoc; reflexivity|].
    split; [cbn [app]; f_equal; exact Hsc|].
    split; [cbn [taken]; rewrite Htk; apply take_then_rest|].
    split.
    { constructor; [|exact Hall]. right. exists t.
      split; [exact Hlt | reflexivity]. }
    cbn [List.filter is_write is_pause would_block List.length].
    split; [f_equal; exact Hwrites | exact Hpauses].
  - cbn in H. rewrite min_failure in H. cbn in H.
    destruct ((e =? EAGAIN)%Z || (e =? EWOULDBLOCK)%Z) eqn:Hwb; cbn in H;
      [|discriminate].
    apply IH in H; [|lia].
    destruct H as (l & consumed & Htr & Hsc & Htk & Hall & Hwrites & Hpauses).
    cbn in Htr, Hsc, Htk. cbn [trace script].
    exists (SysSend fd (substr_from data t) flags :: SysSleep 1 :: l),
      (Failure e :: consumed).
    split; [rewrite Htr, <- !app_assoc; reflexivity|].
    split; [cbn [app]; f_equal; exact Hsc|].
    split; [cbn [taken]; exact Htk|].
    split.
    { constructor; [right; exists t; split; [exact Hlt | reflexivity]|].
      constructor; [left; reflexivity | exact Hall]. }
    cbn [List.filter is_write is_pause would_block List.length].
    rewrite Hwb. cbn [List.length].
    split; f_equal; assumption.
Qed.

(** A run of the loop that raises an exception: a write error that is not
    a would-block, met while part of the buffer was still to be sent. *)
Lemma send_loop_thrown fuel :
  forall t w x w',
    t <= size data ->
    send_loop fuel fd data flags t w = (Thrown x, w') ->
    exists e l unsent,
      x = SendError e /\ e <> EAGAIN /\ e <> EWOULDBLOCK
      /\ trace w' = trace w ++ l
      /\ substr_from data t = taken l (script w) +:+ unsent
      /\ unsent <> "".
Proof.
  induction fuel as [|fuel IH]; intros t w x w' Ht H; cbn [send_loop] in H;
    destruct (Nat.ltb t (size data)) eqn:Hlt; try discriminate.
  apply Nat.ltb_lt in Hlt.
  destruct w as [en ff sc ip' tr lg lv so co].
  unfold bind at 1 in H. unfold sys_send, bind at 1, syscall in H.
  cbn [script] in *.
  destruct sc as [|[v|e|d] rest]; try discriminate.
  - cbn in H. rewrite size_substr_from in H.
    destruct (_ <? 0)%Z eqn:Hneg in H; [apply Z.ltb_lt in Hneg; lia|].
    rewrite accepted_bytes in H.
    apply IH in H; [|lia].
    destruct H as (e & l & unsent & Hx & He1 & He2 & Htr & Hsplit & Hne).
    cbn in Htr, Hsplit. cbn [trace script].
    exists e, (SysSend fd (substr_from data t) flags :: l), unsent.
    split; [exact Hx|]. split; [exact He1|]. split; [exact He2|].
    split; [rewrite Htr, <- app_assoc; reflexivity|].
    split; [|exact Hne].
    cbn [taken]. rewrite str_app_assoc, <- Hsplit. symmetry.
    apply take_then_rest.
  - cbn in H. rewrite min_failure in H. cbn in H.
    destruct ((e =? EAGAIN)%Z || (e =? EWOULDBLOCK)%Z) eqn:Hwb; cbn in H.
    + apply IH in H; [|lia].
      destruct H as (e' & l & unsent & Hx & He1 & He2 & Htr & Hsplit & Hne).
      cbn in Htr, Hsplit. cbn [trace script].
      exists e', (SysSend fd (substr_from data t) flags :: SysSleep 1 :: l),
        unsent.
      split; [exact Hx|]. split; [exact He1|]. split; [exact He2|].
      split; [rewrite Htr, <- !app_assoc; reflexivity|].
      split; [exact Hsplit | exact Hne].
    + injection H as <- <-. apply orb_false_iff in Hwb as [H1 H2].
      apply Z.eqb_neq in H1, H2.
      exists e, [SysSend fd (substr_from data t) flags], (substr_from data t).
      split; [reflexivity|]. split; [exact H1|]. split; [exact H2|].
      split; [reflexivity|]. split; [cbn [taken]; rewrite str_app_nil_l; reflexivity|].
      intros Hempty. pose proof (size_substr_from data t) as Hsz.
      rewrite Hempty in Hsz. cbn in Hsz. lia.
Qed.

(** A write error that is not a would-block, met after writes that have
    not taken the whole buffer, ends the loop with [SendError]. *)
Lemma send_loop_fails_midway pre e rest :
  e <> EAGAIN -> e <> EWOULDBLOCK ->
  forall fuel t w,
    script w = pre ++ Failure e :: rest ->
    patient_writes pre = true ->
    t + accepted pre < size data ->
    fst (send_loop (List.length pre + S fuel) fd data flags t w)
    = Thrown (SendError e).
Proof.
  intros He1 He2.
  induction pre as [|a pre IH]; intros fuel t w Hs Hp Hacc.
  - cbn in Hacc. apply (send_loop_fatal fuel t w e rest Hs He1 He2).
    lia.
  - cbn [List.length Nat.add send_loop].
    assert (Hlt : Nat.ltb t (size data) = true).
    { apply Nat.ltb_lt. lia. }
    rewrite Hlt.
    unfold bind at 1. unfold sys_send, bind at 1, syscall. rewrite Hs.
    destruct a as [v|e'|d]; cbn in Hp, Hacc.
    + cbn. rewrite size_substr_from.
      destruct (_ <? 0)%Z eqn:Hneg; [apply Z.ltb_lt in Hneg; lia|].
      apply IH; [reflexivity | exact Hp | lia].
    + apply andb_true_iff in Hp as [He Hp]. cbn. rewrite min_failure. cbn.
      rewrite He. cbn.
      apply IH; [reflexivity | exact Hp | lia].
    + discriminate.
Qed.

(** C3. [Socket::send] on a buffer of N bytes. Whenever it returns, the
    value returned is N. A would-block answer is transient: the call sleeps
    for a millisecond and goes on exactly as if that attempt had not been
    made. Any other write error is raised as [SendError]. When the writes
    only ever accept part of the buffer or would block (for instance at
    most K < N bytes per call), with room for N bytes in all, the call
    returns N. The loop goes on until everything is sent: on return the
    calls added to the trace are writes of what was left of the buffer at
    that point, one for every answer taken, and pauses, one for every
    would-block among these answers, and what the kernel took of the
    writes, put end to end, is the buffer. An exception is always a [SendError] for a
    write error that is not a would-block, raised while part of the buffer
    was still unsent; and such an error raises it also after writes that
    took part of the buffer, and after would-blocks. *)
Theorem send_sends_whole_buffer :
  forall w : world,
    (forall n w',
        send fd data flags w = (Returned n, w') ->
        n = Z.of_nat (size data))
    /\ (forall e rest,
        script w = Failure e :: rest -> e = EAGAIN \/ e = EWOULDBLOCK ->
        fst (send fd data flags w)
        = fst (send fd data flags (set_script rest w))
        /\ (data <> "" ->
            exists l,
              trace (snd (send fd data flags w))
              = trace w ++ SysSend fd data flags :: SysSleep 1 :: l))
    /\ (forall e rest,
        script w = Failure e :: rest -> e <> EAGAIN -> e <> EWOULDBLOCK ->
        data <> "" ->
        fst (send fd data flags w) = Thrown (SendError e))
    /\ (patient_writes (script w) = true ->
        size data <= accepted (script w) ->
        fst (send fd data flags w) = Returned (Z.of_nat (size data)))
    /\ (forall n w',
        send fd data flags w = (Returned n, w') ->
        exists l consumed,
          trace w' = trace w ++ l
          /\ script w = consumed ++ script w'
          /\ taken l (script w) = data
          /\ Forall (write_or_pause fd data flags) l
          /\ List.length (List.filter is_write l) = List.length consumed
          /\ List.length (List.filter is_pause l)
             = List.length (List.filter would_block consumed))
    /\ (forall x w',
        send fd data flags w = (Thrown x, w') ->
        exists e l unsent,
          x = SendError e /\ e <> EAGAIN /\ e <> EWOULDBLOCK
          /\ trace w' = trace w ++ l
          /\ data = taken l (script w) +:+ unsent
          /\ unsent <> "")
    /\ (forall pre e rest,
        script w = pre ++ Failure e :: rest ->
        patient_writes pre = true ->
        accepted pre < size data ->
        e <> EAGAIN -> e <> EWOULDBLOCK ->
        fst (send fd data flags w) = Thrown (SendError e)).
Proof.
  intros w. split; [|split; [|split; [|split; [|split; [|split]]]]].
  - unfold send, bind. cbn.
    intros n w' H. eapply send_loop_returns_size; [|exact H]. lia.
  - intros e rest Hs He. split.
    + unfold send, bind. cbn. rewrite Hs. cbn [List.length].
      apply (send_loop_would_block _ _ _ _ _ Hs He).
    + intros Hne. apply (send_pauses w e rest Hs He Hne).
  - unfold send, bind. cbn.
    intros e rest Hs H1 H2 Hne. rewrite Hs. cbn [List.length].
    apply (send_loop_fatal _ _ _ _ _ Hs H1 H2).
    destruct data; [congruence | cbn; lia].
  - unfold send, bind. cbn.
    intros Hp Hacc. apply send_loop_completes; [reflexivity | exact Hp | lia | lia].
  - unfold send, bind. cbn. intros n w' H.
    apply send_loop_returned in H; [|lia].
    rewrite substr_from_0 in H. exact H.
  - unfold send, bind. cbn. intros x w' H.
    apply send_loop_thrown in H; [|lia].
    rewrite substr_from_0 in H. exact H.
  - unfold send, bind. cbn. intros pre e rest Hs Hp Hacc H1 H2.
    rewrite Hs, List.length_app. cbn [List.length].
    apply (send_loop_fails_midway pre e rest H1 H2); [exact Hs | exact Hp | lia].
Qed.

End SocketSend.

Section SocketSendExamples.
Import StdString Sys Socket.

(** Five bytes, a writer that takes at most two bytes per call and blocks
    once in between; and a writer that takes two bytes and then reports a
    broken pipe (error 32). *)
Lemma send_partial_writes_witness :
  fst (send 3 "hello" MSG_NOSIGNAL
         (fresh_world [Success 2; Failure EAGAIN; Success 2; Success 2]))
  = Returned 5%Z
  /\ fst (send 3 "hello" MSG_NOSIGNAL (fresh_world [Success 2; Failure 32]))
     = Thrown (SendError 32).
Proof.
  split.
  - apply (proj1 (proj2 (proj2 (proj2 (send_sends_whole_buffer 3 "hello"
             MSG_NOSIGNAL
             (fresh_world [Success 2; Failure EAGAIN; Success 2; Success 2])))))).
    + reflexivity.
    + cbn. lia.
  - apply (proj2 (proj2 (proj2 (proj2 (proj2 (proj2
             (send_sends_whole_buffer 3 "hello" MSG_NOSIGNAL
                (fresh_world [Success 2; Failure 32]))))))) [Success 2] 32%Z []).
    + reflexivity.
    + reflexivity.
    + cbn. lia.
    + discriminate.
    + discriminate.
Defined.

Example send_pauses_on_would_block :
  trace (snd (send 3 "hello" MSG_NOSIGNAL
                (fresh_world [Success 2; Failure EAGAIN; Success 3])))
  = [SysSend 3 "hello" MSG_NOSIGNAL; SysSend 3 "llo" MSG_NOSIGNAL;
     SysSleep 1; SysSend 3 "llo" MSG_NOSIGNAL].
Proof. reflexivity. Qed.

End SocketSendExamples.

(** *** [Socket::connect] *)

Section SocketConnect.
Import StdString Sys Socket.

Variables (fd : Z) (server_addr : sockaddr) (timeout_ms : Z).

Lemma of_N_ltb0 v : (Z.of_N v <? 0)%Z = false.
Proof. apply Z.ltb_ge. lia. Qed.

Lemma of_N_eqb0 v : v <> 0%N -> (Z.of_N v =? 0)%Z = false.
Proof. intros H. apply Z.eqb_neq. lia. Qed.

Lemma lor_nonblock_set f :
  negb (Z.land (Z.of_N (Z.to_N (Z.lor (Z.of_N f) O_NONBLOCK))) O_NONBLOCK =? 0)%Z
  = true.
Proof.
  assert (Hnn : (0 <= Z.lor (Z.of_N f) O_NONBLOCK)%Z).
  { apply Z.lor_nonneg. split; [lia | unfold O_NONBLOCK; lia]. }
  rewrite Z2N.id by exact Hnn.
  apply negb_true_iff, Z.eqb_neq. intros H0.
  assert (Hb : Z.testbit (Z.land (Z.lor (Z.of_N f) O_NONBLOCK) O_NONBLOCK) 11
               = true).
  { rewrite Z.land_spec, Z.lor_spec. unfold O_NONBLOCK.
    change (Z.testbit 2048 11) with true. rewrite orb_true_r. reflexivity. }
  rewrite H0 in Hb. rewrite Z.bits_0 in Hb. discriminate.
Qed.

Ltac run := repeat (cbn; rewrite ?of_N_ltb0).

Ltac unfold_connect :=
  unfold connect, setNonBlocking, sys_fcntl_getfl, sys_fcntl_setfl,
    sys_connect, sys_getsockopt_so_error, sys_poll, syscall, bind.

(** The poll loop skips any number of interrupted polls and stops at the
    first answer of another kind. *)
Lemma poll_loop_skips_interrupts_record k :
  forall fuel en ff a rest ip tr lg lv so co,
    k < fuel ->
    a <> Failure EINTR ->
    poll_until_not_interrupted fuel fd timeout_ms
      (mkWorld en ff (repeat (Failure EINTR) k ++ a :: rest) ip tr lg lv so co)
    = match a with
      | Success n =>
          (Returned (Z.of_N n),
           mkWorld (match k with O => en | S _ => EINTR end) ff rest ip
             (tr ++ repeat (SysPoll fd POLLOUT timeout_ms) (S k)) lg lv so co)
      | Failure e =>
          (Returned (-1)%Z,
           mkWorld e ff rest ip
             (tr ++ repeat (SysPoll fd POLLOUT timeout_ms) (S k)) lg lv so co)
      | Delivered _ =>
          (Stuck,
           mkWorld (match k with O => en | S _ => EINTR end) ff (a :: rest) ip
             (tr ++ repeat (SysPoll fd POLLOUT timeout_ms) k) lg lv so co)
      end.
Proof.
  induction k as [|k IH]; intros fuel en ff a rest ip tr lg lv so co Hk Ha;
    (destruct fuel as [|fuel]; [lia|]).
  - cbn [repeat app poll_until_not_interrupted].
    unfold sys_poll, syscall, bind. cbn.
    destruct a as [n|e|d]; run.
    + reflexivity.
    + assert (He : (e =? EINTR)%Z = false)
        by (apply Z.eqb_neq; intros ->; apply Ha; reflexivity).
      rewrite He. reflexivity.
    + rewrite app_nil_r. reflexivity.
  - cbn [repeat app poll_until_not_interrupted].
    unfold sys_poll, syscall, bind. cbn.
    unfold set_errno, set_script, record. cbn.
    rewrite IH; [| lia | exact Ha].
    destruct a as [n|e|d]; rewrite <- ?app_assoc; destruct k; reflexivity.
Qed.

Lemma poll_loop_skips_interrupts k fuel w a rest :
  k < fuel ->
  a <> Failure EINTR ->
  script w = repeat (Failure EINTR) k ++ a :: rest ->
  poll_until_not_interrupted fuel fd timeout_ms w
  = match a with
    | Success n =>
        (Returned (Z.of_N n),
         set_errno (match k with O => errno w | S _ => EINTR end)
           (set_script rest
              (mkWorld (errno w) (fd_flags w) (script w) (inet_pton w)
                 (trace w ++ repeat (SysPoll fd POLLOUT timeout_ms) (S k))
                 (logs w) (currentLevel w) (mgr_socket w) (mgr_connected w))))
    | Failure e =>
        (Returned (-1)%Z,
         set_errno e
           (set_script rest
              (mkWorld (errno w) (fd_flags w) (script w) (inet_pton w)
                 (trace w ++ repeat (SysPoll fd POLLOUT timeout_ms) (S k))
                 (logs w) (currentLevel w) (mgr_socket w) (mgr_connected w))))
    | Delivered _ =>
        (Stuck,
         set_errno (match k with O => errno w | S _ => EINTR end)
           (set_script (a :: rest)
              (mkWorld (errno w) (fd_flags w) (script w) (inet_pton w)
                 (trace w ++ repeat (SysPoll fd POLLOUT timeout_ms) k)
                 (logs w) (currentLevel w) (mgr_socket w) (mgr_connected w))))
    end.
Proof.
  intros Hk Ha Hs. destruct w as [en ff sc ip tr lg lv so co].
  cbn in Hs. subst sc.
  rewrite poll_loop_skips_interrupts_record by assumption.
  destruct a; reflexivity.
Qed.

Local Arguments poll_until_not_interrupted : simpl never.

(** C6. [Socket::connect] first switches the socket to non-blocking mode
    (reading the flags, then setting them with [O_NONBLOCK] added) and
    raises [SocketControlError] without connecting when that fails. When the
    connect call completes at once it returns with nothing else issued and
    the socket left non-blocking. A failure other than "in progress" is
    raised at once. When the connect is in progress it polls for
    writability with the timeout given, again after every poll interrupted
    by [EINTR]; no ready descriptor raises [ConnectTimeout], a poll error
    raises [PollError], and on readiness the pending socket error is read: a
    non-zero value raises [ConnectFailed], zero is success. *)
Theorem connect_nonblocking_with_timeout :
  forall w : world,
    let nb := Z.lor (Z.of_N (fd_flags w)) O_NONBLOCK in
    let r := connect fd server_addr timeout_ms w in
    let prologue :=
      [SysFcntlGet fd; SysFcntlSet fd nb; SysConnect fd server_addr] in
    (forall e rest,
        script w = Failure e :: rest ->
        fst r = Thrown (SocketControlError "Failed to get socket flags")
        /\ trace (snd r) = trace w ++ [SysFcntlGet fd])
    /\ (forall v e rest,
        script w = Success v :: Failure e :: rest ->
        fst r = Thrown (SocketControlError
                          "Failed to set socket to non-blocking mode")
        /\ trace (snd r) = trace w ++ [SysFcntlGet fd; SysFcntlSet fd nb])
    /\ (forall v1 v2 v3 rest,
        script w = Success v1 :: Success v2 :: Success v3 :: rest ->
        fst r = Returned tt
        /\ trace (snd r) = trace w ++ prologue
        /\ non_blocking (snd r) = true)
    /\ (forall v1 v2 e rest,
        script w = Success v1 :: Success v2 :: Failure e :: rest ->
        e <> EINPROGRESS ->
        fst r = Thrown (ConnectFailedAtOnce e)
        /\ trace (snd r) = trace w ++ prologue)
    /\ (forall v1 v2 k a rest,
        script w = Success v1 :: Success v2 :: Failure EINPROGRESS ::
                   repeat (Failure EINTR) k ++ a :: rest ->
        let polls := repeat (SysPoll fd POLLOUT timeout_ms) (S k) in
        (a = Success 0 ->
         fst r = Thrown ConnectTimeout
         /\ trace (snd r) = trace w ++ prologue ++ polls)
        /\ (forall e,
            a = Failure e -> e <> EINTR ->
            fst r = Thrown (PollError e)
            /\ trace (snd r) = trace w ++ prologue ++ polls)
        /\ (forall n err rest',
            a = Success n -> n <> 0%N ->
            rest = Success err :: rest' ->
            fst r = (if (err =? 0)%N then Returned tt
                     else Thrown (ConnectFailed (Z.of_N err)))
            /\ trace (snd r)
               = trace w ++ prologue ++ polls ++ [SysGetsockopt fd]
            /\ non_blocking (snd r) = true)
        /\ (forall n e rest',
            a = Success n -> n <> 0%N ->
            rest = Failure e :: rest' ->
            fst r = Thrown (runtime_error (TextErrno "getsockopt failed: " e)))).
Proof.
  intros w nb r prologue. subst nb r prologue.
  destruct w as [en ff sc ip tr lg lv so co]. cbn [script trace fd_flags].
  split; [|split; [|split; [|split]]].
  - intros e rest ->. unfold_connect. run. split; reflexivity.
  - intros v e rest ->. unfold_connect. run.
    split; [reflexivity|]. rewrite <- app_assoc. reflexivity.
  - intros v1 v2 v3 rest ->. unfold_connect. run.
    split; [reflexivity|]. split.
    + rewrite <- !app_assoc. reflexivity.
    + unfold non_blocking. cbn. apply lor_nonblock_set.
  - intros v1 v2 e rest -> He. unfold_connect. run.
    assert (E : (e =? EINPROGRESS)%Z = false) by (apply Z.eqb_neq; exact He).
    rewrite E. cbn. split; [reflexivity|].
    rewrite <- !app_assoc. reflexivity.
  - intros v1 v2 k a rest ->.
    unfold connect, setNonBlocking, sys_fcntl_getfl, sys_fcntl_setfl,
      sys_connect, syscall, bind.
    run.
    split; [|split; [|split]].
    + intros ->.
      rewrite (poll_loop_skips_interrupts k _ _ (Success 0) rest);
        [| rewrite length_app, repeat_length; cbn; lia | discriminate
         | reflexivity].
      cbn. split; [reflexivity|]. rewrite <- !app_assoc. reflexivity.
    + intros e -> He.
      rewrite (poll_loop_skips_interrupts k _ _ (Failure e) rest);
        [| rewrite length_app, repeat_length; cbn; lia | congruence
         | reflexivity].
      cbn. split; [reflexivity|]. rewrite <- !app_assoc. reflexivity.
    + intros n err rest' -> Hn ->.
      rewrite (poll_loop_skips_interrupts k _ _ (Success n) (Success err :: rest'));
        [| rewrite length_app, repeat_length; cbn; lia | discriminate
         | reflexivity].
      cbn. rewrite (of_N_eqb0 _ Hn), of_N_ltb0. cbn.
      unfold sys_getsockopt_so_error, syscall, bind. run.
      destruct (N.eqb_spec err 0) as [->|Herr].
      * cbn. split; [reflexivity|]. split.
        -- rewrite <- !app_assoc. reflexivity.
        -- unfold non_blocking. cbn. apply lor_nonblock_set.
      * rewrite (of_N_eqb0 _ Herr). cbn. split; [reflexivity|]. split.
        -- rewrite <- !app_assoc. reflexivity.
        -- unfold non_blocking. cbn. apply lor_nonblock_set.
    + intros n e rest' -> Hn ->.
      rewrite (poll_loop_skips_interrupts k _ _ (Success n) (Failure e :: rest'));
        [| rewrite length_app, repeat_length; cbn; lia | discriminate
         | reflexivity].
      cbn. rewrite (of_N_eqb0 _ Hn), of_N_ltb0. cbn.
      unfold sys_getsockopt_so_error, syscall, bind. run. reflexivity.
Qed.

End SocketConnect.

Section SocketConnectExamples.
Import StdString Sys Socket.

(** A handshake that never completes: two interrupted polls, then the
    timeout. *)
Lemma connect_timeout_witness :
  fst (connect 3 (mkSockaddr 60001 "127.0.0.1") 5000
         (fresh_world [Success 0; Success 0; Failure EINPROGRESS;
                       Failure EINTR; Failure EINTR; Success 0]))
  = Thrown ConnectTimeout.
Proof.
  refine (proj1 (proj1 (proj2 (proj2 (proj2 (proj2
    (connect_nonblocking_with_timeout 3 (mkSockaddr 60001 "127.0.0.1") 5000
       (fresh_world [Success 0; Success 0; Failure EINPROGRESS;
                     Failure EINTR; Failure EINTR; Success 0])))))
    0%N 0%N 2 (Success 0) [] _) _)); reflexivity.
Defined.

End SocketConnectExamples.

(** ** The connection manager ([ConnectionManager]) *)

Section ManagerLiveness.
Import StdString Sys ConnectionManager.

Lemma isConnected_no_socket w :
  mgr_socket w = None -> isConnected w = (Returned false, w).
Proof. intros H. unfold isConnected, bind, get_socket. rewrite H. reflexivity. Qed.

Lemma isConnected_failure w fd e rest :
  mgr_socket w = Some fd ->
  script w = Failure e :: rest ->
  let keep := (e =? EAGAIN)%Z || (e =? EWOULDBLOCK)%Z in
  fst (isConnected w) = Returned (keep && mgr_connected w)
  /\ mgr_connected (snd (isConnected w)) = keep && mgr_connected w
  /\ trace (snd (isConnected w)) = trace w ++ [SysRecv fd 1 peek_flags].
Proof.
  intros Hso Hs. unfold isConnected, bind, get_socket, sys_recv.
  rewrite Hso, Hs. cbn.
  destruct (e =? EAGAIN)%Z, (e =? EWOULDBLOCK)%Z; cbn; repeat split;
    reflexivity.
Qed.

Lemma isConnected_delivered w fd data rest :
  mgr_socket w = Some fd ->
  script w = Delivered data :: rest ->
  let keep := negb (empty data) in
  fst (isConnected w) = Returned (keep && mgr_connected w)
  /\ mgr_connected (snd (isConnected w)) = keep && mgr_connected w
  /\ trace (snd (isConnected w)) = trace w ++ [SysRecv fd 1 peek_flags].
Proof.
  intros Hso Hs. unfold isConnected, bind, get_socket, sys_recv.
  rewrite Hso, Hs. destruct data as [|c data]; cbn; repeat split; reflexivity.
Qed.

(** C8. [isConnected] returns false when the manager holds no socket.
    Otherwise it issues one read of one byte with [MSG_PEEK] (and
    [MSG_DONTWAIT]), which leaves the byte in place. A closed peer (no byte,
    no error) or an error other than would-block gives false and clears the
    [connected] flag; available data or a would-block give the flag as it
    was, and leave it as it was. *)
Theorem isConnected_peeks_one_byte :
  forall w : world,
    (mgr_socket w = None -> isConnected w = (Returned false, w))
    /\ (forall fd a rest,
        mgr_socket w = Some fd ->
        script w = a :: rest ->
        (forall v, a <> Success v) ->
        trace (snd (isConnected w))
        = trace w ++ [SysRecv fd 1 (Z.lor MSG_PEEK MSG_DONTWAIT)]
        /\ Z.land (Z.lor MSG_PEEK MSG_DONTWAIT) MSG_PEEK = MSG_PEEK
        /\ (a = Delivered "" ->
            fst (isConnected w) = Returned false
            /\ mgr_connected (snd (isConnected w)) = false)
        /\ (forall e,
            a = Failure e -> e <> EAGAIN -> e <> EWOULDBLOCK ->
            fst (isConnected w) = Returned false
            /\ mgr_connected (snd (isConnected w)) = false)
        /\ (forall data,
            a = Delivered data -> data <> "" ->
            fst (isConnected w) = Returned (mgr_connected w)
            /\ mgr_connected (snd (isConnected w)) = mgr_connected w)
        /\ (forall e,
            a = Failure e -> e = EAGAIN \/ e = EWOULDBLOCK ->
            fst (isConnected w) = Returned (mgr_connected w)
            /\ mgr_connected (snd (isConnected w)) = mgr_connected w)).
Proof.
  intros w. split; [apply isConnected_no_socket|].
  intros fd a rest Hso Hs Ha.
  destruct a as [v|e|data]; [exfalso; apply (Ha v); reflexivity | |].
  - destruct (isConnected_failure w fd e rest Hso Hs) as (Hr & Hc & Ht).
    split; [exact Ht|]. split; [reflexivity|].
    split; [discriminate|]. split; [|split; [discriminate|]].
    + intros e' [= <-] H1 H2.
      destruct (not_would_block_errno e H1 H2) as [E1 E2].
      rewrite Hr, Hc, E1, E2. split; reflexivity.
    + intros e' [= <-] He. apply would_block_errno in He.
      rewrite Hr, Hc, He. split; reflexivity.
  - destruct (isConnected_delivered w fd data rest Hso Hs) as (Hr & Hc & Ht).
    split; [exact Ht|]. split; [reflexivity|].
    split; [|split; [discriminate|split; [|discriminate]]].
    + intros [= ->]. rewrite Hr, Hc. split; reflexivity.
    + intros data' [= <-] Hne. rewrite Hr, Hc.
      destruct data; [congruence|]. split; reflexivity.
Qed.

Lemma isConnected_witness :
  let w := set_connected true
             (set_socket (Some 3%Z) (Socket.fresh_world [Delivered ""])) in
  fst (isConnected w) = Returned false
  /\ mgr_connected (snd (isConnected w)) = false.
Proof.
  intros w.
  refine (proj1 (proj2 (proj2 (proj2 (isConnected_peeks_one_byte w)
            3%Z (Delivered "") [] _ _ _))) _); try reflexivity.
  intros v. discriminate.
Defined.

End ManagerLiveness.

(** ** Reasoning about runs: exceptions raised and state kept *)

Section Runs.
Import Sys.

Lemma same_manager_refl w : same_manager w w.
Proof. split; reflexivity. Qed.

Lemma same_manager_trans w1 w2 w3 :
  same_manager w1 w2 -> same_manager w2 w3 -> same_manager w1 w3.
Proof. intros [A B] [C D]. split; congruence. Qed.

Context {A B : Type}.






Lemma throws_only_try_catch (P Q : exn -> Prop) (m : M A) catches handler :
  throws_only Q m ->
  (forall e, Q e -> catches e = false -> P e) ->
  (forall e, throws_only P (handler e)) ->
  throws_only P (try_catch m catches handler).
Proof.
  intros Hm Hq Hh w e w' H. unfold try_catch in H.
  destruct (m w) as [[a|e1|] w1] eqn:Hmw; try discriminate.
  destruct (catches e1) eqn:Hc.
  - exact (Hh e1 w1 e w' H).
  - injection H as <- _. exact (Hq e1 (Hm w e1 w1 Hmw) Hc).
Qed.

Lemma relates_ret R (a : A) : (forall w, R w w) -> relates R (ret a).
Proof. intros HR w r w' H. injection H as _ <-. apply HR. Qed.

Lemma relates_throw R e : (forall w, R w w) -> relates R (@throw A e).
Proof. intros HR w r w' H. injection H as _ <-. apply HR. Qed.

Lemma relates_stuck R : (forall w, R w w) -> relates R (@stuck A).
Proof. intros HR w r w' H. injection H as _ <-. apply HR. Qed.

Lemma relates_bind (R : world -> world -> Prop) (m : M A) (k : A -> M B) :
  (forall w1 w2 w3, R w1 w2 -> R w2 w3 -> R w1 w3) ->
  relates R m -> (forall a, relates R (k a)) -> relates R (bind m k).
Proof.
  intros Ht Hm Hk w r w' H. unfold bind in H.
  destruct (m w) as [[a|e1|] w1] eqn:Hmw.
  - exact (Ht _ _ _ (Hm _ _ _ Hmw) (Hk a _ _ _ H)).
  - injection H as _ <-. exact (Hm _ _ _ Hmw).
  - injection H as _ <-. exact (Hm _ _ _ Hmw).
Qed.

End Runs.

Section Primitives.
Import Sys.


Lemma syscall_same_manager c : relates same_manager (syscall c).
Proof.
  intros w r w' H. unfold syscall in H.
  destruct (script w) as [|[v|e1|d] rest]; injection H as _ <-;
    split; reflexivity.
Qed.

Lemma sys_recv_never_throws fd len flags : throws_only never (sys_recv fd len flags).
Proof.
  intros w e w' H. unfold sys_recv in H.
  destruct (script w) as [|[v|e1|d] rest]; discriminate.
Qed.


Lemma get_errno_same_manager : relates same_manager get_errno.
Proof. intros w r w' H. injection H as _ <-. apply same_manager_refl. Qed.

Lemma get_fd_flags_same_manager : relates same_manager get_fd_flags.
Proof. intros w r w' H. injection H as _ <-. apply same_manager_refl. Qed.

Lemma log_never_throws msg lvl : throws_only never (log msg lvl).
Proof. intros w e w' H. discriminate. Qed.

Lemma print_never_throws msg : throws_only never (print msg).
Proof. intros w e w' H. discriminate. Qed.

Lemma emit_never_throws c : throws_only never (emit c).
Proof. intros w e w' H. discriminate. Qed.

End Primitives.

Section SocketConnectRuns.
Import Sys Socket.

Variables (fd : Z) (addr : sockaddr) (timeout_ms : Z).



Lemma poll_loop_same_manager fuel :
  relates same_manager (poll_until_not_interrupted fuel fd timeout_ms).
Proof.
  induction fuel as [|fuel IH]; cbn [poll_until_not_interrupted].
  - apply relates_stuck, same_manager_refl.
  - apply relates_bind;
      [apply same_manager_trans | apply syscall_same_manager |]. intros r.
    apply relates_bind;
      [apply same_manager_trans | apply get_errno_same_manager |]. intros e.
    destruct (_ && _); [exact IH | apply relates_ret, same_manager_refl].
Qed.


Lemma setNonBlocking_same_manager enable :
  relates same_manager (setNonBlocking fd enable).
Proof.
  unfold setNonBlocking, sys_fcntl_getfl, sys_fcntl_setfl.
  apply relates_bind; [apply same_manager_trans | |].
  - apply relates_bind;
      [apply same_manager_trans | apply syscall_same_manager |].
    intros r. destruct (_ <? _)%Z;
      [apply relates_ret, same_manager_refl | apply get_fd_flags_same_manager].
  - intros flags. destruct (_ <? _)%Z;
      [apply relates_throw, same_manager_refl|].
    apply relates_bind; [apply same_manager_trans | |].
    + apply relates_bind;
        [apply same_manager_trans | apply syscall_same_manager |].
      intros r w r' w' H. injection H as _ <-.
      destruct (_ <? _)%Z; split; reflexivity.
    + intros r. destruct (_ <? _)%Z;
        [apply relates_throw | apply relates_ret]; apply same_manager_refl.
Qed.


(** [Socket::connect] does not touch the manager. *)
Lemma connect_same_manager :
  relates same_manager (connect fd addr timeout_ms).
Proof.
  unfold connect, sys_connect, sys_getsockopt_so_error.
  apply relates_bind;
    [apply same_manager_trans | apply setNonBlocking_same_manager |].
  intros _. apply relates_bind; [apply same_manager_trans | |].
  { apply relates_bind;
      [apply same_manager_trans | apply syscall_same_manager |].
    intros r. apply relates_ret, same_manager_refl. }
  intros result. destruct (_ =? _)%Z; [apply relates_ret, same_manager_refl|].
  apply relates_bind;
    [apply same_manager_trans | apply get_errno_same_manager |].
  intros e. destruct (negb _); [apply relates_throw, same_manager_refl|].
  apply relates_bind; [apply same_manager_trans | |].
  { intros w r w' H. injection H as _ <-. apply same_manager_refl. }
  intros fuel. apply relates_bind;
    [apply same_manager_trans | apply poll_loop_same_manager |].
  intros poll_result.
  destruct (_ =? _)%Z; [apply relates_throw, same_manager_refl|].
  destruct (_ <? _)%Z.
  { apply relates_bind;
      [apply same_manager_trans | apply get_errno_same_manager |].
    intros e'. apply relates_throw, same_manager_refl. }
  apply relates_bind; [apply same_manager_trans | |].
  { apply relates_bind;
      [apply same_manager_trans | apply syscall_same_manager |].
    intros r. apply relates_ret, same_manager_refl. }
  intros [r socket_error]. destruct (_ <? _)%Z.
  { apply relates_bind;
      [apply same_manager_trans | apply get_errno_same_manager |].
    intros e'. apply relates_throw, same_manager_refl. }
  destruct (negb _);
    [apply relates_throw | apply relates_ret]; apply same_manager_refl.
Qed.

End SocketConnectRuns.

(** *** Byte order and port texts *)

Section ByteOrder.
Import ConnectionManager.
Local Open Scope Z_scope.

Lemma disjoint_bytes (a b : Z) : Z.land (a mod 2 ^ 8) (b * 2 ^ 8) = 0.
Proof.
  apply Z.bits_inj'. intros n Hn. rewrite Z.land_spec, Z.bits_0.
  destruct (Z.lt_ge_cases n 8) as [Hlt | Hge].
  - rewrite Z.mul_pow2_bits_low by lia. apply andb_false_r.
  - rewrite Z.mod_pow2_bits_high by lia. reflexivity.
Qed.

(** The two bytes in arithmetic. *)
Lemma htons_bytes (v : Z) : htons v = (v / 256) mod 256 + (v mod 256) * 256.
Proof.
  unfold htons. change 255 with (Z.ones 8).
  rewrite !Z.land_ones, Z.shiftr_div_pow2, Z.shiftl_mul_pow2 by lia.
  rewrite <- Z.add_lor_land, disjoint_bytes. change (2 ^ 8) with 256. lia.
Qed.

Lemma htons_sixteen_bits (v : Z) : 0 <= htons v < 65536.
Proof.
  rewrite htons_bytes.
  pose proof (Z.mod_pos_bound (v / 256) 256).
  pose proof (Z.mod_pos_bound v 256). lia.
Qed.

Lemma htons_involutive (v : Z) : 0 <= v < 65536 -> htons (htons v) = v.
Proof.
  intros Hv. rewrite (htons_bytes (htons v)), htons_bytes.
  set (hi := (v / 256) mod 256). set (lo := v mod 256).
  assert (Hhi : 0 <= hi < 256) by (apply Z.mod_pos_bound; lia).
  assert (Hlo : 0 <= lo < 256) by (apply Z.mod_pos_bound; lia).
  replace ((hi + lo * 256) / 256) with lo
    by (apply Z.div_unique with (r := hi); lia).
  replace ((hi + lo * 256) mod 256) with hi
    by (apply Z.mod_unique with (q := lo); lia).
  rewrite (Z.mod_small lo) by lia.
  subst hi lo. rewrite (Z.mod_small (v / 256)).
  - pose proof (Z.div_mod v 256). lia.
  - split; [apply Z.div_pos; lia | apply Z.div_lt_upper_bound; lia].
Qed.

End ByteOrder.

Section PortText.
Import StdString StdConv InputHandler.

(** A port text the validator accepts starts with a digit and is read by
    [std::stoi] as a number from 1 to 65535. *)
Lemma checkValidPort_parses port :
  checkValidPort port = true ->
  exists portNum : Z,
    stoi port 10 = Parsed portNum /\ (1 <= portNum <= 65535)%Z.
Proof.
  intros H. unfold checkValidPort in H.
  destruct port as [|c port']; [discriminate|].
  destruct (negb (isdigit c)); [discriminate|].
  destruct (stoi (String c port') 10) as [v| |] eqn:E; try discriminate.
  apply andb_prop in H as [H1 H2]. unfold MIN_PORT, MAX_PORT in *.
  exists v. split; [reflexivity | lia].
Qed.

End PortText.

(** *** [ConnectionManager::connect] *)

Section ManagerConnect.
Import StdString StdConv Sys ConnectionManager.

Local Arguments try_connect : simpl never.
Local Arguments level_below : simpl never.







End ManagerConnect.

Section ManagerConnectExamples.
Import StdString StdConv Sys ConnectionManager.


(** What the validation of the port is for: with a port text that is not
    a number, [std::stoi] raises [std::invalid_argument] before the address
    is looked at and outside the [try] statement. *)
Example connect_needs_a_validated_port :
  InputHandler.checkValidPort "http" = false
  /\ fst (connect "not-an-address" "http"
            (Socket.world_rejecting_addresses [Success 3; Success 0]))
     = Thrown (invalid_argument "stoi").
Proof. split; reflexivity. Qed.

End ManagerConnectExamples.

(** *** [ConnectionManager::receive] *)

Section ManagerReceive.
Import StdString StdConv Sys ConnectionManager.

Lemma read_body_step fuel fd cl body :
  read_body (S fuel) fd cl body
  = if (0 <? cl)%Z && (Z.of_nat (size body) <? cl)%Z then
      bind isReadable (fun readable =>
        if negb readable then ret None
        else
          bind (Socket.recv fd BUFFER_SIZE 0) (fun got =>
            let '(bytesRead, buffer) := got in
            if (bytesRead <=? 0)%Z then ret (Some body)
            else read_body fuel fd cl (body +:+ buffer)))
    else ret (Some body).
Proof. reflexivity. Qed.

Local Arguments read_body : simpl never.
Local Arguments level_below : simpl never.
Local Opaque BUFFER_SIZE.

Ltac unfold_read :=
  unfold isReadable, pollSocket, Socket.recv, sys_poll, sys_recv, syscall,
    bind, get_socket, get_errno, log.

Lemma take_all n s : size s <= n -> take n s = s.
Proof.
  unfold size. revert s; induction n as [|n IH]; intros [|c s] H; cbn in *;
    try reflexivity; try lia.
  rewrite IH by lia. reflexivity.
Qed.

Lemma size_positive c : c <> "" -> (Z.of_nat (size c) <=? 0)%Z = false.
Proof. intros H. destruct c; [congruence|]. apply Z.leb_gt. cbn. lia. Qed.

Lemma size_not_negative c : (Z.of_nat (size c) <? 0)%Z = false.
Proof. apply Z.ltb_ge. lia. Qed.

Lemma sys_recv_same_manager fd len flags :
  relates same_manager (sys_recv fd len flags).
Proof.
  intros w r w' H. unfold sys_recv in H.
  destruct (script w) as [|[v|e1|d] rest]; injection H as _ <-;
    split; reflexivity.
Qed.

Lemma log_same_manager msg lvl : relates same_manager (log msg lvl).
Proof. intros w r w' H. injection H as _ <-. split; reflexivity. Qed.

Lemma recv_same_manager fd len flags :
  relates same_manager (Socket.recv fd len flags).
Proof.
  unfold Socket.recv.
  apply relates_bind;
    [apply same_manager_trans | apply sys_recv_same_manager |].
  intros [bytesRead buf]. destruct (_ <? _)%Z.
  - apply relates_bind;
      [apply same_manager_trans | apply get_errno_same_manager |]. intros e.
    apply relates_bind; [apply same_manager_trans | apply log_same_manager |].
    intros _. destruct (_ && _);
      [apply relates_throw | apply relates_ret]; apply same_manager_refl.
  - apply relates_bind; [apply same_manager_trans | apply log_same_manager |].
    intros _. apply relates_ret, same_manager_refl.
Qed.

Lemma pollSocket_same_manager events timeout_ms :
  relates same_manager (pollSocket events timeout_ms).
Proof.
  unfold pollSocket.
  apply relates_bind; [apply same_manager_trans | |].
  { intros w r w' H. injection H as _ <-. apply same_manager_refl. }
  intros [fd|]; [|apply relates_ret, same_manager_refl].
  apply relates_bind; [apply same_manager_trans | apply syscall_same_manager |].
  intros r. destruct (_ <=? _)%Z; [|apply relates_ret, same_manager_refl].
  apply relates_bind; [apply same_manager_trans | apply log_same_manager |].
  intros _. apply relates_ret, same_manager_refl.
Qed.

Lemma read_headers_same_manager fuel fd :
  forall data, relates same_manager (read_headers fuel fd data).
Proof.
  induction fuel as [|fuel IH]; intros data; cbn [read_headers];
    destruct (find data CRLFCRLF 0);
    try (apply relates_ret, same_manager_refl);
    try (apply relates_stuck, same_manager_refl).
  apply relates_bind;
    [apply same_manager_trans | apply pollSocket_same_manager |].
  intros readable. destruct (negb readable);
    [apply relates_ret, same_manager_refl|].
  apply relates_bind;
    [apply same_manager_trans | apply recv_same_manager |].
  intros [bytesRead buffer]. destruct (_ <=? _)%Z; [|apply IH].
  apply relates_bind; [apply same_manager_trans | apply log_same_manager |].
  intros _. apply relates_ret, same_manager_refl.
Qed.

(** One turn of the body loop in which a chunk arrives. *)
Lemma read_body_one_chunk fuel fd cl body w c rest :
  mgr_socket w = Some fd ->
  script w = Success 1 :: Delivered c :: rest ->
  deliverable c ->
  (Z.of_nat (size body) < cl)%Z ->
  exists w',
    read_body (S fuel) fd cl body w = read_body fuel fd cl (body +:+ c) w'
    /\ script w' = rest /\ mgr_socket w' = Some fd.
Proof.
  intros Hso Hs [Hne Hsz] Hlt.
  destruct w as [en ff sc ip' tr lg lv so co]. cbn in *. subst sc so.
  rewrite read_body_step.
  assert (C1 : (0 <? cl)%Z = true) by (apply Z.ltb_lt; lia).
  assert (C2 : (Z.of_nat (size body) <? cl)%Z = true) by (apply Z.ltb_lt; lia).
  rewrite C1, C2. cbn [andb].
  unfold_read. cbn. rewrite (take_all _ _ Hsz), size_not_negative. cbn.
  rewrite (size_positive _ Hne).
  eexists. split; [reflexivity|]. split; reflexivity.
Qed.

Lemma concat_chunks_cons c chunks :
  concat_chunks (c :: chunks) = c +:+ concat_chunks chunks.
Proof. reflexivity. Qed.

(** The body loop takes in all the chunks that arrive while the body is
    still short. *)
Lemma read_body_chunks fd cl chunks :
  forall fuel body w tail,
    mgr_socket w = Some fd ->
    script w = ready_reads chunks ++ tail ->
    Forall deliverable chunks ->
    (Z.of_nat (size (body +:+ concat_chunks chunks)) < cl)%Z ->
    exists w',
      read_body (List.length chunks + fuel) fd cl body w
      = read_body fuel fd cl (body +:+ concat_chunks chunks) w'
      /\ script w' = tail /\ mgr_socket w' = Some fd.
Proof.
  induction chunks as [|c chunks IH]; intros fuel body w tail Hso Hs Hd Hlt.
  - exists w. cbn. rewrite str_app_nil_r. repeat split; assumption.
  - inversion Hd as [|? ? Hc Hcs]; subst.
    rewrite concat_chunks_cons in Hlt. rewrite concat_chunks_cons.
    unfold size in Hlt. rewrite !str_length_app in Hlt.
    destruct (read_body_one_chunk (List.length chunks + fuel) fd cl body w c
                (ready_reads chunks ++ tail) Hso Hs Hc)
      as (w1 & Hstep & Hs1 & Hso1); [unfold size; lia|].
    destruct (IH fuel (body +:+ c) w1 tail Hso1 Hs1 Hcs)
      as (w2 & Hrest & Hs2 & Hso2).
    { unfold size. rewrite !str_length_app. lia. }
    exists w2. cbn [List.length Nat.add]. rewrite Hstep, Hrest.
    rewrite str_app_assoc. repeat split; assumption.
Qed.

(** The turn in which the socket is not readable: the call gives up. *)
Lemma read_body_unreadable fuel fd cl body w a rest :
  mgr_socket w = Some fd ->
  script w = a :: rest ->
  a = Success 0 \/ (exists e, a = Failure e) ->
  (Z.of_nat (size body) < cl)%Z ->
  fst (read_body (S fuel) fd cl body w) = Returned None.
Proof.
  intros Hso Hs Ha Hlt.
  destruct w as [en ff sc ip' tr lg lv so co]. cbn in *. subst sc so.
  rewrite read_body_step.
  assert (C1 : (0 <? cl)%Z = true) by (apply Z.ltb_lt; lia).
  assert (C2 : (Z.of_nat (size body) <? cl)%Z = true) by (apply Z.ltb_lt; lia).
  rewrite C1, C2. cbn [andb].
  destruct Ha as [-> | [e ->]]; unfold_read; reflexivity.
Qed.

(** The turn in which the read brings nothing: the loop is left and the
    body is kept as it is. *)
Lemma read_body_break fuel fd cl body w a rest :
  mgr_socket w = Some fd ->
  script w = Success 1 :: a :: rest ->
  a = Delivered "" \/ (exists e, a = Failure e /\ Socket.would_block a = true) ->
  (Z.of_nat (size body) < cl)%Z ->
  fst (read_body (S fuel) fd cl body w) = Returned (Some body).
Proof.
  intros Hso Hs Ha Hlt.
  destruct w as [en ff sc ip' tr lg lv so co]. cbn in *. subst sc so.
  rewrite read_body_step.
  assert (C1 : (0 <? cl)%Z = true) by (apply Z.ltb_lt; lia).
  assert (C2 : (Z.of_nat (size body) <? cl)%Z = true) by (apply Z.ltb_lt; lia).
  rewrite C1, C2. cbn [andb].
  destruct Ha as [-> | (e & -> & Hwb)]; unfold_read; cbn.
  - reflexivity.
  - cbn in Hwb. apply orb_true_iff in Hwb.
    destruct Hwb as [H | H]; rewrite H; cbn; rewrite ?andb_false_r; reflexivity.
Qed.

Lemma length_ready_reads chunks :
  List.length (ready_reads chunks) = 2 * List.length chunks.
Proof.
  unfold ready_reads.
  induction chunks as [|c chunks IH]; cbn [flat_map app List.length]; lia.
Qed.

End ManagerReceive.

Section ManagerReceiveClaim.
Import StdString StdConv Sys ConnectionManager.

Local Arguments read_body : simpl never.
Local Arguments read_headers : simpl never.
Local Opaque BUFFER_SIZE.

Lemma framed_not_empty headersStr body :
  headersStr +:+ CRLFCRLF +:+ body <> "".
Proof.
  intros H. apply (f_equal String.length) in H.
  rewrite !str_length_app in H.
  change (String.length CRLFCRLF) with 4 in H. cbn in H. lia.
Qed.

(** What [receive] does once the header loop has produced [data]. *)
Lemma receive_after_headers w w1 fd data headerEnd v cl :
  mgr_socket w = Some fd ->
  read_headers (S (List.length (script w))) fd "" w = (Returned (Some data), w1) ->
  find data CRLFCRLF 0 = Some headerEnd ->
  n_utils.parseHeaderValue (substr data 0 headerEnd)
    (n_utils.toLower "Content-Length") = Some v ->
  stoul v = Parsed cl ->
  receive w
  = bind (read_body (S (List.length (script w1))) fd cl
            (substr_from data (headerEnd + 4)))
      (fun rest =>
         match rest with
         | None => ret None
         | Some body' =>
             ret (Some (substr data 0 headerEnd +:+ CRLFCRLF +:+ body'))
         end) w1.
Proof.
  intros Hso Hhead Hfind Hparse Hstoul.
  unfold receive. unfold bind at 1. unfold get_socket. rewrite Hso.
  unfold bind at 1. unfold answers_left at 1. cbv beta iota.
  unfold bind at 1. rewrite Hhead. rewrite Hfind.
  unfold bind at 1. unfold content_length. rewrite Hparse, Hstoul.
  unfold ret at 1. cbv beta iota.
  unfold bind at 1. unfold answers_left. cbv beta iota. reflexivity.
Qed.

(** C1 (as the code has it). Let the header loop of [receive] end with
    [data], in which a content length is found that exceeds the body bytes
    at hand, and let further chunks arrive without reaching that length.
    If then the socket is not readable (the poll reports no ready
    descriptor, or fails), [receive] returns the empty result
    ([std::nullopt]): nothing of what was accumulated is returned. If
    instead the socket is readable but the read brings nothing (the peer
    has closed, or the read would block), [receive] returns what was
    accumulated, headers, delimiter and partial body, a non-empty result. *)
Theorem receive_body_cut_short :
  forall (w w1 : world) (fd : Z) (data v : string) (headerEnd : nat)
         (cl : Z) (chunks : list string) (tail : list answer),
    mgr_socket w = Some fd ->
    read_headers (S (List.length (script w))) fd "" w
    = (Returned (Some data), w1) ->
    find data CRLFCRLF 0 = Some headerEnd ->
    let headersStr := substr data 0 headerEnd in
    let body := substr_from data (headerEnd + 4) in
    n_utils.parseHeaderValue headersStr (n_utils.toLower "Content-Length")
    = Some v ->
    stoul v = Parsed cl ->
    script w1 = ready_reads chunks ++ tail ->
    Forall deliverable chunks ->
    (Z.of_nat (size (body +:+ concat_chunks chunks)) < cl)%Z ->
    let accumulated :=
      headersStr +:+ CRLFCRLF +:+ body +:+ concat_chunks chunks in
    (forall a rest,
        tail = a :: rest ->
        a = Success 0 \/ (exists e, a = Failure e) ->
        fst (receive w) = Returned None)
    /\ (forall a rest,
        tail = Success 1 :: a :: rest ->
        a = Delivered ""
        \/ (exists e, a = Failure e /\ Socket.would_block a = true) ->
        fst (receive w) = Returned (Some accumulated)
        /\ accumulated <> "").
Proof.
  intros w w1 fd data v headerEnd cl chunks tail Hso Hhead Hfind
    headersStr body Hparse Hstoul Hs1 Hd Hlt accumulated.
  subst headersStr body accumulated.
  rewrite (receive_after_headers _ _ _ _ _ _ _ Hso Hhead Hfind Hparse Hstoul).
  destruct (read_headers_same_manager _ _ _ _ _ _ Hhead) as [Hso1 _].
  rewrite Hso in Hso1.
  assert (Hfuel : S (List.length (script w1))
                  = List.length chunks
                    + S (List.length chunks + List.length tail)).
  { rewrite Hs1, length_app, length_ready_reads. lia. }
  rewrite Hfuel.
  destruct (read_body_chunks fd cl chunks
              (S (List.length chunks + List.length tail))
              (substr_from data (headerEnd + 4)) w1 tail Hso1 Hs1 Hd Hlt)
    as (w2 & Hrun & Hs2 & Hso2).
  unfold bind. rewrite Hrun. split.
  - intros a rest -> Ha.
    pose proof (read_body_unreadable (List.length chunks + List.length (a :: rest))
                  fd cl _ w2 a rest Hso2 Hs2 Ha Hlt) as Hr.
    destruct (read_body _ fd cl _ w2) as [r w3]. cbn in Hr. subst r.
    reflexivity.
  - intros a rest -> Ha. split; [|apply framed_not_empty].
    pose proof (read_body_break
                  (List.length chunks + List.length (Success 1 :: a :: rest))
                  fd cl _ w2 a rest Hso2 Hs2 Ha Hlt) as Hr.
    destruct (read_body _ fd cl _ w2) as [r w3]. cbn in Hr. subst r.
    reflexivity.
Qed.

End ManagerReceiveClaim.

Section ManagerReceiveExamples.
Import StdString StdConv Sys ConnectionManager.

Lemma receive_unreadable_witness :
  fst (receive (holding_world 3
                  [Success 1; Delivered short_response; Success 0]))
  = Returned None.
Proof.
  refine (proj1 (receive_body_cut_short
    (holding_world 3 [Success 1; Delivered short_response; Success 0])
    (snd (read_headers 4 3 ""
            (holding_world 3 [Success 1; Delivered short_response; Success 0])))
    3 short_response "10" 35 10 [] [Success 0] _ _ _ _ _ _ _ _)
    (Success 0) [] _ _).
  - reflexivity.
  - vm_compute. reflexivity.
  - reflexivity.
  - reflexivity.
  - reflexivity.
  - vm_compute. reflexivity.
  - constructor.
  - vm_compute. reflexivity.
  - reflexivity.
  - left. reflexivity.
Defined.

(** The claim as stated fails: the headers announce more body bytes than
    have arrived, the socket is not readable any more, and [receive] returns
    the empty result, not the bytes accumulated. *)
Lemma receive_unreadable_returns_nothing :
  let w := holding_world 3 [Success 1; Delivered short_response; Success 0] in
  ConnectionManager.content_length ("HTTP/1.1 200 OK" +:+ CRLF +:+ "content-length: 10") w
  = (Returned 10%Z, w)
  /\ fst (receive w) = Returned None
  /\ fst (receive w) <> Returned (Some short_response).
Proof.
  intros w. split; [reflexivity|]. split; [vm_compute; reflexivity|].
  vm_compute. discriminate.
Qed.

Example receive_closed_returns_partial :
  fst (receive (holding_world 3
                  [Success 1; Delivered short_response; Success 1;
                   Delivered ""]))
  = Returned (Some short_response).
Proof. vm_compute. reflexivity. Qed.

End ManagerReceiveExamples.

(** ** Parsing a response ([HttpResponse]) *)

Section ResponseParsing.
Import StdString StdConv Sys HttpResponse.

Lemma parseStartLine_keeps r line w b r1 w' :
  parseStartLine r line w = (Returned (b, r1), w') ->
  same_headers_and_flag r r1.
Proof.
  unfold parseStartLine, bind, log, ret. intros H.
  destruct (find line " " 0) as [versionEnd|];
    [|injection H as _ <- _; split; reflexivity].
  destruct (find line " " (versionEnd + 1)) as [statusCodeEnd|];
    [|injection H as _ <- _; split; reflexivity].
  destruct (_ =? _)%Z; injection H as _ <- _; split; reflexivity.
Qed.

Lemma parseHeader_flag r header : keepAlive (parseHeader r header) = keepAlive r.
Proof.
  unfold parseHeader. destruct (empty header); [reflexivity|].
  destruct (find header ":" 0); reflexivity.
Qed.

Lemma parseHeaders_loop_flag fuel :
  forall r block pos, keepAlive (parseHeaders_loop fuel r block pos) = keepAlive r.
Proof.
  induction fuel as [|fuel IH]; intros r block pos; cbn [parseHeaders_loop];
    destruct (Nat.ltb pos (size block)); try reflexivity.
  rewrite IH. apply parseHeader_flag.
Qed.

Lemma parseBody_keeps r raw bodyStart w b r' w' :
  parseBody r raw bodyStart w = (Returned (b, r'), w') ->
  same_headers_and_flag r r'.
Proof.
  unfold parseBody, bind, log, ret. intros H.
  destruct (Nat.ltb bodyStart (size raw));
    [|injection H as _ <- _; split; reflexivity].
  destruct (getHeader r "Content-Length") as [h|];
    [|injection H as _ <- _; split; reflexivity].
  destruct (stoul h) as [contentLength| |];
    try (injection H as _ <- _; split; reflexivity).
  destruct (_ <=? _)%Z; injection H as _ <- _; split; reflexivity.
Qed.

Lemma determineKeepAlive_flag r :
  keepAlive (determineKeepAlive r)
  = match getHeader r "Connection" with
    | Some v =>
        String.eqb (n_utils.toLower (n_utils.trim v)) "keep-alive"
    | None => keepAlive r
    end.
Proof.
  unfold determineKeepAlive. destruct (getHeader r "Connection"); reflexivity.
Qed.

Lemma determineKeepAlive_headers r :
  HttpMessage.headers (msg (determineKeepAlive r)) = HttpMessage.headers (msg r).
Proof.
  unfold determineKeepAlive. destruct (getHeader r "Connection"); reflexivity.
Qed.

Lemma getHeader_same_headers r r' key :
  HttpMessage.headers (msg r') = HttpMessage.headers (msg r) ->
  getHeader r' key = getHeader r key.
Proof.
  intros H. unfold getHeader, HttpMessage.getHeader. rewrite H. reflexivity.
Qed.

(** The flag a successful [parse] leaves, from the flag before the call. *)
Lemma parse_keepAlive r0 raw w r w' :
  parse r0 raw w = (Returned (true, r), w') ->
  keepAlive r
  = match getHeader r "Connection" with
    | Some v =>
        String.eqb (n_utils.toLower (n_utils.trim v)) "keep-alive"
    | None => keepAlive r0
    end.
Proof.
  unfold parse. intros H.
  destruct (find raw CRLF 0) as [startLineEnd|];
    [|unfold bind, log, ret in H; discriminate].
  unfold bind at 1 in H.
  destruct (parseStartLine r0 (substr raw 0 startLineEnd) w)
    as [[[ok r1]|e|] w1] eqn:Hstart; try discriminate.
  destruct (parseStartLine_keeps _ _ _ _ _ _ Hstart) as [Hh1 Hk1].
  destruct ok; cbn [negb] in H; [|unfold bind, log, ret in H; discriminate].
  destruct (find raw CRLFCRLF (startLineEnd + 2)) as [headersEnd|];
    [|unfold bind, log, ret in H; discriminate].
  unfold bind at 1 in H.
  match type of H with
  | context [parseBody ?r3 raw ?bs w1] =>
      destruct (parseBody r3 raw bs w1) as [[[ok' r4]|e|] w2] eqn:Hbody;
        try discriminate
  end.
  destruct (parseBody_keeps _ _ _ _ _ _ _ Hbody) as [Hh4 Hk4].
  destruct ok'; cbn [negb] in H; [|unfold bind, log, ret in H; discriminate].
  injection H as <- _.
  rewrite (getHeader_same_headers _ _ "Connection" Hh4), Hk4.
  rewrite (getHeader_same_headers _ _ "Connection" (determineKeepAlive_headers _)).
  rewrite determineKeepAlive_flag.
  unfold parseHeaders. rewrite parseHeaders_loop_flag, Hk1. reflexivity.
Qed.

(** C4 (as the code has it). For every response parsed successfully into a
    new [HttpResponse], [isKeepAlive] is true if and only if there is no
    [Connection] header at all (the object starts with the flag set, and it
    is only reassigned when the header is there), or there is one and its
    value, trimmed of surrounding whitespace, is "keep-alive" up to letter
    case; any other value, such as "close", gives false. *)
Theorem keep_alive_after_parse :
  forall (raw : string) (w w' : world) (r : HttpResponse.t),
    parse new raw w = (Returned (true, r), w') ->
    (isKeepAlive r = true <->
     getHeader r "Connection" = None
     \/ exists v,
          getHeader r "Connection" = Some v
          /\ n_utils.toLower (n_utils.trim v) = "keep-alive").
Proof.
  intros raw w w' r H. unfold isKeepAlive.
  rewrite (parse_keepAlive _ _ _ _ _ H).
  destruct (getHeader r "Connection") as [v|].
  - rewrite String.eqb_eq. split.
    + intros Hv. right. exists v. split; [reflexivity | exact Hv].
    + intros [Hn | (v' & [= <-] & Hv)]; [discriminate | exact Hv].
  - split; [intros _; left; reflexivity | reflexivity].
Qed.

End ResponseParsing.

Section ResponseParsingExamples.
Import StdString StdConv Sys HttpResponse.

Lemma keep_alive_close_witness :
  isKeepAlive (parsed closing_response) = true <->
  getHeader (parsed closing_response) "Connection" = None
  \/ exists v,
       getHeader (parsed closing_response) "Connection" = Some v
       /\ n_utils.toLower (n_utils.trim v) = "keep-alive".
Proof.
  apply (keep_alive_after_parse closing_response (Socket.fresh_world [])
           (snd (parse new closing_response (Socket.fresh_world [])))).
  vm_compute. reflexivity.
Defined.

(** The claim as stated fails: a response without a [Connection] header
    parses, and [isKeepAlive] is true. *)
Lemma keep_alive_without_header_is_true :
  fst (parse new plain_response (Socket.fresh_world []))
  = Returned (true, parsed plain_response)
  /\ getHeader (parsed plain_response) "Connection" = None
  /\ isKeepAlive (parsed plain_response) = true.
Proof. vm_compute. repeat split. Qed.

Example keep_alive_examples :
  isKeepAlive (parsed closing_response) = false
  /\ isKeepAlive (parsed lasting_response) = true
  /\ getBody (parsed plain_response) = "hello".
Proof. vm_compute. repeat split. Qed.

End ResponseParsingExamples.

(** ** The orchestrator ([HttpClient]) *)

Section Orchestrator.
Import StdString StdConv Sys ConnectionManager HttpClient.

Lemma every_exception_is_caught e : is_std_exception e = true.
Proof. destruct e; reflexivity. Qed.

Lemma error_is_never_filtered lv : level_below ERROR lv = false.
Proof. destruct lv; reflexivity. Qed.

(** No exception leaves [processRequest]. *)
Lemma processRequest_never_throws request ip port :
  throws_only never (processRequest request ip port).
Proof.
  unfold processRequest.
  apply (throws_only_try_catch never (fun _ => True)).
  - intros w e w' _. exact I.
  - intros e _ Hc. rewrite every_exception_is_caught in Hc. discriminate.
  - intros e. apply log_never_throws.
Qed.

(** An exception of the [try] block is logged, and the call returns. *)
Lemma processRequest_logs_exception request ip port w e w' :
  process request ip port w = (Thrown e, w') ->
  processRequest request ip port w
  = (Returned tt, write [failure_line e] w').
Proof.
  intros H. unfold processRequest, try_catch. rewrite H.
  rewrite every_exception_is_caught. unfold log.
  rewrite error_is_never_filtered. reflexivity.
Qed.

(** A response that is not keep-alive makes the manager disconnect. *)
Lemma conclude_disconnects response w1 :
  HttpResponse.isKeepAlive response = false ->
  fst (conclude response w1) = Returned tt
  /\ mgr_socket (snd (conclude response w1)) = None
  /\ mgr_connected (snd (conclude response w1)) = false
  /\ (forall fd,
        mgr_socket w1 = Some fd -> (0 <= fd)%Z ->
        In (SysClose fd) (trace (snd (conclude response w1)))).
Proof.
  intros Hk. unfold conclude. rewrite Hk. cbn [negb].
  unfold HttpResponse.display, disconnect, reset_socket, Socket.destroy,
    sys_close, emit, bind, print, log, get_socket, put_socket, put_connected.
  destruct w1 as [en ff sc ip' tr lg lv so co]. cbn.
  destruct so as [old|]; cbn.
  - destruct (0 <=? old)%Z eqn:Hold; cbn.
    + repeat split. intros fd [= <-] _. apply in_or_app. right. left.
      reflexivity.
    + repeat split. intros fd [= <-] Hfd. apply Z.leb_gt in Hold. lia.
  - repeat split. intros fd Hfd. discriminate.
Qed.

(** A response that is keep-alive leaves the manager as it is. *)
Lemma conclude_keeps response w1 :
  HttpResponse.isKeepAlive response = true ->
  fst (conclude response w1) = Returned tt
  /\ same_manager w1 (snd (conclude response w1))
  /\ trace (snd (conclude response w1)) = trace w1.
Proof.
  intros Hk. unfold conclude. rewrite Hk. cbn [negb].
  unfold HttpResponse.display, bind, print. cbn. repeat split.
Qed.

(** C9. No exception leaves [HttpClient::processRequest]: whatever is
    raised while connecting, serializing, sending, receiving or parsing is
    caught, written to the log at the error level (which no log level
    filters out), and the call returns with nothing done after the failure.
    And whenever a response has been parsed whose keep-alive flag is false,
    the call ends with the manager disconnected: the socket released and
    closed, the flag down. *)
Theorem processRequest_contains_failures :
  forall (request : HttpRequest.t) (ip port : string) (w : world),
    (forall e, fst (processRequest request ip port w) <> Thrown e)
    /\ (forall e w',
        process request ip port w = (Thrown e, w') ->
        processRequest request ip port w
        = (Returned tt, write [failure_line e] w')
        /\ logs (write [failure_line e] w') = logs w' ++ [failure_line e]
        /\ trace (write [failure_line e] w') = trace w')
    /\ (forall response w1,
        exchange request ip port w = (Returned (Some response), w1) ->
        HttpResponse.isKeepAlive response = false ->
        let final := snd (processRequest request ip port w) in
        fst (processRequest request ip port w) = Returned tt
        /\ mgr_socket final = None
        /\ mgr_connected final = false
        /\ (forall fd,
              mgr_socket w1 = Some fd -> (0 <= fd)%Z ->
              In (SysClose fd) (trace final))).
Proof.
  intros request ip port w. split; [|split].
  - intros e H.
    destruct (processRequest request ip port w) as [r w'] eqn:Hrun.
    cbn in H. subst r.
    exact (processRequest_never_throws request ip port w e w' Hrun).
  - intros e w' H. split; [|split; reflexivity].
    apply processRequest_logs_exception, H.
  - intros response w1 Hex Hk final. subst final.
    assert (Hrun : processRequest request ip port w = conclude response w1).
    { unfold processRequest, try_catch, process, bind. rewrite Hex.
      destruct (conclude_disconnects response w1 Hk) as (Hr & _).
      destruct (conclude response w1) as [r w2]. cbn in Hr. subst r.
      reflexivity. }
    rewrite Hrun. apply conclude_disconnects, Hk.
Qed.

End Orchestrator.

Section OrchestratorExamples.
Import StdString StdConv Sys ConnectionManager HttpClient.

Lemma processRequest_witness :
  fst (processRequest sample_request "127.0.0.1" "60001" closing_exchange)
  = Returned tt
  /\ mgr_socket
       (snd (processRequest sample_request "127.0.0.1" "60001"
               closing_exchange)) = None.
Proof.
  pose proof (proj2 (proj2 (processRequest_contains_failures
    sample_request "127.0.0.1" "60001" closing_exchange))
    (HttpResponse.parsed HttpResponse.closing_response)
    (snd (exchange sample_request "127.0.0.1" "60001" closing_exchange))) as H.
  cbv zeta in H.
  destruct H as (H1 & H2 & _).
  - vm_compute. reflexivity.
  - vm_compute. reflexivity.
  - split; [exact H1 | exact H2].
Defined.

Example processRequest_logs_reset :
  fst (processRequest sample_request "127.0.0.1" "60001" failing_exchange)
  = Returned tt
  /\ List.last
       (logs (snd (processRequest sample_request "127.0.0.1" "60001"
                     failing_exchange))) (Printed [])
     = failure_line (RecvError 104).
Proof. vm_compute. split; reflexivity. Qed.

End OrchestratorExamples.

(** ** The manager keeps its flag and its socket consistent *)

Section ManagerInvariant.
Import StdString StdConv Sys ConnectionManager.

Lemma keeps_bind {A B} (I : world -> Prop) (m : M A) (k : A -> M B) :
  keeps I m -> (forall a, keeps I (k a)) -> keeps I (bind m k).
Proof.
  intros Hm Hk. apply relates_bind; [|exact Hm|exact Hk].
  intros w1 w2 w3 H12 H23 H1. apply H23, H12, H1.
Qed.

Lemma keeps_try_catch {A} (I : world -> Prop) (m : M A) catches handler :
  keeps I m -> (forall e, keeps I (handler e)) ->
  keeps I (try_catch m catches handler).
Proof.
  intros Hm Hh w r w' H Hw. unfold try_catch in H.
  destruct (m w) as [[a|e|] w1] eqn:Hrun.
  - injection H as _ <-. exact (Hm _ _ _ Hrun Hw).
  - destruct (catches e).
    + exact (Hh e _ _ _ H (Hm _ _ _ Hrun Hw)).
    + injection H as _ <-. exact (Hm _ _ _ Hrun Hw).
  - injection H as _ <-. exact (Hm _ _ _ Hrun Hw).
Qed.

Lemma same_manager_consistent w w' :
  same_manager w w' -> consistent w -> consistent w'.
Proof. intros [Hs Hc] [H1 H2]. split; rewrite ?Hs, ?Hc; assumption. Qed.

Lemma same_manager_holds_socket w w' :
  same_manager w w' -> holds_socket w -> holds_socket w'.
Proof.
  intros Hsm [Hc Hs]. split; [exact (same_manager_consistent _ _ Hsm Hc)|].
  destruct Hsm as [-> _]. exact Hs.
Qed.

Lemma keeps_of_same_manager {A} (I : world -> Prop) (m : M A) :
  (forall w w', same_manager w w' -> I w -> I w') ->
  relates same_manager m -> keeps I m.
Proof. intros HI Hm w r w' H. apply HI. exact (Hm w r w' H). Qed.

Lemma new_consistent w : consistent (new w).
Proof. split; [discriminate | intros fd; discriminate]. Qed.

(** [disconnect] always completes, with no socket and the flag down. *)
Lemma disconnect_clears w :
  fst (disconnect w) = Returned tt
  /\ mgr_socket (snd (disconnect w)) = None
  /\ mgr_connected (snd (disconnect w)) = false.
Proof.
  unfold disconnect, reset_socket, Socket.destroy, sys_close, emit, bind,
    get_socket, put_socket, put_connected, log.
  destruct (mgr_socket w) as [old|] eqn:Hso.
  - destruct (0 <=? old)%Z; repeat split.
  - repeat split. exact Hso.
Qed.

Lemma disconnect_keeps_consistent : keeps consistent disconnect.
Proof.
  intros w r w' H _. destruct (disconnect_clears w) as (_ & Hs & Hc).
  rewrite H in Hs, Hc. cbn in Hs, Hc.
  split; [rewrite Hc; discriminate | rewrite Hs; intros fd; discriminate].
Qed.

(** [isConnected] leaves the socket alone and never raises the flag. *)
Lemma isConnected_only_lowers w r w' :
  isConnected w = (r, w') ->
  mgr_socket w' = mgr_socket w
  /\ (mgr_connected w' = true -> mgr_connected w = true).
Proof.
  unfold isConnected, bind, get_socket, sys_recv, get_errno, put_connected,
    get_connected, ret.
  intros H.
  destruct (mgr_socket w) as [fd|] eqn:Hso;
    [|injection H as _ <-; split; [exact Hso | exact id]].
  destruct (script w) as [|[v|e|d] rest];
    try (injection H as _ <-; split; [exact Hso | exact id]).
  - cbn in H. destruct (negb _ && negb _) in H; cbn in H;
      injection H as _ <-; cbn; split;
      first [exact Hso | discriminate | exact id].
  - cbn in H. destruct (Z.of_nat _ =? 0)%Z in H; cbn in H.
    + injection H as _ <-. cbn. split; [exact Hso | discriminate].
    + destruct (_ && _) in H; cbn in H; injection H as _ <-;
        cbn; split; first [exact Hso | discriminate | exact id].
Qed.

Lemma isConnected_keeps_consistent : keeps consistent isConnected.
Proof.
  intros w r w' H [H1 H2].
  destruct (isConnected_only_lowers w r w' H) as [Hs Hc].
  split; rewrite Hs; [intros Ht; apply H1, Hc, Ht | exact H2].
Qed.

Lemma create_same_manager : relates same_manager Socket.create.
Proof.
  unfold Socket.create, sys_socket, sys_setsockopt.
  apply relates_bind; [apply same_manager_trans | |].
  { apply relates_bind;
      [apply same_manager_trans | apply syscall_same_manager |].
    intros fd w r w' H. injection H as _ <-.
    destruct (_ <? _)%Z; split; reflexivity. }
  intros fd. destruct (_ <? _)%Z.
  - apply relates_bind;
      [apply same_manager_trans | apply get_errno_same_manager |].
    intros e. apply relates_throw, same_manager_refl.
  - apply relates_bind;
      [apply same_manager_trans | apply syscall_same_manager |].
    intros r. destruct (_ <? _)%Z.
    + apply relates_bind;
        [apply same_manager_trans | apply get_errno_same_manager |].
      intros e. apply relates_throw, same_manager_refl.
    + apply relates_ret, same_manager_refl.
Qed.

(** A socket that has been created owns a descriptor. *)
Lemma create_returns_descriptor w fd w' :
  Socket.create w = (Returned fd, w') -> (0 <= fd)%Z.
Proof.
  unfold Socket.create, sys_socket, sys_setsockopt, syscall, bind, get_errno.
  destruct (script w) as [|[v|e|d] rest]; try discriminate.
  cbn. rewrite of_N_ltb0. cbn.
  destruct rest as [|[o|e|d] rest]; try discriminate.
  cbn. rewrite of_N_ltb0. intros [= <- _]. lia.
Qed.

Lemma try_connect_keeps_holds_socket fd addr :
  keeps holds_socket (try_connect fd addr).
Proof.
  unfold try_connect. apply keeps_try_catch.
  - apply keeps_bind.
    { apply keeps_of_same_manager;
        [apply same_manager_holds_socket | apply connect_same_manager]. }
    intros _. apply keeps_bind.
    { apply keeps_of_same_manager;
        [apply same_manager_holds_socket | apply log_same_manager]. }
    intros _. apply keeps_bind.
    { intros w r w' H [[H1 H2] H3]. injection H as _ <-.
      split; [split|]; cbn; [intros _; exact H3 | exact H2 | exact H3]. }
    intros _ w r w' H Hw. injection H as _ <-. exact Hw.
  - intros e. apply keeps_bind.
    { apply keeps_of_same_manager;
        [apply same_manager_holds_socket | apply log_same_manager]. }
    intros _ w r w' H Hw. injection H as _ <-. exact Hw.
Qed.

(** [connect] leaves the manager consistent, however it ends. *)
Lemma connect_keeps_consistent ip port : keeps consistent (connect ip port).
Proof.
  intros w r w' Hrun Hw. unfold connect in Hrun.
  destruct (empty ip || empty port); [injection Hrun as _ <-; exact Hw|].
  unfold bind at 1 in Hrun. unfold get_socket at 1 in Hrun.
  unfold bind at 1 in Hrun.
  assert (Hclear : exists w0,
             (match mgr_socket w with
              | Some _ => disconnect
              | None => ret tt
              end) w = (Returned tt, w0)
             /\ mgr_socket w0 = None /\ mgr_connected w0 = false).
  { destruct (mgr_socket w) as [old|] eqn:Hso.
    - destruct (disconnect_clears w) as (Hr & Hs & Hc).
      destruct (disconnect w) as [r0 w0]. cbn in Hr, Hs, Hc. subst r0.
      exists w0. repeat split; assumption.
    - exists w. split; [reflexivity|]. split; [exact Hso|].
      destruct Hw as [H1 _]. destruct (mgr_connected w); [|reflexivity].
      exfalso. apply H1; [reflexivity | exact Hso]. }
  destruct Hclear as (w0 & Hrun0 & Hs0 & Hc0). rewrite Hrun0 in Hrun.
  assert (Hw0 : consistent w0).
  { split; [rewrite Hc0; discriminate | rewrite Hs0; intros fd; discriminate]. }
  unfold bind at 1 in Hrun.
  destruct (Socket.create w0) as [[fd|e|] w1] eqn:Hcreate;
    try (injection Hrun as _ <-;
         exact (same_manager_consistent _ _
                  (create_same_manager _ _ _ Hcreate) Hw0)).
  pose proof (create_returns_descriptor _ _ _ Hcreate) as Hfd.
  pose proof (same_manager_consistent _ _
                (create_same_manager _ _ _ Hcreate) Hw0) as Hw1.
  destruct (create_same_manager _ _ _ Hcreate) as [Hs1 Hc1].
  unfold bind at 1 in Hrun. unfold put_socket at 1 in Hrun.
  assert (Hhold : holds_socket (set_socket (Some fd) w1)).
  { split; [split|]; cbn.
    - intros _. discriminate.
    - intros fd' [= <-]. exact Hfd.
    - discriminate. }
  revert Hrun Hhold. generalize (set_socket (Some fd) w1). intros w2 Hrun Hhold.
  enough (Hk : holds_socket w') by exact (proj1 Hk).
  revert Hhold. revert w2 r w' Hrun.
  change (keeps holds_socket
    (bind (stoi_or_throw port) (fun port_number =>
       bind (fun w => (Returned (inet_pton w ip), w)) (fun converted =>
         if (converted <=? 0)%Z
         then bind (log [Str "Invalid IP address: "; Str ip] ERROR)
                (fun _ => ret false)
         else bind (log [Str "Attempting to connect to "; Str ip; Str ":";
                         Str port; Str "..."] INFO)
                (fun _ => try_connect fd
                            (mkSockaddr (htons port_number) ip)))))).
  apply keeps_bind.
  { unfold stoi_or_throw. intros w2 r2 w2' H Hh.
    destruct (stoi port 10); injection H as _ <-; exact Hh. }
  intros port_number. apply keeps_bind.
  { intros w2 r2 w2' H Hh. injection H as _ <-. exact Hh. }
  intros converted. destruct (_ <=? _)%Z.
  - apply keeps_bind.
    { apply keeps_of_same_manager;
        [apply same_manager_holds_socket | apply log_same_manager]. }
    intros _ w2 r2 w2' H Hh. injection H as _ <-. exact Hh.
  - apply keeps_bind.
    { apply keeps_of_same_manager;
        [apply same_manager_holds_socket | apply log_same_manager]. }
    intros _. apply try_connect_keeps_holds_socket.
Qed.

End ManagerInvariant.
(** ** Percent-encoding: composition, injectivity, alphabet, lengths *)

Section PercentEncodingMore.
Import StdString StdConv http_encoding.

Lemma encode_app a b : encode (a +:+ b) = encode a +:+ encode b.
Proof.
  induction a as [|c a IH].
  - rewrite !str_app_nil_l. reflexivity.
  - rewrite str_app_cons, !encode_cons, IH, str_app_assoc. reflexivity.
Qed.

Lemma decode_encode_app s t : decode (encode s +:+ t) = s +:+ decode t.
Proof.
  induction s as [|c s IH].
  - rewrite !str_app_nil_l. reflexivity.
  - rewrite encode_cons, str_app_assoc, decode_encoded_char, IH, str_app_cons.
    reflexivity.
Qed.

Lemma decode_nil : decode "" = "".
Proof. reflexivity. Qed.

Lemma size_app (s1 s2 : string) : size (s1 +:+ s2) = size s1 + size s2.
Proof. apply str_length_app. Qed.

Lemma encoded_char_size c : 1 <= size (encoded_char c) <= 3.
Proof. destruct c as [[] [] [] [] [] [] [] []]; vm_compute; lia. Qed.

Lemma encoded_char_unreserved c : all_unreserved (encoded_char c) = true.
Proof. destruct c as [[] [] [] [] [] [] [] []]; reflexivity. Qed.

Lemma all_unreserved_app s1 s2 :
  all_unreserved (s1 +:+ s2) = all_unreserved s1 && all_unreserved s2.
Proof.
  induction s1 as [|c s1 IH].
  - rewrite str_app_nil_l. reflexivity.
  - rewrite str_app_cons. cbn [all_unreserved]. rewrite IH, andb_assoc.
    reflexivity.
Qed.

Lemma decode_cons_plain c s :
  Ascii.eqb c "%" = false -> decode (String c s) = String c (decode s).
Proof.
  intros Hc. unfold decode. rewrite decode_loop_plain by exact Hc.
  rewrite decode_loop_acc, str_app_nil_l. reflexivity.
Qed.

Lemma decode_loop_invalid acc h1 h2 rest :
  (forall v, stoi (String h1 (String h2 "")) 16 <> Parsed v) ->
  decode_loop acc (String "%" (String h1 (String h2 rest)))
  = decode_loop (acc +:+ "%") (String h1 (String h2 rest)).
Proof.
  intros H.
  change (decode_loop acc (String "%" (String h1 (String h2 rest))))
    with (match stoi (String h1 (String h2 "")) 16 with
          | Parsed v => decode_loop (acc +:+ String (char_of_int v) "") rest
          | _ => decode_loop (acc +:+ "%") (String h1 (String h2 rest))
          end).
  destruct (stoi (String h1 (String h2 "")) 16) eqn:Hs;
    [exfalso; exact (H _ eq_refl) | reflexivity | reflexivity].
Qed.

Lemma decode_size_bounded n :
  forall s, size s <= n -> size (decode s) <= size s.
Proof.
  induction n as [|n IH]; intros s Hn.
  - destruct s; [vm_compute; lia | unfold size in Hn; cbn in Hn; lia].
  - destruct s as [|c rest]; [vm_compute; lia|].
    assert (Hrest : size (decode rest) <= size rest)
      by (apply IH; unfold size in *; cbn in Hn; lia).
    destruct (Ascii.eqb c "%") eqn:Hc.
    + apply Ascii.eqb_eq in Hc. subst c.
      destruct rest as [|h1 [|h2 rest']].
      * vm_compute. lia.
      * unfold decode, size. cbn. destruct (Ascii.eqb h1 "%"); vm_compute; lia.
      * unfold decode.
        destruct (stoi (String h1 (String h2 "")) 16) eqn:Hs.
        -- rewrite (decode_loop_triple _ _ _ _ _ Hs), decode_loop_acc, str_app_nil_l, size_app.
           assert (size (decode rest') <= size rest')
             by (apply IH; unfold size in *; cbn in Hn; lia).
           unfold size in *. cbn [String.length String.append]. lia.
        -- rewrite decode_loop_invalid by (intros v; rewrite Hs; discriminate).
           rewrite decode_loop_acc, str_app_nil_l, size_app.
           unfold size in *. cbn [String.length String.append] in *. lia.
        -- rewrite decode_loop_invalid by (intros v; rewrite Hs; discriminate).
           rewrite decode_loop_acc, str_app_nil_l, size_app.
           unfold size in *. cbn [String.length String.append] in *. lia.
    + rewrite decode_cons_plain by exact Hc.
      unfold size in *. cbn [String.length]. lia.
Qed.

(** Encoding distributes over concatenation, and a text that begins with
    an encoded part decodes to that part followed by the decoding of what
    comes after it. *)
Lemma encode_decode_compose a b :
  encode (a +:+ b) = encode a +:+ encode b
  /\ decode (encode a +:+ b) = a +:+ decode b
  /\ decode (encode a +:+ encode b) = a +:+ b.
Proof.
  split; [apply encode_app|]. split; [apply decode_encode_app|].
  rewrite decode_encode_app.
  pose proof (decode_encode_app b "") as H.
  rewrite str_app_nil_r, decode_nil, str_app_nil_r in H. rewrite H.
  reflexivity.
Qed.

(** X1. Encoding loses nothing and leaves nothing reserved: two texts with
    the same encoding are the same text, and the result of encoding holds
    no character of the table other than the percent sign. *)
Theorem encode_is_injective_and_unreserved :
  (forall s1 s2 : string, encode s1 = encode s2 -> s1 = s2)
  /\ (forall s : string, all_unreserved (encode s) = true).
Proof.
  split.
  - intros s1 s2 H.
    pose proof (decode_encode_app s1 "") as H1.
    pose proof (decode_encode_app s2 "") as H2.
    rewrite H, H2, decode_nil, !str_app_nil_r in H1. congruence.
  - induction s as [|c s IH]; [reflexivity|].
    rewrite encode_cons, all_unreserved_app, encoded_char_unreserved, IH.
    reflexivity.
Qed.

(** A text without a percent sign is its own decoding. *)
Lemma decode_without_percent s : mem "%" s = false -> decode s = s.
Proof.
  induction s as [|c s IH]; intros H; [reflexivity|].
  cbn [mem] in H. destruct (Ascii.eqb "%" c) eqn:Hc; [discriminate|].
  rewrite decode_cons_plain by (rewrite Ascii.eqb_sym; exact Hc).
  rewrite IH by exact H. reflexivity.
Qed.

(** Encoding never shortens a text and at most triples its length;
    decoding never lengthens one. *)
Lemma encode_decode_lengths s :
  size s <= size (encode s) <= 3 * size s
  /\ size (decode s) <= size s.
Proof.
  split; [|apply (decode_size_bounded (size s)); lia].
  induction s as [|c s IH]; [cbn; lia|].
  rewrite encode_cons, size_app. pose proof (encoded_char_size c).
  unfold size in *. cbn [String.length]. lia.
Qed.

End PercentEncodingMore.

(** ** Searching and cutting strings *)

Section StringSearch.
Import StdString.

Lemma starts_with_app pat b : starts_with pat (pat +:+ b) = true.
Proof.
  induction pat as [|c pat IH]; [reflexivity|].
  rewrite str_app_cons. cbn [starts_with]. rewrite Ascii.eqb_refl. exact IH.
Qed.

Lemma starts_with_split pat :
  forall s, starts_with pat s = true -> s = pat +:+ substr_from s (size pat).
Proof.
  induction pat as [|c pat IH]; intros s H.
  - rewrite str_app_nil_l. symmetry. apply substr_from_0.
  - destruct s as [|d s]; [discriminate|]. cbn [starts_with] in H.
    destruct (Ascii.eqb c d) eqn:Hcd; [|discriminate].
    apply Ascii.eqb_eq in Hcd. subst d.
    rewrite str_app_cons. cbn [size String.length substr_from].
    f_equal. apply IH. exact H.
Qed.

Lemma substr_from_app a b : substr_from (a +:+ b) (size a) = b.
Proof.
  induction a as [|c a IH].
  - rewrite str_app_nil_l. apply substr_from_0.
  - rewrite str_app_cons. cbn [size String.length substr_from]. exact IH.
Qed.

Lemma take_app a b : take (size a) (a +:+ b) = a.
Proof.
  induction a as [|c a IH].
  - rewrite str_app_nil_l. destruct b; reflexivity.
  - rewrite str_app_cons. cbn [size String.length take]. f_equal. exact IH.
Qed.

Lemma find_0 s pat : find s pat 0 = find0 pat s.
Proof.
  unfold find. cbn [Nat.ltb Nat.leb]. rewrite substr_from_0.
  destruct (find0 pat s); reflexivity.
Qed.

(** The text before a first occurrence, the pattern, and what follows it
    make up the string. *)
Lemma find0_split pat :
  forall s i, find0 pat s = Some i ->
    s = take i s +:+ pat +:+ substr_from s (i + size pat).
Proof.
  induction s as [|c s IH]; intros i H.
  - cbn [find0] in H. destruct (starts_with pat "") eqn:Hp; [|discriminate].
    injection H as <-. cbn [take Nat.add]. rewrite str_app_nil_l.
    apply starts_with_split. exact Hp.
  - cbn [find0] in H. destruct (starts_with pat (String c s)) eqn:Hp.
    + injection H as <-. cbn [take Nat.add]. rewrite str_app_nil_l.
      apply starts_with_split. exact Hp.
    + destruct (find0 pat s) as [j|] eqn:Hj; [|discriminate].
      injection H as <-. cbn [take substr_from Nat.add].
      rewrite str_app_cons. f_equal. apply IH. reflexivity.
Qed.

(** A string that holds the pattern has a first occurrence of it, no later
    than where it is known to be. *)
Lemma find0_app pat b :
  forall a, exists i, find0 pat (a +:+ pat +:+ b) = Some i /\ i <= size a.
Proof.
  induction a as [|c a IH].
  - exists 0. rewrite str_app_nil_l. split; [|cbn; lia].
    destruct (pat +:+ b) eqn:E; cbn [find0]; rewrite <- ?E, starts_with_app;
      reflexivity.
  - rewrite str_app_cons. cbn [find0].
    destruct (starts_with pat (String c (a +:+ pat +:+ b))).
    + exists 0. split; [reflexivity | cbn; lia].
    + destruct IH as (i & Hi & Hle). exists (S i). rewrite Hi.
      split; [reflexivity | cbn [size String.length] in *; unfold size in *; lia].
Qed.

Lemma mem_app c a b : mem c (a +:+ b) = mem c a || mem c b.
Proof.
  induction a as [|d a IH].
  - rewrite str_app_nil_l. reflexivity.
  - rewrite str_app_cons. cbn [mem]. destruct (Ascii.eqb c d); [reflexivity|].
    exact IH.
Qed.

(** In a text without a carriage return, followed by a line end, the first
    line end is the one that follows. *)
Lemma find0_CRLF_after line rest :
  mem CR line = false ->
  find0 CRLF (line +:+ CRLF +:+ rest) = Some (size line).
Proof.
  induction line as [|c line IH]; intros H.
  - rewrite str_app_nil_l. reflexivity.
  - cbn [mem] in H. destruct (Ascii.eqb CR c) eqn:Hc; [discriminate|].
    rewrite str_app_cons. cbn [find0 starts_with CRLF].
    rewrite Hc. rewrite (IH H). reflexivity.
Qed.

Lemma starts_with_size pat :
  forall s, starts_with pat s = true -> size pat <= size s.
Proof.
  induction pat as [|a pat IH]; intros [|b s] H; cbn in *; try lia;
    try discriminate.
  destruct (Ascii.eqb a b); [|discriminate]. apply IH in H.
  unfold size in *. lia.
Qed.

Lemma starts_with_longer pat t :
  forall s, starts_with pat s = true -> starts_with pat (s +:+ t) = true.
Proof.
  induction pat as [|a pat IH]; intros s H; [reflexivity|].
  destruct s as [|b s]; [discriminate|].
  rewrite str_app_cons. cbn [starts_with] in *.
  destruct (Ascii.eqb a b); [apply IH; exact H | discriminate].
Qed.

Lemma starts_with_not_longer pat t :
  forall s,
    starts_with pat s = false -> size pat <= size s ->
    starts_with pat (s +:+ t) = false.
Proof.
  induction pat as [|a pat IH]; intros s H Hsize; [discriminate|].
  destruct s as [|b s]; [unfold size in Hsize; cbn in Hsize; lia|].
  rewrite str_app_cons. cbn [starts_with] in *.
  destruct (Ascii.eqb a b); [|reflexivity].
  apply IH; [exact H | unfold size in *; cbn [String.length] in Hsize; lia].
Qed.

Lemma find0_fits pat :
  forall s i, find0 pat s = Some i -> i + size pat <= size s.
Proof.
  induction s as [|c s IH]; intros i H; cbn [find0] in H.
  - destruct (starts_with pat "") eqn:Hp; [|discriminate].
    injection H as <-. apply starts_with_size in Hp. exact Hp.
  - destruct (starts_with pat (String c s)) eqn:Hp.
    + injection H as <-. apply starts_with_size in Hp. exact Hp.
    + destruct (find0 pat s) as [j|]; [|discriminate].
      injection H as <-. specialize (IH j eq_refl).
      unfold size in *. cbn [String.length]. lia.
Qed.

(** A first occurrence stays where it is when text is added at the end. *)
Lemma find0_longer pat t :
  forall s i, find0 pat s = Some i -> find0 pat (s +:+ t) = Some i.
Proof.
  induction s as [|c s IH]; intros i H.
  - cbn [find0] in H. destruct (starts_with pat "") eqn:Hp; [|discriminate].
    injection H as <-. apply (starts_with_longer pat t) in Hp.
    destruct ("" +:+ t); cbn [find0]; rewrite Hp; reflexivity.
  - cbn [find0] in H. rewrite str_app_cons. cbn [find0].
    destruct (starts_with pat (String c s)) eqn:Hp.
    + injection H as <-. apply (starts_with_longer pat t) in Hp.
      rewrite str_app_cons in Hp. rewrite Hp. reflexivity.
    + destruct (find0 pat s) as [j|] eqn:Hj; [|discriminate].
      injection H as <-.
      pose proof (find0_fits pat s j Hj) as Hfit.
      apply (starts_with_not_longer pat t) in Hp;
        [|unfold size in *; cbn [String.length]; lia].
      rewrite str_app_cons in Hp. rewrite Hp, (IH j eq_refl). reflexivity.
Qed.

End StringSearch.

(** ** [n_utils::str_manip]: [trim] and [parseHeaderValue] *)

Section Trimming.
Import StdString n_utils.

Lemma find_first_not_of0_all set s :
  all_in set s = true -> find_first_not_of0 set s = None.
Proof.
  induction s as [|c s IH]; [reflexivity|]. cbn [all_in find_first_not_of0].
  intros H. apply andb_prop in H as [Hc Hs]. rewrite Hc, (IH Hs). reflexivity.
Qed.

Lemma find_first_not_of0_skip set pre s :
  all_in set pre = true ->
  find_first_not_of0 set (pre +:+ s)
  = option_map (Nat.add (size pre)) (find_first_not_of0 set s).
Proof.
  induction pre as [|c pre IH]; intros H.
  - rewrite str_app_nil_l. destruct (find_first_not_of0 set s); reflexivity.
  - cbn [all_in] in H. apply andb_prop in H as [Hc Hs].
    rewrite str_app_cons. cbn [find_first_not_of0]. rewrite Hc, (IH Hs).
    destruct (find_first_not_of0 set s); reflexivity.
Qed.

Lemma find_last_not_of_all set s :
  all_in set s = true -> find_last_not_of s set = None.
Proof.
  induction s as [|c s IH]; [reflexivity|]. cbn [all_in find_last_not_of].
  intros H. apply andb_prop in H as [Hc Hs]. rewrite (IH Hs), Hc. reflexivity.
Qed.

Lemma find_last_not_of_app set a b :
  find_last_not_of (a +:+ b) set
  = match find_last_not_of b set with
    | Some i => Some (size a + i)
    | None => find_last_not_of a set
    end.
Proof.
  induction a as [|c a IH].
  - rewrite str_app_nil_l. destruct (find_last_not_of b set); reflexivity.
  - rewrite str_app_cons. cbn [find_last_not_of]. rewrite IH.
    destruct (find_last_not_of b set); reflexivity.
Qed.

Lemma find_last_not_of_back set s b :
  back s = Some b -> mem b set = false ->
  find_last_not_of s set = Some (size s - 1).
Proof.
  induction s as [|c s IH]; [discriminate|]. intros Hb Hm.
  cbn [find_last_not_of]. destruct s as [|d s].
  - cbn in Hb. injection Hb as ->. cbn [find_last_not_of]. rewrite Hm.
    reflexivity.
  - rewrite (IH Hb Hm). cbn [size String.length]. f_equal. lia.
Qed.

Lemma trim_all_whitespace s : all_in whitespace s = true -> trim s = "".
Proof.
  intros H. unfold trim, find_first_not_of. cbn [Nat.ltb Nat.leb].
  rewrite substr_from_0, (find_first_not_of0_all _ _ H). reflexivity.
Qed.

Lemma all_in_app set a b : all_in set (a +:+ b) = all_in set a && all_in set b.
Proof.
  induction a as [|c a IH].
  - rewrite str_app_nil_l. reflexivity.
  - rewrite str_app_cons. cbn [all_in]. rewrite IH, andb_assoc. reflexivity.
Qed.

Lemma back_cons a s :
  back (String a s) = match s with "" => Some a | String _ _ => back s end.
Proof. destruct s; reflexivity. Qed.

Lemma back_is_some s : forall a, exists b, back (String a s) = Some b.
Proof.
  induction s as [|d s IH]; intros a.
  - exists a. reflexivity.
  - rewrite back_cons. apply IH.
Qed.

Lemma back_app_cons a y : forall x, back (x +:+ String a y) = back (String a y).
Proof.
  induction x as [|d x IH].
  - rewrite str_app_nil_l. reflexivity.
  - rewrite str_app_cons, back_cons.
    destruct (x +:+ String a y) eqn:E; [|exact IH].
    destruct x; rewrite ?str_app_nil_l, ?str_app_cons in E; discriminate.
Qed.

(** The case of a core that is not empty. *)
Lemma trim_around_core pre a core' post :
  all_in whitespace pre = true ->
  all_in whitespace post = true ->
  trimmed (String a core') = true ->
  trim (pre +:+ String a core' +:+ post) = String a core'.
Proof.
  intros Hpre Hpost Hcore.
  unfold trimmed in Hcore. cbn [front] in Hcore.
  destruct (back_is_some core' a) as (b & Hb). rewrite Hb in Hcore.
  apply andb_prop in Hcore as [Ha Hbm].
  apply negb_true_iff in Ha, Hbm.
  unfold trim, find_first_not_of. cbn [Nat.ltb Nat.leb].
  rewrite substr_from_0, (find_first_not_of0_skip _ _ _ Hpre).
  rewrite str_app_cons. cbn [find_first_not_of0]. rewrite Ha.
  cbn [option_map]. rewrite <- str_app_cons.
  rewrite find_last_not_of_app, find_last_not_of_app,
    (find_last_not_of_all _ _ Hpost), (find_last_not_of_back _ _ _ Hb Hbm).
  unfold substr. rewrite Nat.add_0_r, substr_from_app.
  match goal with
  | |- take ?n _ = _ =>
      replace n with (size (String a core'))
        by (unfold size; cbn [String.length]; lia)
  end.
  apply take_app.
Qed.

(** Every string is whitespace, a trimmed core, whitespace. *)
Lemma trim_decompose s :
  exists pre core post,
    s = pre +:+ core +:+ post
    /\ all_in whitespace pre = true
    /\ all_in whitespace post = true
    /\ trimmed core = true.
Proof.
  induction s as [|c s (pre & core & post & -> & Hpre & Hpost & Hcore)].
  - exists "", "", "". repeat split.
  - destruct (mem c whitespace) eqn:Hc.
    + exists (String c pre), core, post. rewrite str_app_cons.
      repeat split; try assumption. cbn [all_in]. rewrite Hc. exact Hpre.
    + destruct core as [|a core'].
      * exists "", (String c ""), (pre +:+ post).
        rewrite !str_app_nil_l, str_app_cons, str_app_nil_l.
        repeat split.
        -- rewrite all_in_app, Hpre, Hpost. reflexivity.
        -- unfold trimmed. cbn [front back]. rewrite Hc. reflexivity.
      * destruct (mem c "") eqn:E; [discriminate|]. clear E.
        destruct pre as [|p pre'].
        -- exists "", (String c (String a core')), post.
           rewrite !str_app_nil_l.
           repeat split; try assumption.
           unfold trimmed in *. cbn [front] in *.
           rewrite (back_cons c).
           destruct (back (String a core')); [|reflexivity].
           rewrite Hc. apply andb_prop in Hcore as [_ ->]. reflexivity.
        -- (* whitespace between the new character and the old core *)
           exists "", (String c (String p pre') +:+ String a core'), post.
           split; [rewrite str_app_nil_l, !str_app_cons, str_app_assoc;
                   reflexivity|].
           split; [reflexivity|]. split; [exact Hpost|].
           unfold trimmed in *. rewrite back_app_cons.
           rewrite str_app_cons. cbn [front] in *.
           destruct (back (String a core')); [|reflexivity].
           rewrite Hc. apply andb_prop in Hcore as [_ ->]. reflexivity.
Qed.

(** X2. [trim] removes the whitespace around a core that has none at its
    ends, and nothing else: whitespace inside the core stays. *)
Theorem trim_strips_surrounding_whitespace :
  forall pre core post : string,
    all_in whitespace pre = true ->
    all_in whitespace post = true ->
    trimmed core = true ->
    trim (pre +:+ core +:+ post) = core.
Proof.
  intros pre core post Hpre Hpost Hcore.
  destruct core as [|a core'].
  - rewrite str_app_nil_l. apply trim_all_whitespace.
    rewrite all_in_app, Hpre, Hpost. reflexivity.
  - apply trim_around_core; assumption.
Qed.

Lemma trim_strips_witness :
  all_in whitespace "  " = true
  /\ all_in whitespace (String CR "") = true
  /\ trimmed "keep-alive" = true
  /\ trim ("  " +:+ "keep-alive" +:+ String CR "") = "keep-alive".
Proof.
  split; [reflexivity|]. split; [reflexivity|]. split; [reflexivity|].
  apply (trim_strips_surrounding_whitespace "  " "keep-alive" (String CR ""));
    reflexivity.
Defined.

(** X3. Whatever the string, the result of [trim] has no whitespace at
    either end, and trimming it again changes nothing. *)
Theorem trim_idempotent :
  forall s : string, trimmed (trim s) = true /\ trim (trim s) = trim s.
Proof.
  intros s.
  destruct (trim_decompose s) as (pre & core & post & -> & H1 & H2 & H3).
  destruct core as [|a core'].
  - rewrite str_app_nil_l, trim_all_whitespace
      by (rewrite all_in_app, H1, H2; reflexivity).
    split; reflexivity.
  - rewrite (trim_around_core _ _ _ _ H1 H2 H3). split; [exact H3|].
    pose proof (trim_around_core "" a core' "" eq_refl eq_refl H3) as H.
    rewrite str_app_nil_l, str_app_nil_r in H. exact H.
Qed.

Lemma rev_app_acc s1 :
  forall s2, String.rev_app s1 s2 = String.rev s1 +:+ s2.
Proof.
  unfold String.rev. induction s1 as [|c s1 IH]; intros s2.
  - rewrite str_app_nil_l. reflexivity.
  - cbn [String.rev_app]. rewrite IH, (IH (String c "")), str_app_assoc,
      str_app_cons, str_app_nil_l. reflexivity.
Qed.

Lemma rev_cons c s : String.rev (String c s) = String.rev s +:+ String c "".
Proof. unfold String.rev at 1. cbn [String.rev_app]. apply rev_app_acc. Qed.

Lemma getlines_aux_line l :
  forall cur s,
    mem LF l = false ->
    getlines_aux cur (l +:+ String LF s)
    = (String.rev cur +:+ l) :: getlines_aux "" s.
Proof.
  induction l as [|c l IH]; intros cur s H.
  - rewrite str_app_nil_l, str_app_nil_r. cbn [getlines_aux].
    rewrite Ascii.eqb_refl. reflexivity.
  - cbn [mem] in H. destruct (Ascii.eqb LF c) eqn:Hc; [discriminate|].
    rewrite str_app_cons. cbn [getlines_aux].
    rewrite Ascii.eqb_sym, Hc, (IH _ _ H).
    rewrite rev_cons, str_app_assoc, str_app_cons, str_app_nil_l. reflexivity.
Qed.

Lemma getlines_line l s :
  mem LF l = false -> getlines (l +:+ String LF s) = l :: getlines s.
Proof.
  intros H. unfold getlines. rewrite (getlines_aux_line _ _ _ H).
  change (String.rev "") with "". rewrite str_app_nil_l. reflexivity.
Qed.

Lemma getlines_join before s :
  Forall (fun l => mem LF l = false) before ->
  getlines (join_lines before +:+ s) = before ++ getlines s.
Proof.
  induction 1 as [|l before Hl _ IH].
  - cbn [join_lines]. rewrite str_app_nil_l. reflexivity.
  - cbn [join_lines]. rewrite str_app_assoc, str_app_cons.
    rewrite (getlines_line _ _ Hl), IH. reflexivity.
Qed.

Lemma find_skip {A} (f : A -> bool) (l1 l2 : list A) :
  Forall (fun x => f x = false) l1 -> List.find f (l1 ++ l2) = List.find f l2.
Proof.
  induction 1 as [|x l1 Hx _ IH]; [reflexivity|].
  cbn [List.find app]. rewrite Hx. exact IH.
Qed.

(** X4. [parseHeaderValue] gives the trimmed value of the first line that
    begins with the key and a colon; lines before it that do not begin so
    are passed over. *)
Theorem parseHeaderValue_first_match :
  forall (before : list string) (key value rest : string),
    Forall (fun l => mem LF l = false) before ->
    Forall (fun l => starts_with (key +:+ ":") l = false) before ->
    mem LF key = false ->
    mem LF value = false ->
    parseHeaderValue
      (join_lines before +:+ (key +:+ ":" +:+ value) +:+ String LF rest) key
    = Some (trim value).
Proof.
  intros before key value rest Hb1 Hb2 Hk Hv.
  unfold parseHeaderValue.
  rewrite (getlines_join _ _ Hb1).
  rewrite getlines_line
    by (rewrite !mem_app, Hk, Hv; reflexivity).
  rewrite (find_skip _ _ _ Hb2). cbn [List.find].
  rewrite <- str_app_assoc, starts_with_app, substr_from_app. reflexivity.
Qed.

Lemma parseHeaderValue_witness :
  parseHeaderValue
    (join_lines ["HTTP/1.1 200 OK" +:+ String CR ""; "Content-Length: 12" +:+ String CR ""]
     +:+ ("content-length" +:+ ":" +:+ (" 10" +:+ String CR ""))
     +:+ String LF "Connection: close")
    "content-length"
  = Some (trim (" 10" +:+ String CR "")).
Proof.
  apply (parseHeaderValue_first_match
           ["HTTP/1.1 200 OK" +:+ String CR ""; "Content-Length: 12" +:+ String CR ""]
           "content-length" (" 10" +:+ String CR "") "Connection: close");
    repeat constructor.
Defined.

End Trimming.

(** ** [HttpMessage]: removing a header, and what an update leaves alone *)

Section HeaderRemoval.
Import HttpMessage.

(** X5. Removing a header is insensitive to the case of the key: after a
    header has been set, removing it under a key that differs only in case
    reports that it was there and leaves no value under either key; a
    second removal finds nothing; and a message that did not have the
    header gets its table back. *)
Theorem removeHeader_erases :
  forall (m : HttpMessage.t) (k1 k2 v : string),
    differ_only_in_case k1 k2 ->
    let r := removeHeader (setHeader m k1 v) k2 in
    fst r = true
    /\ getHeader (snd r) k1 = None
    /\ getHeader (snd r) k2 = None
    /\ fst (removeHeader (snd r) k1) = false
    /\ (getHeader m k1 = None -> headers (snd r) = headers m).
Proof.
  intros m k1 k2 v Hk. apply differ_only_in_case_toLower in Hk.
  unfold removeHeader, setHeader, getHeader. cbn [fst snd headers].
  rewrite <- Hk, lookup_insert_eq, delete_insert_eq, lookup_delete_eq.
  repeat split. intros Hnone. apply delete_id. exact Hnone.
Qed.

Lemma removeHeader_witness :
  differ_only_in_case "Content-Type" "content-type"
  /\ fst (removeHeader (setHeader new "Content-Type" "text/html") "content-type")
     = true.
Proof.
  assert (H : differ_only_in_case "Content-Type" "content-type").
  { repeat (constructor;
            [first [ left; reflexivity
                   | right; left; split; reflexivity
                   | right; right; split; reflexivity ] | ]).
    constructor. }
  split; [exact H|].
  exact (proj1 (removeHeader_erases new "Content-Type" "content-type"
                  "text/html" H)).
Defined.

(** Setting or removing a header changes nothing for a key that is a
    different one even when case is ignored, and touches neither the
    version nor the body. *)
Lemma header_update_is_local m k1 k2 v :
  n_utils.toLower k1 <> n_utils.toLower k2 ->
  getHeader (setHeader m k1 v) k2 = getHeader m k2
  /\ getHeader (snd (removeHeader m k1)) k2 = getHeader m k2
  /\ getVersion (setHeader m k1 v) = getVersion m
  /\ getBody (setHeader m k1 v) = getBody m
  /\ getVersion (snd (removeHeader m k1)) = getVersion m
  /\ getBody (snd (removeHeader m k1)) = getBody m.
Proof.
  intros Hk.
  unfold removeHeader, setHeader, getHeader, getVersion, getBody.
  cbn [fst snd headers version body].
  rewrite lookup_insert_ne by exact Hk.
  rewrite lookup_delete_ne by exact Hk.
  repeat split.
Qed.

End HeaderRemoval.

(** ** Decimal texts: [std::to_string] read back by [std::stoi] and
    [std::stoul] *)

Section DecimalTexts.
Import StdString StdConv.

Lemma small_digit d : (0 <= d < 10)%Z ->
  d = 0%Z \/ d = 1%Z \/ d = 2%Z \/ d = 3%Z \/ d = 4%Z \/ d = 5%Z \/ d = 6%Z
  \/ d = 7%Z \/ d = 8%Z \/ d = 9%Z.
Proof. lia. Qed.

Lemma digit_char_facts d : (0 <= d < 10)%Z ->
  digit_in_base 10 (digit_char d) = Some d
  /\ isspace (digit_char d) = false
  /\ isdigit (digit_char d) = true
  /\ Ascii.eqb (digit_char d) "-" = false
  /\ Ascii.eqb (digit_char d) "+" = false.
Proof.
  intros H. apply small_digit in H.
  repeat (destruct H as [-> | H]; [repeat split; reflexivity|]).
  subst d. repeat split; reflexivity.
Qed.

Lemma not_digit_in_base c : isdigit c = false -> digit_in_base 10 c = None.
Proof. destruct c as [[] [] [] [] [] [] [] []]; intros H; try reflexivity; discriminate. Qed.

Lemma digit_is_no_space c : isdigit c = true ->
  isspace c = false /\ Ascii.eqb c "-" = false /\ Ascii.eqb c "+" = false
  /\ exists d, digit_in_base 10 c = Some d.
Proof.
  destruct c as [[] [] [] [] [] [] [] []]; intros H; try discriminate;
    repeat split; eexists; reflexivity.
Qed.

(** Reading the digits [to_string_aux] has written gives the number. *)
Lemma read_to_string_aux fuel :
  forall v acc,
    (0 <= v < 2 ^ Z.of_nat (S fuel))%Z ->
    read_digits 10 None (to_string_aux (S fuel) v acc)
    = read_digits 10 (Some v) acc.
Proof.
  induction fuel as [|fuel IH]; intros v acc Hv.
  - cbn [to_string_aux]. change (2 ^ Z.of_nat 1)%Z with 2%Z in Hv.
    destruct (v <? 10)%Z eqn:E; [|lia].
    cbn [read_digits].
    assert (Hd : (0 <= v mod 10 < 10)%Z) by (apply Z.mod_pos_bound; lia).
    destruct (digit_char_facts _ Hd) as (-> & _).
    rewrite Z.mod_small by lia. reflexivity.
  - remember (S fuel) as f eqn:Hf.
    cbn [to_string_aux].
    assert (Hd : (0 <= v mod 10 < 10)%Z) by (apply Z.mod_pos_bound; lia).
    destruct (v <? 10)%Z eqn:E.
    + cbn [read_digits]. destruct (digit_char_facts _ Hd) as (-> & _).
      rewrite Z.mod_small by lia. reflexivity.
    + subst f. rewrite IH.
      * cbn [read_digits]. destruct (digit_char_facts _ Hd) as (-> & _).
        f_equal. f_equal.
        pose proof (Z.div_mod v 10 ltac:(lia)). lia.
      * rewrite Nat2Z.inj_succ, Z.pow_succ_r in Hv by lia.
        split; [apply Z.div_pos; lia|].
        apply Z.div_lt_upper_bound; lia.
Qed.

(** What [to_string_aux] writes begins with a digit. *)
Lemma to_string_aux_front fuel :
  forall v acc,
    (0 <= v)%Z ->
    exists d rest,
      (0 <= d < 10)%Z
      /\ to_string_aux (S fuel) v acc = String (digit_char d) rest.
Proof.
  induction fuel as [|fuel IH]; intros v acc Hv.
  - cbn [to_string_aux]. exists (v mod 10)%Z.
    destruct (v <? 10)%Z; eexists; (split; [apply Z.mod_pos_bound; lia|]);
      reflexivity.
  - remember (S fuel) as f eqn:Hf. cbn [to_string_aux].
    destruct (v <? 10)%Z.
    + exists (v mod 10)%Z. eexists. split; [apply Z.mod_pos_bound; lia|].
      reflexivity.
    + subst f. apply IH. apply Z.div_pos; lia.
Qed.

Lemma log2_fuel v : (0 <= v)%Z -> (0 <= v < 2 ^ Z.of_nat (S (Z.to_nat (Z.log2 v))))%Z.
Proof.
  intros Hv. split; [exact Hv|].
  rewrite Nat2Z.inj_succ, Z2Nat.id by apply Z.log2_nonneg.
  destruct (Z.eq_dec v 0%Z) as [->|Hne]; [reflexivity|].
  apply Z.log2_spec. lia.
Qed.

Lemma scan_to_string v :
  (0 <= v)%Z -> scan (to_string v) 10 = Some (false, v).
Proof.
  intros Hv. unfold to_string. destruct (v <? 0)%Z eqn:E; [lia|].
  destruct (to_string_aux_front (Z.to_nat (Z.log2 v)) v "" Hv)
    as (d & rest & Hd & Hs).
  destruct (digit_char_facts d Hd) as (_ & Hsp & _ & Hm & Hp).
  unfold scan. rewrite Hs. cbn [skip_space]. rewrite Hsp.
  cbn [read_sign]. rewrite Hm, Hp. rewrite <- Hs.
  unfold skip_hex_prefix. cbn [Z.eqb Pos.eqb].
  rewrite read_to_string_aux by (apply log2_fuel; exact Hv).
  reflexivity.
Qed.

Lemma stoul_to_string v :
  (0 <= v <= ULONG_MAX)%Z -> stoul (to_string v) = Parsed v.
Proof.
  intros Hv. unfold stoul. rewrite scan_to_string by lia.
  destruct (ULONG_MAX <? v)%Z eqn:E; [lia|]. reflexivity.
Qed.

Lemma stoi_to_string v :
  (0 <= v <= INT_MAX)%Z -> stoi (to_string v) 10 = Parsed v.
Proof.
  intros Hv. unfold stoi. rewrite scan_to_string by lia.
  unfold INT_MIN, INT_MAX in *.
  destruct ((- 2 ^ 31 <=? v)%Z && (v <=? 2 ^ 31 - 1)%Z) eqn:E; [reflexivity|].
  apply andb_false_iff in E as [E|E]; lia.
Qed.

(** Digits followed by something that is not a digit read as the digits
    alone. *)
Lemma read_digits_prefix suffix :
  match front suffix with Some c => isdigit c = false | None => True end ->
  forall ds acc,
    all_in "0123456789" ds = true ->
    read_digits 10 acc (ds +:+ suffix) = read_digits 10 acc ds.
Proof.
  intros Hs. induction ds as [|c ds IH]; intros acc Hds.
  - rewrite str_app_nil_l. cbn [read_digits].
    destruct suffix as [|c s]; [reflexivity|]. cbn in Hs.
    cbn [read_digits]. rewrite (not_digit_in_base _ Hs). reflexivity.
  - cbn [all_in] in Hds. apply andb_prop in Hds as [_ Hds].
    rewrite str_app_cons. cbn [read_digits].
    destruct (digit_in_base 10 c); [apply IH; exact Hds | reflexivity].
Qed.

Lemma to_string_aux_digits fuel :
  forall v acc,
    (0 <= v)%Z ->
    all_in "0123456789" acc = true ->
    all_in "0123456789" (to_string_aux fuel v acc) = true.
Proof.
  induction fuel as [|fuel IH]; intros v acc Hv Hacc; [exact Hacc|].
  cbn [to_string_aux].
  assert (Hd : (0 <= v mod 10 < 10)%Z) by (apply Z.mod_pos_bound; lia).
  assert (Hin : all_in "0123456789" (String (digit_char (v mod 10)) acc) = true).
  { cbn [all_in]. rewrite Hacc, andb_true_r.
    apply small_digit in Hd.
    repeat (destruct Hd as [-> | Hd]; [reflexivity|]). rewrite Hd.
    reflexivity. }
  destruct (v <? 10)%Z; [exact Hin|].
  apply IH; [apply Z.div_pos; lia | exact Hin].
Qed.

Lemma stoi_to_string_prefix v suffix :
  (0 <= v <= INT_MAX)%Z ->
  match front suffix with Some c => isdigit c = false | None => True end ->
  stoi (to_string v +:+ suffix) 10 = Parsed v.
Proof.
  intros Hv Hs.
  assert (Hscan : scan (to_string v +:+ suffix) 10 = Some (false, v)).
  { unfold to_string. destruct (v <? 0)%Z eqn:E; [lia|].
    destruct (to_string_aux_front (Z.to_nat (Z.log2 v)) v "" (proj1 Hv))
      as (d & rest & Hd & Hsd).
    destruct (digit_char_facts d Hd) as (_ & Hsp & _ & Hm & Hp).
    pose proof (to_string_aux_digits (S (Z.to_nat (Z.log2 v))) v ""
                  (proj1 Hv) eq_refl) as Hall.
    unfold scan. rewrite Hsd, str_app_cons. cbn [skip_space]. rewrite Hsp.
    cbn [read_sign]. rewrite Hm, Hp. rewrite <- str_app_cons, <- Hsd.
    unfold skip_hex_prefix. cbn [Z.eqb Pos.eqb].
    rewrite (read_digits_prefix _ Hs) by exact Hall.
    rewrite read_to_string_aux by (apply log2_fuel; lia).
    reflexivity. }
  unfold stoi. rewrite Hscan. unfold INT_MIN, INT_MAX in *.
  destruct ((- 2 ^ 31 <=? v)%Z && (v <=? 2 ^ 31 - 1)%Z) eqn:E; [reflexivity|].
  apply andb_false_iff in E as [E|E]; lia.
Qed.

End DecimalTexts.

(** ** [http::status], [http::method] and the names of the log levels *)

Section StatusCodes.
Import StdString StdConv http_status.

Lemma find_code_in (c : Code) (l : list (Code * string)) :
  In c (List.map fst l) ->
  exists p, List.find (fun p => Z.eqb (fst p) c) l = Some p /\ fst p = c.
Proof.
  intros H. apply in_map_iff in H as (q & Hq & Hin).
  destruct (List.find (fun p => Z.eqb (fst p) c) l) as [p|] eqn:F.
  - exists p. split; [reflexivity|].
    apply find_some in F as [_ F]. apply Z.eqb_eq. exact F.
  - apply (find_none _ _ F) in Hin.
    change ((fst q =? c)%Z = false) in Hin.
    rewrite Hq, Z.eqb_refl in Hin. discriminate.
Qed.

Lemma find_code_found (c : Code) (l : list (Code * string)) p :
  List.find (fun p => Z.eqb (fst p) c) l = Some p -> In (fst p) (List.map fst l).
Proof.
  intros H. apply find_some in H as [H _]. apply in_map. exact H.
Qed.

Lemma INVALID_in_codes : In INVALID codes.
Proof.
  unfold codes. apply in_map_iff. exists (INVALID, "Invalid").
  split; [reflexivity|]. unfold REASON_MAP.
  repeat (first [left; reflexivity | right]).
Qed.

Lemma codes_are_ints c : In c codes -> (0 <= c <= INT_MAX)%Z.
Proof.
  unfold codes, REASON_MAP. cbn [List.map fst In]. unfold INT_MAX.
  intros H. repeat (destruct H as [<- | H]; [lia|]). contradiction.
Qed.

Lemma fromString_in_codes str : In (fromString str) codes.
Proof.
  unfold fromString.
  destruct (stoi str 10) as [v| |]; try apply INVALID_in_codes.
  destruct (List.find (fun p => Z.eqb (fst p) v) REASON_MAP) as [p|] eqn:E;
    [|apply INVALID_in_codes].
  apply (find_code_found _ _ _ E).
Qed.

(** X6. Whatever the text, [fromString] gives a code of the enumeration,
    never a number outside it; in particular a text that is no number, or
    a number that is no code, gives [INVALID]. *)
Theorem fromString_yields_code :
  forall str : string,
    In (fromString str) codes
    /\ (forall v, stoi str 10 = Parsed v -> ~ In v codes ->
          fromString str = INVALID)
    /\ ((forall v, stoi str 10 <> Parsed v) -> fromString str = INVALID).
Proof.
  intros str. split; [apply fromString_in_codes|]. split.
  - intros v Hv Hnot. unfold fromString. rewrite Hv.
    destruct (List.find (fun p => Z.eqb (fst p) v) REASON_MAP) as [p|] eqn:E;
      [|reflexivity].
    exfalso. apply Hnot.
    pose proof (find_code_found _ _ _ E) as Hin.
    apply find_some in E as [_ E]. apply Z.eqb_eq in E. rewrite <- E.
    exact Hin.
  - intros Hno. unfold fromString.
    destruct (stoi str 10) as [v| |]; [exfalso; exact (Hno v eq_refl)| |];
      reflexivity.
Qed.

(** X7. [fromString] reads the digits at the front and ignores whatever
    follows them: the decimal text of a code reads back as that code, and
    so does that text followed by anything that does not begin with a
    digit. *)
Theorem fromString_reads_leading_digits :
  forall (c : Code) (suffix : string),
    In c codes ->
    match front suffix with Some d => isdigit d = false | None => True end ->
    fromString (getCode c) = c
    /\ fromString (getCode c +:+ suffix) = c.
Proof.
  intros c suffix Hc Hs. unfold fromString, getCode.
  rewrite stoi_to_string by (apply codes_are_ints; exact Hc).
  rewrite stoi_to_string_prefix
    by (first [apply codes_are_ints; exact Hc | exact Hs]).
  destruct (find_code_in c REASON_MAP Hc) as (p & -> & Hp).
  split; exact Hp.
Qed.

Lemma fromString_leading_digits_witness :
  In 200%Z codes
  /\ match front "OK" with Some d => isdigit d = false | None => True end
  /\ fromString (getCode 200%Z +:+ "OK") = 200%Z.
Proof.
  assert (H : In 200%Z codes)
    by (unfold codes, REASON_MAP; cbn [List.map fst];
        repeat (first [left; reflexivity | right])).
  split; [exact H|]. split; [reflexivity|].
  exact (proj2 (fromString_reads_leading_digits 200%Z "OK" H eq_refl)).
Defined.

End StatusCodes.

Section Methods.
Import http_method.

(** X8. The name of a method reads back as that method; a text that is
    taken for a valid method is the name of that method; the valid methods
    are all but [INVALID]. *)
Theorem method_names_round_trip :
  (forall m : Method, fromString (toString m) = m)
  /\ (forall str : string,
        fromString str = INVALID \/ toString (fromString str) = str)
  /\ (forall m : Method, isValid m = negb (Method_eqb m INVALID)).
Proof.
  split; [intros []; reflexivity|]. split; [|intros []; reflexivity].
  intros str. unfold fromString, METHOD_MAP. cbn [List.find snd fst].
  repeat match goal with
         | |- context [String.eqb ?a str] =>
             destruct (String.eqb a str) eqn:E;
               [apply String.eqb_eq in E; subst str; right; reflexivity
               |clear E]
         end.
  left. reflexivity.
Qed.

End Methods.

Section LogLevels.
Import Sys Logger.

(** The name of a level reads back as that level, and a text that is not
    the name of a level is taken for [INFO]. *)
Lemma level_names_round_trip :
  (forall l : LogLevel, toEnum (toString l) = l)
  /\ (forall str : string, toString (toEnum str) = str \/ toEnum str = INFO).
Proof.
  split; [intros []; reflexivity|].
  intros str. unfold toEnum.
  repeat match goal with
         | |- context [String.eqb str ?a] =>
             destruct (String.eqb str a) eqn:E;
               [apply String.eqb_eq in E; subst str; left; reflexivity
               |clear E]
         end.
  right. reflexivity.
Qed.

End LogLevels.

(** ** [n_utils::io_style::seperator] *)

Section Separator.
Import StdString StdConv io_style.

Lemma size_fill n c : size (fill n c) = n.
Proof. induction n as [|n IH]; [reflexivity|]. cbn [fill size String.length]. f_equal. exact IH. Qed.

(** X9. A title set in a line. With room for the title and a space on each
    side the line has exactly the width asked for; a width one short of
    that gives a line two characters too long; a width shorter still
    terminates the program. *)
Theorem seperator_widths :
  forall (title : string) (fillChar : ascii) (lineWidth : Z),
    (0 <= lineWidth <= INT_MAX)%Z ->
    (Z.of_nat (size title) <= INT_MAX)%Z ->
    (title = "" ->
     seperator title fillChar lineWidth
     = Some (fill (Z.to_nat lineWidth) fillChar))
    /\ ((Z.of_nat (size title) + 2 <= lineWidth)%Z \/ title = "" ->
        exists s,
          seperator title fillChar lineWidth = Some s
          /\ Z.of_nat (size s) = lineWidth)
    /\ (title <> "" -> lineWidth = (Z.of_nat (size title) + 1)%Z ->
        seperator title fillChar lineWidth
        = Some (" " +:+ title +:+ " " +:+ String fillChar ""))
    /\ (title <> "" -> (lineWidth <= Z.of_nat (size title))%Z ->
        seperator title fillChar lineWidth = None).
Proof.
  intros title fillChar lineWidth Hw Ht.
  assert (Hneg : (lineWidth <? 0)%Z = false) by lia.
  split; [|split; [|split]].
  - intros ->. unfold seperator. rewrite Hneg. reflexivity.
  - intros H. unfold seperator. rewrite Hneg.
    destruct title as [|c title'] eqn:Etitle.
    + cbn [empty]. eexists. split; [reflexivity|].
      rewrite size_fill. lia.
    + destruct H as [H|H]; [|discriminate]. cbn [empty]. cbv zeta.
      set (tp := (lineWidth - Z.of_nat (size (String c title')) - 2)%Z) in *.
      assert (Htp : (0 <= tp)%Z) by (unfold tp; lia).
      pose proof (Z.quot_rem' tp 2) as Hqr.
      pose proof (Z.rem_bound_pos tp 2 Htp ltac:(lia)) as Hr.
      assert (Hq : (0 <= Z.quot tp 2)%Z) by (apply Z.quot_pos; lia).
      destruct (Z.quot tp 2 <? 0)%Z eqn:Eq; [lia|].
      eexists. split; [reflexivity|].
      assert (Hlen : (tp = lineWidth - Z.of_nat (size (String c title')) - 2)%Z)
        by reflexivity.
      clearbody tp.
      remember (Z.quot tp 2) as q eqn:Eqq. remember (Z.rem tp 2) as r eqn:Err.
      destruct (r =? 0)%Z eqn:Er; cbn [negb];
        [apply Z.eqb_eq in Er | apply Z.eqb_neq in Er];
        rewrite ?size_app, !size_fill; unfold size in *;
        cbn [String.length] in *; lia.
  - intros Hne ->. unfold seperator. rewrite Hneg.
    destruct title as [|c title']; [contradiction|]. cbn [empty]. cbv zeta.
    replace (Z.of_nat (size (String c title')) + 1
             - Z.of_nat (size (String c title')) - 2)%Z with (-1)%Z by lia.
    change (Z.quot (-1) 2) with 0%Z. change (Z.rem (-1) 2) with (-1)%Z.
    cbn [Z.ltb Z.compare Z.eqb negb Z.to_nat fill].
    rewrite str_app_nil_l, str_app_nil_r, !str_app_assoc. reflexivity.
  - intros Hne Hle. unfold seperator. rewrite Hneg.
    destruct title as [|c title']; [contradiction|]. cbn [empty]. cbv zeta.
    set (tp := (lineWidth - Z.of_nat (size (String c title')) - 2)%Z) in *.
    assert (Htp : (tp <= -2)%Z) by (unfold tp; lia).
    assert (Hq : (Z.quot tp 2 < 0)%Z).
    { pose proof (Z.quot_rem' tp 2) as Hqr.
      pose proof (Z.rem_bound_pos_neg tp 2) as Hr.
      clearbody tp.
      remember (Z.quot tp 2) as q eqn:Eqq. remember (Z.rem tp 2) as r eqn:Err.
      lia. }
    destruct (Z.quot tp 2 <? 0)%Z eqn:Eq; [reflexivity | lia].
Qed.

Lemma seperator_widths_witness :
  exists s,
    seperator "HTTP REQUEST" "=" 24 = Some s /\ Z.of_nat (size s) = 24%Z.
Proof.
  apply (seperator_widths "HTTP REQUEST" "=" 24);
    [vm_compute; split; discriminate | vm_compute; discriminate
    | left; vm_compute; discriminate].
Defined.

End Separator.

(** ** [InputHandler]: the port, the request, the body of the form *)

Section UserInput.
Import StdString StdConv Sys InputHandler.

(** X10. A port the validator accepts is a number from 1 to 65535 for
    [std::stoi]: the conversion in [ConnectionManager::connect] raises
    nothing for it, and the sixteen bits [htons] makes of it still tell the
    port, since exchanging the two bytes again gives it back. Two accepted
    ports that differ as numbers are sent to different [sin_port]
    values. *)
Theorem checkValidPort_sound :
  forall port : string,
    checkValidPort port = true ->
    exists portNum : Z,
      stoi port 10 = Parsed portNum
      /\ (1 <= portNum <= 65535)%Z
      /\ (forall w,
            ConnectionManager.stoi_or_throw port w = (Returned portNum, w))
      /\ (0 <= ConnectionManager.htons portNum < 65536)%Z
      /\ ConnectionManager.htons (ConnectionManager.htons portNum) = portNum
      /\ (forall (other : string) (otherNum : Z),
            checkValidPort other = true ->
            stoi other 10 = Parsed otherNum ->
            ConnectionManager.htons otherNum = ConnectionManager.htons portNum ->
            otherNum = portNum).
Proof.
  intros port H.
  destruct (checkValidPort_parses port H) as (v & E & Hv).
  exists v. split; [exact E|]. split; [exact Hv|]. split.
  { intros w. unfold ConnectionManager.stoi_or_throw. rewrite E. reflexivity. }
  split; [apply htons_sixteen_bits|].
  split; [apply htons_involutive; lia|].
  intros other u Ho Eo Heq.
  destruct (checkValidPort_parses other Ho) as (u' & Eo' & Hu).
  rewrite Eo in Eo'. injection Eo' as <-.
  rewrite <- (htons_involutive u), <- (htons_involutive v) by lia.
  rewrite Heq. reflexivity.
Qed.

Lemma checkValidPort_witness :
  stoi "60001" 10 = Parsed 60001%Z
  /\ ConnectionManager.htons 60001 = 25066%Z
  /\ ConnectionManager.htons (ConnectionManager.htons 60001) = 60001%Z.
Proof.
  destruct (checkValidPort_sound "60001" eq_refl)
    as (portNum & E & _ & _ & _ & Hback & _).
  assert (Hp : portNum = 60001%Z)
    by (vm_compute in E; injection E as <-; reflexivity).
  subst portNum. split; [exact E|]. split; [reflexivity | exact Hback].
Defined.

Lemma getHeader_request_same r k1 k2 v :
  n_utils.toLower k1 = n_utils.toLower k2 ->
  HttpMessage.getHeader (HttpRequest.msg (HttpRequest.setHeader r k1 v)) k2
  = Some v.
Proof. apply getHeader_setHeader_same_lower. Qed.

Lemma getHeader_request_other r k1 k2 v :
  n_utils.toLower k1 <> n_utils.toLower k2 ->
  HttpMessage.getHeader (HttpRequest.msg (HttpRequest.setHeader r k1 v)) k2
  = HttpMessage.getHeader (HttpRequest.msg r) k2.
Proof. apply getHeader_setHeader_other. Qed.

Ltac header_lookup :=
  repeat first
    [ rewrite getHeader_request_same by reflexivity
    | rewrite getHeader_request_other by (vm_compute; discriminate) ].

(** X11. A POST request announces its body: the [Content-Length] header is
    the decimal text of the length of the body and reads back as that
    length, the body is the one given, the connection is to be closed. A
    GET request has no body, no [Content-Length], and asks to keep the
    connection. Both name the host and the port. *)
Theorem buildRequest_headers :
  forall ip port uri body : string,
    (Z.of_nat (size body) <= ULONG_MAX)%Z ->
    let post := buildRequest ip port http_method.POST uri body in
    let get := buildRequest ip port http_method.GET uri body in
    let header r k := HttpMessage.getHeader (HttpRequest.msg r) k in
    (exists contentLength,
        header post "Content-Length" = Some contentLength
        /\ stoul contentLength = Parsed (Z.of_nat (size body)))
    /\ HttpMessage.getBody (HttpRequest.msg post) = body
    /\ header post "Connection" = Some "close"
    /\ header post "Content-Type" = Some "application/x-www-form-urlencoded"
    /\ HttpMessage.getBody (HttpRequest.msg get) = ""
    /\ header get "Content-Length" = None
    /\ header get "Connection" = Some "keep-alive"
    /\ header post "Host" = Some (ip +:+ ":" +:+ port)
    /\ header get "Host" = Some (ip +:+ ":" +:+ port)
    /\ HttpRequest.getStatusLine post = "POST " +:+ uri +:+ " HTTP/1.1"
    /\ HttpRequest.getStatusLine get = "GET " +:+ uri +:+ " HTTP/1.1".
Proof.
  intros ip port uri body Hb post get header.
  unfold header, post, get, buildRequest.
  split.
  - eexists. split.
    + header_lookup. reflexivity.
    + apply stoul_to_string. unfold ULONG_MAX in *. lia.
  - repeat split; header_lookup; reflexivity.
Qed.

Lemma buildRequest_headers_witness :
  exists contentLength,
    HttpMessage.getHeader
      (HttpRequest.msg
         (buildRequest "127.0.0.1" "60001" http_method.POST "/submit"
            "comment=hi"))
      "Content-Length" = Some contentLength
    /\ stoul contentLength = Parsed (Z.of_nat (size "comment=hi")).
Proof.
  apply (buildRequest_headers "127.0.0.1" "60001" "/submit" "comment=hi").
  vm_compute. discriminate.
Defined.

(** X12. The body of the form decodes to the key of the form followed by
    what the user typed. *)
Theorem form_body_decodes :
  forall postData : string,
    http_encoding.decode (form_body postData) = "comment=" +:+ postData.
Proof.
  intros postData. unfold form_body.
  change ("comment=" +:+ http_encoding.encode postData)
    with (String "c" (String "o" (String "m" (String "m" (String "e"
           (String "n" (String "t" (String "="
              (http_encoding.encode postData))))))))).
  rewrite !decode_cons_plain by reflexivity.
  pose proof (decode_encode_app postData "") as H.
  rewrite str_app_nil_r, decode_nil, str_app_nil_r in H. rewrite H.
  reflexivity.
Qed.

End UserInput.

(** ** [Socket]: construction, blocking mode, moves *)

Section SocketLifecycle.
Import StdString Sys Socket.

Local Arguments level_below : simpl never.

Ltac world_step :=
  cbn [script record set_script set_errno set_fd_flags write set_socket
       set_connected fd_flags errno inet_pton trace logs currentLevel
       mgr_socket mgr_connected ret throw fst snd];
  rewrite ?of_N_ltb0.

Lemma nonblock_bit i :
  (0 <= i)%Z -> Z.testbit O_NONBLOCK i = (11 =? i)%Z.
Proof.
  intros Hi. change O_NONBLOCK with (2 ^ 11)%Z. apply Z.pow2_bits_eqb. lia.
Qed.

Lemma testbit_to_N z i :
  (0 <= z)%Z -> N.testbit (Z.to_N z) i = Z.testbit z (Z.of_N i).
Proof.
  intros Hz. rewrite <- N2Z.inj_testbit, Z2N.id by exact Hz. reflexivity.
Qed.

Lemma set_flag_bits f i :
  i <> 11%N ->
  N.testbit (Z.to_N (Z.lor (Z.of_N f) O_NONBLOCK)) i = N.testbit f i.
Proof.
  intros Hi. rewrite testbit_to_N
    by (apply Z.lor_nonneg; split; [lia | unfold O_NONBLOCK; lia]).
  rewrite Z.lor_spec, nonblock_bit by lia.
  rewrite N2Z.inj_testbit.
  destruct (11 =? Z.of_N i)%Z eqn:E; [apply Z.eqb_eq in E; lia|].
  apply orb_false_r.
Qed.

Lemma clear_flag_nonneg f : (0 <= Z.land (Z.of_N f) (Z.lnot O_NONBLOCK))%Z.
Proof. apply Z.land_nonneg. left. lia. Qed.

Lemma clear_flag_bits f i :
  i <> 11%N ->
  N.testbit (Z.to_N (Z.land (Z.of_N f) (Z.lnot O_NONBLOCK))) i = N.testbit f i.
Proof.
  intros Hi. rewrite testbit_to_N by apply clear_flag_nonneg.
  rewrite Z.land_spec, Z.lnot_spec, nonblock_bit by lia.
  rewrite N2Z.inj_testbit.
  destruct (11 =? Z.of_N i)%Z eqn:E; [apply Z.eqb_eq in E; lia|].
  apply andb_true_r.
Qed.

Lemma clear_flag_cleared f :
  Z.land (Z.of_N (Z.to_N (Z.land (Z.of_N f) (Z.lnot O_NONBLOCK)))) O_NONBLOCK
  = 0%Z.
Proof.
  rewrite Z2N.id by apply clear_flag_nonneg.
  apply Z.bits_inj'. intros n Hn.
  rewrite !Z.land_spec, Z.lnot_spec, Z.bits_0 by exact Hn.
  destruct (Z.testbit O_NONBLOCK n); [|apply andb_false_r].
  rewrite andb_false_r. reflexivity.
Qed.

(** X13. Switching the blocking mode sets or clears the non-blocking flag
    and leaves every other file status flag as it was; it reads the flags
    and writes them back, nothing else. *)
Theorem setNonBlocking_changes_one_flag :
  forall (socket_fd : Z) (enable : bool) (w : world) (v1 v2 : N)
         (rest : list answer),
    script w = Success v1 :: Success v2 :: rest ->
    let r := setNonBlocking socket_fd enable w in
    let flags := Z.of_N (fd_flags w) in
    fst r = Returned tt
    /\ non_blocking (snd r) = enable
    /\ (forall i, i <> 11%N ->
          N.testbit (fd_flags (snd r)) i = N.testbit (fd_flags w) i)
    /\ trace (snd r)
       = trace w ++
         [SysFcntlGet socket_fd;
          SysFcntlSet socket_fd
            (if enable then Z.lor flags O_NONBLOCK
             else Z.land flags (Z.lnot O_NONBLOCK))]
    /\ script (snd r) = rest.
Proof.
  intros fd enable [en ff sc ip tr lg lv so co] v1 v2 rest Hs.
  cbn [script] in Hs. subst sc. cbn zeta.
  unfold setNonBlocking, sys_fcntl_getfl, sys_fcntl_setfl, syscall, bind,
    get_fd_flags.
  do 4 world_step.
  destruct enable.
  - repeat split.
    + unfold non_blocking. world_step. apply lor_nonblock_set.
    + intros i Hi. apply set_flag_bits. exact Hi.
    + rewrite <- app_assoc. reflexivity.
  - repeat split.
    + unfold non_blocking. world_step. rewrite clear_flag_cleared.
      reflexivity.
    + intros i Hi. apply clear_flag_bits. exact Hi.
    + rewrite <- app_assoc. reflexivity.
Qed.

Lemma setNonBlocking_witness :
  let r := setNonBlocking 3 false
             (set_fd_flags (Z.lor O_RDWR O_NONBLOCK)
                (fresh_world [Success 0; Success 0])) in
  fst r = Returned tt /\ non_blocking (snd r) = false
  /\ fd_flags (snd r) = Z.to_N O_RDWR.
Proof.
  pose proof (setNonBlocking_changes_one_flag 3 false
                (set_fd_flags (Z.lor O_RDWR O_NONBLOCK)
                   (fresh_world [Success 0; Success 0]))
                0%N 0%N [] eq_refl) as (H1 & H2 & _).
  cbn zeta. split; [exact H1|]. split; [exact H2|]. reflexivity.
Defined.

(** X14. The constructor of a socket. A failure of [socket] is raised with
    its error number before any option is set. A failure of [setsockopt] is
    raised too, and the descriptor just obtained is not closed. Otherwise
    the new descriptor is returned, in blocking mode. *)
Theorem create_outcomes :
  forall w : world,
    (forall e rest,
        script w = Failure e :: rest ->
        fst (create w)
        = Thrown (SocketCreateError (TextErrno "Failed to create socket: " e))
        /\ trace (snd (create w)) = trace w ++ [SysSocket])
    /\ (forall fd e rest,
        script w = Success fd :: Failure e :: rest ->
        fst (create w)
        = Thrown (SocketCreateError
                    (TextErrno "Failed to set socket options: " e))
        /\ trace (snd (create w))
           = trace w ++ [SysSocket; SysSetsockopt (Z.of_N fd)]
        /\ closes (Z.of_N fd) (trace (snd (create w)))
           = closes (Z.of_N fd) (trace w))
    /\ (forall fd o rest,
        script w = Success fd :: Success o :: rest ->
        fst (create w) = Returned (Z.of_N fd)
        /\ trace (snd (create w))
           = trace w ++ [SysSocket; SysSetsockopt (Z.of_N fd)]
        /\ non_blocking (snd (create w)) = false
        /\ script (snd (create w)) = rest).
Proof.
  intros [en ff sc ip tr lg lv so co]. cbn [script trace].
  split; [|split].
  - intros e rest ->. unfold create, sys_socket, sys_setsockopt, syscall, bind,
      get_errno. cbn. split; reflexivity.
  - intros fd e rest ->. unfold create, sys_socket, sys_setsockopt, syscall,
      bind, get_errno.
    do 4 world_step. cbn [Z.ltb Z.compare]. do 2 world_step.
    split; [reflexivity|]. split; [rewrite <- app_assoc; reflexivity|].
    unfold closes. rewrite <- app_assoc, List.filter_app. cbn [List.filter app].
    rewrite app_nil_r. reflexivity.
  - intros fd o rest ->. unfold create, sys_socket, sys_setsockopt, syscall,
      bind, get_errno.
    do 4 world_step. cbn [Z.ltb Z.compare]. do 2 world_step.
    split; [reflexivity|]. split; [rewrite <- app_assoc; reflexivity|].
    split; reflexivity.
Qed.

(** X15. Moving a socket hands the descriptor over. After a move
    construction, destroying both objects closes the descriptor once. A
    move assignment between two objects closes the descriptor the target
    owned, and destroying both afterwards closes the one moved, once. *)
Theorem moved_socket_is_closed_once :
  forall (w : world) (a b : Z),
    (0 <= a)%Z -> (0 <= b)%Z -> a <> b ->
    (let '(this_fd, other_fd) := move_construct a in
     fst (bind (destroy other_fd) (fun _ => destroy this_fd) w) = Returned tt
     /\ trace (snd (bind (destroy other_fd) (fun _ => destroy this_fd) w))
        = trace w ++ [SysClose a])
    /\ (let run :=
          bind (move_assign a b) (fun moved =>
            bind (destroy (snd moved)) (fun _ => destroy (fst moved))) w in
        fst run = Returned tt
        /\ trace (snd run) = trace w ++ [SysClose a; SysClose b]
        /\ closes a (trace (snd run)) = S (closes a (trace w))
        /\ closes b (trace (snd run)) = S (closes b (trace w))).
Proof.
  intros [en ff sc ip tr lg lv so co] a b Ha Hb Hab.
  assert (Ha' : (0 <=? a)%Z = true) by lia.
  assert (Hb' : (0 <=? b)%Z = true) by lia.
  split.
  - unfold move_construct, destroy, bind, log, sys_close, emit.
    change (0 <=? -1)%Z with false. rewrite Ha'. do 3 world_step.
    split; reflexivity.
  - unfold move_assign, destroy, bind, log, sys_close, emit.
    rewrite Ha'. do 3 world_step.
    change (0 <=? -1)%Z with false. rewrite Hb'. do 3 world_step.
    split; [reflexivity|]. split; [rewrite <- app_assoc; reflexivity|].
    unfold closes. rewrite <- !app_assoc, !List.filter_app.
    cbn [List.filter app].
    rewrite !Z.eqb_refl.
    assert (Hba : (b =? a)%Z = false) by lia.
    assert (Hab' : (a =? b)%Z = false) by lia.
    rewrite Hba, Hab'. rewrite !List.length_app. cbn [List.length]. lia.
Qed.

Lemma moved_socket_witness :
  let run :=
    bind (move_assign 3 4) (fun moved =>
      bind (destroy (snd moved)) (fun _ => destroy (fst moved)))
      (fresh_world []) in
  fst run = Returned tt /\ trace (snd run) = [SysClose 3; SysClose 4].
Proof.
  pose proof (moved_socket_is_closed_once (fresh_world []) 3 4
                ltac:(vm_compute; discriminate) ltac:(vm_compute; discriminate)
                ltac:(discriminate)) as (_ & H1 & H2 & _).
  cbn zeta. split; [exact H1 | exact H2].
Defined.

End SocketLifecycle.

(** ** [ConnectionManager]: release, the invariant, sending *)

Section ManagerRelease.
Import StdString StdConv Sys ConnectionManager.

Local Arguments level_below : simpl never.

Ltac world_step :=
  cbn [script record set_script set_errno set_fd_flags write set_socket
       set_connected fd_flags errno inet_pton trace logs currentLevel
       mgr_socket mgr_connected ret throw fst snd];
  rewrite ?of_N_ltb0.

(** X16. [disconnect] always completes. It leaves the manager without a
    socket and not connected, closes the descriptor that was held, if any,
    and nothing else; a second [disconnect] changes nothing at all. *)
Theorem disconnect_releases_once :
  forall w : world,
    consistent w ->
    let w1 := snd (disconnect w) in
    fst (disconnect w) = Returned tt
    /\ mgr_socket w1 = None
    /\ mgr_connected w1 = false
    /\ trace w1 = trace w ++ teardown w
    /\ disconnect w1 = (Returned tt, w1).
Proof.
  intros [en ff sc ip tr lg lv [fd|] co] [_ Hfd]; cbn [mgr_socket] in Hfd.
  - assert (Hle : (0 <=? fd)%Z = true) by (apply Z.leb_le, Hfd; reflexivity).
    cbn zeta.
    unfold disconnect, reset_socket, Socket.destroy, bind, get_socket,
      put_socket, put_connected, log, sys_close, emit, teardown.
    do 2 world_step. rewrite Hle. do 4 world_step.
    repeat split.
  - cbn zeta.
    unfold disconnect, reset_socket, bind, get_socket, put_connected, teardown.
    do 3 world_step. rewrite app_nil_r. repeat split.
Qed.

Lemma disconnect_releases_witness :
  let w := set_connected true (holding_world 3 []) in
  fst (disconnect w) = Returned tt
  /\ mgr_socket (snd (disconnect w)) = None
  /\ trace (snd (disconnect w)) = [SysClose 3].
Proof.
  assert (H : consistent (set_connected true (holding_world 3 []))).
  { split; [discriminate|]. intros fd Hfd. injection Hfd as <-. discriminate. }
  pose proof (disconnect_releases_once _ H) as (H1 & H2 & _ & H4 & _).
  cbn zeta. split; [exact H1|]. split; [exact H2 | exact H4].
Defined.

End ManagerRelease.

Section ManagerSteps.
Import Sys ConnectionManager.

Lemma emit_same_manager c : relates same_manager (emit c).
Proof. intros w r w' H. injection H as _ <-. split; reflexivity. Qed.

Lemma print_same_manager msg : relates same_manager (print msg).
Proof. intros w r w' H. injection H as _ <-. split; reflexivity. Qed.

Lemma answers_left_same_manager : relates same_manager answers_left.
Proof. intros w r w' H. injection H as _ <-. apply same_manager_refl. Qed.

Lemma get_socket_same_manager : relates same_manager get_socket.
Proof. intros w r w' H. injection H as _ <-. apply same_manager_refl. Qed.

End ManagerSteps.

(** A computation built from steps that leave the manager as it is. *)
Ltac same_manager_steps :=
  repeat first
    [ apply relates_ret, same_manager_refl
    | apply relates_throw, same_manager_refl
    | apply relates_stuck, same_manager_refl
    | apply log_same_manager
    | apply print_same_manager
    | apply emit_same_manager
    | apply syscall_same_manager
    | apply sys_recv_same_manager
    | apply get_errno_same_manager
    | apply answers_left_same_manager
    | apply get_socket_same_manager
    | apply recv_same_manager
    | apply pollSocket_same_manager
    | apply read_headers_same_manager
    | (apply relates_bind; [apply same_manager_trans | | intros ?])
    | match goal with
      | |- Sys.relates _ (if ?c then _ else _) => destruct c
      | |- Sys.relates _ (match ?x with _ => _ end) => destruct x
      end ].

Section ManagerKeepsInvariant.
Import StdString StdConv Sys ConnectionManager.

Local Arguments read_body : simpl never.
Local Arguments read_headers : simpl never.
Local Opaque BUFFER_SIZE.

Lemma send_loop_same_manager fd data flags fuel :
  forall t, relates same_manager (Socket.send_loop fuel fd data flags t).
Proof.
  induction fuel as [|fuel IH]; intros t; cbn [Socket.send_loop];
    destruct (Nat.ltb t (size data)); try solve [same_manager_steps].
  unfold sys_send, sleep_for. same_manager_steps; apply IH.
Qed.

Lemma socket_send_same_manager fd data flags :
  relates same_manager (Socket.send fd data flags).
Proof.
  unfold Socket.send. same_manager_steps. apply send_loop_same_manager.
Qed.

Lemma send_same_manager data : relates same_manager (send data).
Proof.
  unfold send. same_manager_steps. apply send_loop_same_manager.
Qed.

Lemma read_body_same_manager fd cl fuel :
  forall body, relates same_manager (read_body fuel fd cl body).
Proof.
  induction fuel as [|fuel IH]; intros body.
  - unfold read_body. same_manager_steps.
  - rewrite read_body_step. unfold isReadable. same_manager_steps. apply IH.
Qed.

Lemma content_length_same_manager headersStr :
  relates same_manager (content_length headersStr).
Proof. unfold content_length. same_manager_steps. Qed.

Lemma receive_same_manager : relates same_manager receive.
Proof.
  unfold receive. same_manager_steps;
    first [apply content_length_same_manager | apply read_body_same_manager].
Qed.

End ManagerKeepsInvariant.

(** ** [ConnectionManager]: sending and receiving *)

Section ManagerSend.
Import StdString StdConv Sys ConnectionManager.



Lemma short_chunk_deliverable c :
  c <> "" -> size c <= 1024 -> deliverable c.
Proof.
  intros Hne Hsz. split; [exact Hne|].
  assert (1024 <= N.to_nat BUFFER_SIZE) by (unfold BUFFER_SIZE; lia). lia.
Qed.

End ManagerSend.

Section ManagerReceiveMore.
Import StdString StdConv Sys ConnectionManager.

Local Arguments read_body : simpl never.
Local Arguments read_headers : simpl never.
Local Arguments level_below : simpl never.
Local Opaque BUFFER_SIZE.

Lemma find_framed headersStr body :
  exists i, find (headersStr +:+ CRLFCRLF +:+ body) CRLFCRLF 0 = Some i.
Proof.
  rewrite find_0. destruct (find0_app CRLFCRLF body headersStr) as (i & Hi & _).
  exists i. exact Hi.
Qed.

Ltac unfold_read :=
  unfold isReadable, pollSocket, Socket.recv, sys_poll, sys_recv, syscall,
    bind, get_socket, get_errno, log.

Lemma take_empty n : take n "" = "".
Proof. destruct n; reflexivity. Qed.

Lemma read_headers_step fuel fd data :
  read_headers (S fuel) fd data
  = match find data CRLFCRLF 0 with
    | Some _ => ret (Some data)
    | None =>
        bind isReadable (fun readable =>
          if negb readable then ret None
          else
            bind (Socket.recv fd BUFFER_SIZE 0) (fun got =>
              let '(bytesRead, buffer) := got in
              if (bytesRead <=? 0)%Z then
                bind (log [Str "Failed to read headers."] ERROR)
                  (fun _ => ret None)
              else read_headers fuel fd (data +:+ buffer)))
    end.
Proof. reflexivity. Qed.

Lemma read_headers_found fuel fd data headerEnd :
  find data CRLFCRLF 0 = Some headerEnd ->
  read_headers fuel fd data = ret (Some data).
Proof.
  intros H. destruct fuel.
  - change (read_headers 0 fd data)
      with (match find data CRLFCRLF 0 with
            | Some _ => ret (Some data)
            | None => @stuck (option string)
            end).
    rewrite H. reflexivity.
  - rewrite read_headers_step, H. reflexivity.
Qed.

Lemma read_body_done fuel fd cl body :
  (cl <= Z.of_nat (size body))%Z ->
  read_body fuel fd cl body = ret (Some body).
Proof.
  intros H.
  assert (C : (0 <? cl)%Z && (Z.of_nat (size body) <? cl)%Z = false).
  { apply andb_false_iff. right. apply Z.ltb_ge. exact H. }
  destruct fuel.
  - change (read_body 0 fd cl body)
      with (if (0 <? cl)%Z && (Z.of_nat (size body) <? cl)%Z
            then @stuck (option string) else ret (Some body)).
    rewrite C. reflexivity.
  - rewrite read_body_step, C. reflexivity.
Qed.

(** One turn of the header loop in which a chunk arrives. *)
Lemma read_headers_one_chunk fuel fd data w c rest :
  mgr_socket w = Some fd ->
  script w = Success 1 :: Delivered c :: rest ->
  deliverable c ->
  find data CRLFCRLF 0 = None ->
  exists w',
    read_headers (S fuel) fd data w = read_headers fuel fd (data +:+ c) w'
    /\ script w' = rest /\ mgr_socket w' = Some fd
    /\ trace w' = trace w ++ [SysPoll fd POLLIN 50; SysRecv fd BUFFER_SIZE 0].
Proof.
  intros Hso Hs [Hne Hsz] Hnone.
  destruct w as [en ff sc ip' tr lg lv so co].
  cbn [script mgr_socket trace] in *. subst sc so.
  rewrite read_headers_step, Hnone.
  unfold_read. cbn. rewrite (take_all _ _ Hsz), size_not_negative. cbn.
  rewrite (size_positive _ Hne).
  eexists. split; [reflexivity|]. split; [reflexivity|].
  split; [reflexivity|]. cbn. rewrite <- app_assoc. reflexivity.
Qed.

Lemma data_is_framed data headerEnd :
  find data CRLFCRLF 0 = Some headerEnd ->
  substr data 0 headerEnd +:+ CRLFCRLF +:+ substr_from data (headerEnd + 4)
  = data.
Proof.
  intros H. rewrite find_0 in H. apply find0_split in H.
  unfold substr. rewrite substr_from_0. symmetry. exact H.
Qed.

Lemma receive_after_headers_length w w1 fd data headerEnd cl :
  mgr_socket w = Some fd ->
  read_headers (S (List.length (script w))) fd "" w = (Returned (Some data), w1) ->
  find data CRLFCRLF 0 = Some headerEnd ->
  content_length (substr data 0 headerEnd) = ret cl ->
  receive w
  = bind (read_body (S (List.length (script w1))) fd cl
            (substr_from data (headerEnd + 4)))
      (fun rest =>
         match rest with
         | None => ret None
         | Some body' =>
             ret (Some (substr data 0 headerEnd +:+ CRLFCRLF +:+ body'))
         end) w1.
Proof.
  intros Hso Hhead Hfind Hcl.
  unfold receive. unfold bind at 1. unfold get_socket. rewrite Hso.
  unfold bind at 1. unfold answers_left at 1. cbv beta iota.
  unfold bind at 1. rewrite Hhead. rewrite Hfind.
  unfold bind at 1. rewrite Hcl.
  unfold ret at 1. cbv beta iota.
  unfold bind at 1. unfold answers_left. cbv beta iota. reflexivity.
Qed.

Lemma ready_reads_app a b : ready_reads (a ++ b) = ready_reads a ++ ready_reads b.
Proof. unfold ready_reads. apply flat_map_app. Qed.

Lemma concat_chunks_app a b :
  concat_chunks (a ++ b) = concat_chunks a +:+ concat_chunks b.
Proof.
  induction a as [|c a IH]; [symmetry; apply str_app_nil_l|].
  cbn [app]. rewrite !concat_chunks_cons, IH, str_app_assoc. reflexivity.
Qed.

(** X19. A message that arrives in one piece, with all the body its headers
    announce (or with headers that announce none), is returned as it
    arrived, after one poll and one read; what the operating system has to
    say next is left for later. *)
Theorem receive_message_in_one_piece :
  forall (w : world) (fd : Z) (data : string) (rest : list answer)
         (headerEnd : nat) (cl : Z),
    mgr_socket w = Some fd ->
    script w = Success 1 :: Delivered data :: rest ->
    deliverable data ->
    find data CRLFCRLF 0 = Some headerEnd ->
    content_length (substr data 0 headerEnd) = ret cl ->
    (cl <= Z.of_nat (size (substr_from data (headerEnd + 4))))%Z ->
    fst (receive w) = Returned (Some data)
    /\ script (snd (receive w)) = rest
    /\ trace (snd (receive w))
       = trace w ++ [SysPoll fd POLLIN 50; SysRecv fd BUFFER_SIZE 0].
Proof.
  intros w fd data rest headerEnd cl Hso Hs Hd Hfind Hcl Hle.
  destruct (read_headers_one_chunk (List.length (script w)) fd "" w data rest
              Hso Hs Hd eq_refl) as (w1 & Hstep & Hs1 & Hso1 & Htr).
  rewrite str_app_nil_l, (read_headers_found _ _ _ _ Hfind) in Hstep.
  rewrite (receive_after_headers_length w w1 fd data headerEnd cl Hso Hstep
             Hfind Hcl).
  unfold bind. rewrite (read_body_done _ _ _ _ Hle).
  unfold ret. cbn [fst snd]. rewrite (data_is_framed _ _ Hfind).
  split; [reflexivity|]. split; assumption.
Qed.

Lemma receive_in_one_piece_witness :
  fst (receive
         (holding_world 3 [Success 1; Delivered HttpResponse.plain_response]))
  = Returned (Some HttpResponse.plain_response).
Proof.
  refine (proj1 (receive_message_in_one_piece
                   (holding_world 3
                      [Success 1; Delivered HttpResponse.plain_response])
                   3 HttpResponse.plain_response [] 34 0 eq_refl eq_refl
                   _ _ _ _)).
  - apply short_chunk_deliverable; [discriminate | vm_compute; lia].
  - reflexivity.
  - reflexivity.
  - vm_compute. discriminate.
Defined.

(** X20. When the headers announce more body than has arrived with them,
    [receive] goes on reading; once the chunks delivered bring the body to
    the length announced it returns everything that was read, in order,
    and reads no further. *)
Theorem receive_reads_announced_body :
  forall (w w1 : world) (fd : Z) (data : string) (headerEnd : nat) (cl : Z)
         (chunks : list string) (last : string) (tail : list answer),
    mgr_socket w = Some fd ->
    read_headers (S (List.length (script w))) fd "" w
    = (Returned (Some data), w1) ->
    find data CRLFCRLF 0 = Some headerEnd ->
    let body := substr_from data (headerEnd + 4) in
    content_length (substr data 0 headerEnd) = ret cl ->
    script w1 = ready_reads (chunks ++ [last]) ++ tail ->
    Forall deliverable (chunks ++ [last]) ->
    (Z.of_nat (size (body +:+ concat_chunks chunks)) < cl)%Z ->
    (cl <= Z.of_nat (size (body +:+ concat_chunks (chunks ++ [last]))))%Z ->
    fst (receive w)
    = Returned (Some (data +:+ concat_chunks (chunks ++ [last])))
    /\ script (snd (receive w)) = tail.
Proof.
  intros w w1 fd data headerEnd cl chunks last tail Hso Hhead Hfind body Hcl
    Hs1 Hd Hlt Hle. subst body.
  rewrite (receive_after_headers_length _ _ _ _ _ _ Hso Hhead Hfind Hcl).
  destruct (read_headers_same_manager _ _ _ _ _ _ Hhead) as [Hso1 _].
  rewrite Hso in Hso1.
  rewrite ready_reads_app, <- app_assoc in Hs1.
  apply Forall_app in Hd as [Hd Hdl]. inversion Hdl as [|? ? Hlast _]; subst.
  assert (Hfuel : S (List.length (script w1))
                  = List.length chunks
                    + S (List.length chunks + S (S (List.length tail)))).
  { rewrite Hs1, !List.length_app, length_ready_reads.
    cbn [ready_reads flat_map app List.length]. lia. }
  rewrite Hfuel.
  destruct (read_body_chunks fd cl chunks
              (S (List.length chunks + S (S (List.length tail))))
              (substr_from data (headerEnd + 4)) w1 _ Hso1 Hs1 Hd Hlt)
    as (w2 & Hrun & Hs2 & Hso2).
  destruct (read_body_one_chunk (List.length chunks + S (S (List.length tail)))
              fd cl _ w2 last tail Hso2 Hs2 Hlast Hlt)
    as (w3 & Hstep & Hs3 & Hso3).
  rewrite concat_chunks_app in Hle |- *.
  cbn [concat_chunks fold_right] in Hle |- *.
  rewrite str_app_nil_r in Hle |- *. rewrite <- str_app_assoc in Hle.
  unfold bind. rewrite Hrun, Hstep, (read_body_done _ _ _ _ Hle).
  unfold ret. cbn [fst snd].
  split; [|exact Hs3]. f_equal. f_equal.
  transitivity ((substr data 0 headerEnd +:+ CRLFCRLF +:+
                 substr_from data (headerEnd + 4))
                +:+ concat_chunks chunks +:+ last);
    [rewrite !str_app_assoc; reflexivity
    | rewrite (data_is_framed _ _ Hfind); reflexivity].
Qed.

Lemma receive_reads_body_witness :
  fst (receive
         (holding_world 3
            [Success 1; Delivered short_response;
             Success 1; Delivered "the"; Success 1; Delivered "re!!!"]))
  = Returned (Some (short_response +:+ concat_chunks (["the"] ++ ["re!!!"]))).
Proof.
  refine (proj1 (receive_reads_announced_body
                   (holding_world 3
                      [Success 1; Delivered short_response;
                       Success 1; Delivered "the"; Success 1; Delivered "re!!!"])
                   _ 3 short_response 35 10 ["the"] "re!!!" []
                   eq_refl _ _ _ _ _ _ _)).
  - vm_compute. reflexivity.
  - reflexivity.
  - reflexivity.
  - reflexivity.
  - repeat (constructor;
            [apply short_chunk_deliverable; [discriminate | vm_compute; lia]|]).
    constructor.
  - vm_compute. reflexivity.
  - vm_compute. discriminate.
Defined.

(** X21. While the headers are not complete, [receive] gives up with the
    empty result when the socket is not readable within the poll, and also
    when the read brings nothing (the peer has closed, or the read would
    block), which it reports as an error; a read error other than
    would-block leaves [receive] as the exception [RecvError]. Without a
    socket nothing is attempted. *)
Theorem receive_gives_up_in_headers :
  forall (w : world),
    (mgr_socket w = None -> receive w = (Returned None, w))
    /\ (forall fd a rest,
          mgr_socket w = Some fd ->
          script w = a :: rest ->
          a = Success 0 \/ (exists e, a = Failure e) ->
          fst (receive w) = Returned None
          /\ trace (snd (receive w)) = trace w ++ [SysPoll fd POLLIN 50])
    /\ (forall fd a rest,
          mgr_socket w = Some fd ->
          script w = Success 1 :: a :: rest ->
          a = Delivered ""
          \/ (exists e, a = Failure e /\ Socket.would_block a = true) ->
          fst (receive w) = Returned None
          /\ exists before,
               logs (snd (receive w))
               = (logs w ++ before)
                 ++ [Logged ERROR [Str "Failed to read headers."]])
    /\ (forall fd e rest,
          mgr_socket w = Some fd ->
          script w = Success 1 :: Failure e :: rest ->
          e <> EAGAIN -> e <> EWOULDBLOCK ->
          fst (receive w) = Thrown (RecvError e)).
Proof.
  intros [en ff sc ip' tr lg lv so co]. cbn [mgr_socket script trace].
  split; [|split; [|split]].
  - intros ->. reflexivity.
  - intros fd a rest -> -> Ha.
    unfold receive. unfold bind at 1. unfold get_socket. cbn [mgr_socket].
    unfold bind at 1. unfold answers_left at 1. cbv beta iota.
    unfold bind at 1. rewrite read_headers_step.
    change (find "" CRLFCRLF 0) with (@None nat). cbv beta iota.
    destruct Ha as [-> | [e ->]]; unfold_read; cbn; rewrite <- ?app_assoc;
      split; reflexivity.
  - intros fd a rest -> -> Ha.
    destruct Ha as [-> | (e & -> & Hwb)].
    + destruct lv; (split; [reflexivity | eexists; reflexivity]).
    + assert (e = 11%Z)
        by (cbn [Socket.would_block] in Hwb; unfold EAGAIN, EWOULDBLOCK in Hwb;
            lia).
      subst e. destruct lv; (split; [reflexivity | eexists; reflexivity]).
  - intros fd e rest -> -> He1 He2.
    unfold receive. unfold bind at 1. unfold get_socket. cbn [mgr_socket].
    unfold bind at 1. unfold answers_left at 1. cbv beta iota.
    unfold bind at 1. rewrite read_headers_step.
    change (find "" CRLFCRLF 0) with (@None nat). cbv beta iota.
    unfold_read. cbn.
    destruct (not_would_block_errno e He1 He2) as [H1 H2].
    rewrite H1, H2. reflexivity.
Qed.

Lemma delivered_app a b : delivered (a ++ b) = delivered a +:+ delivered b.
Proof.
  induction a as [|[v|e|d] a IH]; cbn [app delivered];
    rewrite ?str_app_nil_l, ?str_app_assoc, ?IH; reflexivity.
Qed.

Lemma nothing_read s : (Z.of_nat (size s) <=? 0)%Z = true -> s = "".
Proof. destruct s; [reflexivity|]. intros H. apply Z.leb_le in H. cbn in H. lia. Qed.

(** A poll that finds the socket readable takes one answer. *)
Lemma isReadable_takes_one w w1 :
  isReadable w = (Returned true, w1) ->
  exists a, script w = a :: script w1 /\ delivered [a] = "".
Proof.
  destruct w as [en ff sc ip' tr lg lv so co].
  unfold isReadable, pollSocket, bind, get_socket, sys_poll, syscall.
  cbn [mgr_socket script].
  destruct so as [fd|]; [|discriminate].
  destruct sc as [|[v|e|d] rest]; try discriminate.
  cbn. destruct (_ <=? 0)%Z; cbn; intros H; [discriminate|].
  injection H as <-. exists (Success v). split; reflexivity.
Qed.

(** A read that returns takes one answer, and stores what that answer
    delivers; a result that is not positive comes with no bytes. *)
Lemma recv_takes_one fd w bytesRead buffer w1 :
  Socket.recv fd BUFFER_SIZE 0 w = (Returned (bytesRead, buffer), w1) ->
  exists a,
    script w = a :: script w1
    /\ delivered [a] = buffer
    /\ ((bytesRead <=? 0)%Z = true -> buffer = "").
Proof.
  destruct w as [en ff sc ip' tr lg lv so co].
  unfold Socket.recv, sys_recv, bind. cbn [script].
  destruct sc as [|[v|e|d] rest]; try discriminate.
  - cbn. destruct (negb (e =? EAGAIN)%Z && negb (e =? EWOULDBLOCK)%Z); cbn;
      intros H; [discriminate|].
    injection H as <- <- <-. exists (Failure e).
    split; [reflexivity|]. split; reflexivity.
  - cbn. rewrite size_not_negative. cbn.
    intros H. injection H as <- <- <-.
    exists (Delivered d). split; [reflexivity|].
    split; [cbn [delivered]; apply str_app_nil_r|].
    apply nothing_read.
Qed.

Lemma read_headers_reads fd fuel :
  forall data w d' w',
    read_headers fuel fd data w = (Returned (Some d'), w') ->
    exists consumed,
      script w = consumed ++ script w'
      /\ d' = data +:+ delivered consumed
      /\ forall before after,
           consumed = before ++ after -> after <> [] ->
           find (data +:+ delivered before) CRLFCRLF 0 = None.
Proof.
  induction fuel as [|fuel IH]; intros data w d' w' H.
  - change (read_headers 0 fd data)
      with (match find data CRLFCRLF 0 with
            | Some _ => ret (Some data)
            | None => @stuck (option string)
            end) in H.
    destruct (find data CRLFCRLF 0); [|discriminate].
    injection H as <- <-. exists []. split; [reflexivity|].
    split; [symmetry; apply str_app_nil_r|].
    intros before after Hsplit Hne. symmetry in Hsplit.
    apply app_eq_nil in Hsplit as [_ ->]. congruence.
  - rewrite read_headers_step in H.
    destruct (find data CRLFCRLF 0) eqn:Hfind.
    { injection H as <- <-. exists []. split; [reflexivity|].
      split; [symmetry; apply str_app_nil_r|].
      intros before after Hsplit Hne. symmetry in Hsplit.
      apply app_eq_nil in Hsplit as [_ ->]. congruence. }
    unfold bind at 1 in H.
    destruct (isReadable w) as [[readable|e|] w1] eqn:Hpoll; try discriminate.
    destruct readable; cbn [negb] in H; [|discriminate].
    unfold bind at 1 in H.
    destruct (Socket.recv fd BUFFER_SIZE 0 w1)
      as [[[bytesRead buffer]|e|] w2] eqn:Hrecv; try discriminate.
    destruct (bytesRead <=? 0)%Z;
      [unfold bind, log, ret in H; discriminate|].
    apply IH in H as (consumed & Hs & -> & Hearlier).
    apply isReadable_takes_one in Hpoll as (a1 & Hs1 & Hd1).
    apply recv_takes_one in Hrecv as (a2 & Hs2 & Hd2 & _).
    exists (a1 :: a2 :: consumed).
    split; [rewrite Hs1, Hs2, Hs; reflexivity|]. split.
    + change (a1 :: a2 :: consumed) with ([a1] ++ [a2] ++ consumed).
      rewrite !delivered_app, Hd1, Hd2, str_app_nil_l, str_app_assoc.
      reflexivity.
    + intros before after Hsplit Hne.
      destruct before as [|b1 [|b2 before]].
      * cbn [delivered]. rewrite str_app_nil_r. exact Hfind.
      * injection Hsplit as <- _. rewrite Hd1, str_app_nil_r. exact Hfind.
      * injection Hsplit as <- <- Hsplit.
        change (a1 :: a2 :: before) with ([a1] ++ [a2] ++ before).
        rewrite !delivered_app, Hd1, Hd2, str_app_nil_l, <- str_app_assoc.
        apply (Hearlier before after Hsplit Hne).
Qed.

Lemma read_body_reads fd cl fuel :
  forall body w body' w',
    read_body fuel fd cl body w = (Returned (Some body'), w') ->
    exists consumed,
      script w = consumed ++ script w' /\ body' = body +:+ delivered consumed.
Proof.
  induction fuel as [|fuel IH]; intros body w body' w' H.
  - change (read_body 0 fd cl body)
      with (if (0 <? cl)%Z && (Z.of_nat (size body) <? cl)%Z
            then @stuck (option string) else ret (Some body)) in H.
    destruct (_ && _); [discriminate|].
    injection H as <- <-. exists []. split; [reflexivity|].
    symmetry. apply str_app_nil_r.
  - rewrite read_body_step in H.
    destruct (_ && _).
    2:{ injection H as <- <-. exists []. split; [reflexivity|].
        symmetry. apply str_app_nil_r. }
    unfold bind at 1 in H.
    destruct (isReadable w) as [[readable|e|] w1] eqn:Hpoll; try discriminate.
    destruct readable; cbn [negb] in H; [|discriminate].
    unfold bind at 1 in H.
    destruct (Socket.recv fd BUFFER_SIZE 0 w1)
      as [[[bytesRead buffer]|e|] w2] eqn:Hrecv; try discriminate.
    apply isReadable_takes_one in Hpoll as (a1 & Hs1 & Hd1).
    apply recv_takes_one in Hrecv as (a2 & Hs2 & Hd2 & Hnone).
    destruct (bytesRead <=? 0)%Z.
    + injection H as <- <-. exists [a1; a2].
      split; [rewrite Hs1, Hs2; reflexivity|].
      change [a1; a2] with ([a1] ++ [a2]).
      rewrite delivered_app, Hd1, Hd2, (Hnone eq_refl), !str_app_nil_r.
      reflexivity.
    + apply IH in H as (consumed & Hs & ->).
      exists (a1 :: a2 :: consumed).
      split; [rewrite Hs1, Hs2, Hs; reflexivity|].
      change (a1 :: a2 :: consumed) with ([a1] ++ [a2] ++ consumed).
      rewrite !delivered_app, Hd1, Hd2, str_app_nil_l, str_app_assoc.
      reflexivity.
Qed.

Lemma content_length_returns headersStr w cl w' :
  content_length headersStr w = (Returned cl, w') -> w' = w.
Proof.
  unfold content_length.
  destruct (n_utils.parseHeaderValue _ _) as [v|];
    [destruct (stoul v)|]; unfold ret, throw; intros H;
    try discriminate; injection H as _ <-; reflexivity.
Qed.

(** X18. What [receive] returns is what its reads have brought, no more
    and no less: the bytes delivered by the answers the call has taken from
    the operating system, in order, with nothing dropped where the headers
    are cut from the body and put back. The first loop reads until the
    blank line that ends the headers has arrived, and not beyond: what it
    has read holds the blank line, and what it had read before any of its
    polls and reads did not. *)
Theorem receive_returns_the_bytes_read :
  forall (w w' : world) (message : string),
    receive w = (Returned (Some message), w') ->
    exists headerReads bodyReads headerEnd,
      script w = (headerReads ++ bodyReads) ++ script w'
      /\ message = delivered (headerReads ++ bodyReads)
      /\ find (delivered headerReads) CRLFCRLF 0 = Some headerEnd
      /\ find message CRLFCRLF 0 = Some headerEnd
      /\ forall before after,
           headerReads = before ++ after -> after <> [] ->
           find (delivered before) CRLFCRLF 0 = None.
Proof.
  intros w w' message H. unfold receive in H.
  unfold bind at 1 in H. unfold get_socket in H.
  destruct (mgr_socket w) as [fd|]; [|discriminate].
  unfold bind at 1 in H. unfold answers_left at 1 in H. cbv beta iota in H.
  unfold bind at 1 in H.
  destruct (read_headers _ fd "" w) as [[[data|]|e|] w1] eqn:Hhead;
    try discriminate.
  destruct (find data CRLFCRLF 0) as [headerEnd|] eqn:Hfind; [|discriminate].
  unfold bind at 1 in H.
  destruct (content_length _ w1) as [[cl|e|] w2] eqn:Hcl; try discriminate.
  apply content_length_returns in Hcl. subst w2.
  unfold bind at 1 in H. unfold answers_left in H. cbv beta iota in H.
  unfold bind in H.
  destruct (read_body _ fd cl _ w1) as [[[body|]|e|] w3] eqn:Hbody;
    try discriminate.
  injection H as <- <-.
  apply read_headers_reads in Hhead as (c1 & Hs1 & Hd1 & Hearlier).
  apply read_body_reads in Hbody as (c2 & Hs2 & ->).
  rewrite str_app_nil_l in Hd1.
  exists c1, c2, headerEnd.
  split; [rewrite Hs1, Hs2, app_assoc; reflexivity|].
  assert (Hmessage :
    substr data 0 headerEnd +:+ CRLFCRLF +:+
      substr_from data (headerEnd + 4) +:+ delivered c2
    = data +:+ delivered c2).
  { rewrite <- !str_app_assoc. f_equal.
    rewrite str_app_assoc. apply data_is_framed. exact Hfind. }
  rewrite Hmessage.
  split; [rewrite delivered_app, <- Hd1; reflexivity|].
  split; [rewrite <- Hd1; exact Hfind|].
  split.
  { rewrite find_0 in Hfind |- *. apply find0_longer. exact Hfind. }
  intros before after Hsplit Hne.
  specialize (Hearlier before after Hsplit Hne).
  rewrite str_app_nil_l in Hearlier. exact Hearlier.
Qed.

(** The headers arrive in two pieces, the body they announce in a third;
    a fourth piece is ready and is not read. *)
Lemma receive_bytes_read_witness :
  exists headerReads bodyReads,
    [Success 1; Delivered ("HTTP/1.1 200 OK" +:+ CRLF +:+ "content-le");
     Success 1; Delivered ("ngth: 10" +:+ CRLFCRLF +:+ "hi");
     Success 1; Delivered "there!!!"; Success 1; Delivered "next"]
    = (headerReads ++ bodyReads) ++ [Success 1; Delivered "next"]
    /\ short_response +:+ "there!!!" = delivered (headerReads ++ bodyReads)
    /\ find (delivered headerReads) CRLFCRLF 0 = Some 35.
Proof.
  destruct (receive_returns_the_bytes_read
              (holding_world 3
                 [Success 1;
                  Delivered ("HTTP/1.1 200 OK" +:+ CRLF +:+ "content-le");
                  Success 1; Delivered ("ngth: 10" +:+ CRLFCRLF +:+ "hi");
                  Success 1; Delivered "there!!!";
                  Success 1; Delivered "next"])
              (snd (receive
                 (holding_world 3
                    [Success 1;
                     Delivered ("HTTP/1.1 200 OK" +:+ CRLF +:+ "content-le");
                     Success 1; Delivered ("ngth: 10" +:+ CRLFCRLF +:+ "hi");
                     Success 1; Delivered "there!!!";
                     Success 1; Delivered "next"])))
              (short_response +:+ "there!!!"))
    as (headerReads & bodyReads & headerEnd & Hscript & Hmessage & Hheaders
        & Hframed & _).
  - vm_compute. reflexivity.
  - assert (Hend : headerEnd = 35)
      by (vm_compute in Hframed; injection Hframed as <-; reflexivity).
    subst headerEnd.
    exists headerReads, bodyReads. split; [|split; assumption].
    vm_compute in Hscript. vm_compute. exact Hscript.
Defined.

End ManagerReceiveMore.

(** ** [HttpResponse::parse]: what a parsed response is made of *)

Section ResponseParsingMore.
Import StdString StdConv Sys HttpResponse.

Local Arguments level_below : simpl never.

(** The steps of a successful [parse]. *)
Lemma parse_success r0 raw w r w' :
  parse r0 raw w = (Returned (true, r), w') ->
  exists startLineEnd headersEnd r1 w1,
    find raw CRLF 0 = Some startLineEnd
    /\ parseStartLine r0 (substr raw 0 startLineEnd) w = (Returned (true, r1), w1)
    /\ find raw CRLFCRLF (startLineEnd + 2) = Some headersEnd
    /\ parseBody
         (determineKeepAlive
            (parseHeaders r1
               (substr raw (startLineEnd + 2)
                  (headersEnd - (startLineEnd + 2)))))
         raw (headersEnd + 4) w1
       = (Returned (true, r), w').
Proof.
  unfold parse. intros H.
  destruct (find raw CRLF 0) as [startLineEnd|] eqn:Hf1;
    [|unfold bind, log, ret in H; discriminate].
  unfold bind at 1 in H.
  destruct (parseStartLine r0 (substr raw 0 startLineEnd) w)
    as [[[ok r1]|e|] w1] eqn:Hstart; try discriminate.
  destruct ok; cbn [negb] in H; [|unfold bind, log, ret in H; discriminate].
  destruct (find raw CRLFCRLF (startLineEnd + 2)) as [headersEnd|] eqn:Hf2;
    [|unfold bind, log, ret in H; discriminate].
  unfold bind at 1 in H.
  match type of H with
  | context [parseBody ?r3 raw ?bs w1] =>
      destruct (parseBody r3 raw bs w1) as [[[ok' r4]|e|] w2] eqn:Hbody;
        try discriminate
  end.
  destruct ok'; cbn [negb] in H; [|unfold bind, log, ret in H; discriminate].
  injection H as <- <-.
  exists startLineEnd, headersEnd, r1, w1. repeat split; try assumption; reflexivity.
Qed.

Lemma parseStartLine_success r line w r1 w1 :
  parseStartLine r line w = (Returned (true, r1), w1) ->
  exists versionEnd statusCodeEnd,
    find line " " 0 = Some versionEnd
    /\ find line " " (versionEnd + 1) = Some statusCodeEnd
    /\ status r1
       = http_status.fromString
           (substr line (versionEnd + 1) (statusCodeEnd - versionEnd - 1))
    /\ status r1 <> http_status.INVALID
    /\ HttpMessage.getVersion (msg r1) = substr line 0 versionEnd
    /\ HttpMessage.body (msg r1) = HttpMessage.body (msg r).
Proof.
  unfold parseStartLine, bind, log, ret. intros H.
  destruct (find line " " 0) as [versionEnd|] eqn:Hf1; [|discriminate].
  destruct (find line " " (versionEnd + 1)) as [statusCodeEnd|] eqn:Hf2;
    [|discriminate].
  destruct (Z.eqb _ http_status.INVALID) eqn:E; [discriminate|].
  injection H as <- _. exists versionEnd, statusCodeEnd.
  split; [first [assumption | reflexivity]|].
  split; [first [assumption | reflexivity]|]. split; [reflexivity|].
  split; [apply Z.eqb_neq; exact E|]. split; reflexivity.
Qed.

Lemma parseHeader_keeps r header :
  status (parseHeader r header) = status r
  /\ HttpMessage.version (msg (parseHeader r header)) = HttpMessage.version (msg r)
  /\ HttpMessage.body (msg (parseHeader r header)) = HttpMessage.body (msg r).
Proof.
  unfold parseHeader. destruct (empty header); [repeat split|].
  destruct (find header ":" 0); repeat split.
Qed.

Lemma parseHeaders_loop_keeps fuel :
  forall r block pos,
    status (parseHeaders_loop fuel r block pos) = status r
    /\ HttpMessage.version (msg (parseHeaders_loop fuel r block pos))
       = HttpMessage.version (msg r)
    /\ HttpMessage.body (msg (parseHeaders_loop fuel r block pos))
       = HttpMessage.body (msg r).
Proof.
  induction fuel as [|fuel IH]; intros r block pos; cbn [parseHeaders_loop];
    destruct (Nat.ltb pos (size block)); try (repeat split; reflexivity).
  match goal with
  | |- context [parseHeaders_loop fuel ?r' block ?p] =>
      destruct (IH r' block p) as (-> & -> & ->)
  end.
  apply parseHeader_keeps.
Qed.

Lemma determineKeepAlive_keeps r :
  status (determineKeepAlive r) = status r
  /\ msg (determineKeepAlive r) = msg r.
Proof.
  unfold determineKeepAlive. destruct (getHeader r "Connection"); split;
    reflexivity.
Qed.

Lemma digit_in_base_nonneg base c d :
  digit_in_base base c = Some d -> (0 <= d)%Z.
Proof.
  unfold digit_in_base, digit_value.
  set (n := Z.of_nat (nat_of_ascii c)).
  destruct ((48 <=? n)%Z && (n <=? 57)%Z) eqn:E1;
    [|destruct ((97 <=? n)%Z && (n <=? 122)%Z) eqn:E2;
      [|destruct ((65 <=? n)%Z && (n <=? 90)%Z) eqn:E3; [|discriminate]]];
    (destruct (_ <? base)%Z; [|discriminate]);
    intros H; injection H as <-;
    match goal with E : _ && _ = true |- _ => apply andb_prop in E as [? ?] end;
    lia.
Qed.

Lemma read_digits_nonneg s :
  forall acc v,
    match acc with Some a => (0 <= a)%Z | None => True end ->
    read_digits 10 acc s = Some v -> (0 <= v)%Z.
Proof.
  induction s as [|c s IH]; intros acc v Hacc H.
  - cbn [read_digits] in H. subst acc. exact Hacc.
  - cbn [read_digits] in H.
    destruct (digit_in_base 10 c) as [d|] eqn:Ed.
    + apply digit_in_base_nonneg in Ed. apply (IH _ _) in H; [exact H|].
      destruct acc; cbn beta iota; lia.
    + subst acc. exact Hacc.
Qed.

Lemma stoul_nonneg s v : stoul s = Parsed v -> (0 <= v)%Z.
Proof.
  unfold stoul, scan.
  destruct (read_sign (skip_space s)) as [neg s1].
  unfold skip_hex_prefix. cbn [Z.eqb Pos.eqb].
  destruct (read_digits 10 None s1) as [m|] eqn:E; [|discriminate].
  apply read_digits_nonneg in E; [|exact I].
  destruct (_ <? _)%Z; [discriminate|]. intros H. injection H as <-.
  destruct neg; [apply Z.mod_pos_bound; lia | exact E].
Qed.

Lemma parseBody_success r raw bodyStart w r' w' :
  parseBody r raw bodyStart w = (Returned (true, r'), w') ->
  status r' = status r
  /\ HttpMessage.headers (msg r') = HttpMessage.headers (msg r)
  /\ HttpMessage.version (msg r') = HttpMessage.version (msg r)
  /\ w' = w
  /\ ((size raw <= bodyStart /\ getBody r' = "")
      \/ (getHeader r "Content-Length" = None /\ getBody r' = getBody r)
      \/ (exists h n,
            getHeader r "Content-Length" = Some h /\ stoul h = Parsed n
            /\ (n <= Z.of_nat (size raw - bodyStart))%Z
            /\ getBody r' = substr raw bodyStart (Z.to_nat n))).
Proof.
  unfold parseBody, bind, log, ret. intros H.
  destruct (Nat.ltb bodyStart (size raw)) eqn:E.
  - destruct (getHeader r "Content-Length") as [h|] eqn:Eh.
    + destruct (stoul h) as [contentLength| |] eqn:Es; try discriminate.
      destruct (_ <=? _)%Z eqn:El; [|discriminate].
      injection H as <- <-. repeat split. right. right.
      exists h, contentLength.
      repeat split;
        first [assumption | reflexivity | (apply Z.leb_le; exact El)].
    + injection H as <- <-. repeat split. right. left. split; reflexivity.
  - injection H as <- <-. repeat split. left.
    apply Nat.ltb_ge in E. split; [exact E | reflexivity].
Qed.

(** The same with the three cases told apart. *)
Lemma parseBody_located r raw bodyStart w r' w' :
  parseBody r raw bodyStart w = (Returned (true, r'), w') ->
  HttpMessage.headers (msg r') = HttpMessage.headers (msg r)
  /\ ((size raw <= bodyStart /\ getBody r' = "")
      \/ (bodyStart < size raw
          /\ ((getHeader r "Content-Length" = None /\ getBody r' = getBody r)
              \/ (exists h n,
                    getHeader r "Content-Length" = Some h /\ stoul h = Parsed n
                    /\ (n <= Z.of_nat (size raw - bodyStart))%Z
                    /\ getBody r' = substr raw bodyStart (Z.to_nat n))))).
Proof.
  unfold parseBody, bind, log, ret. intros H.
  destruct (Nat.ltb bodyStart (size raw)) eqn:E.
  - apply Nat.ltb_lt in E.
    destruct (getHeader r "Content-Length") as [h|] eqn:Eh.
    + destruct (stoul h) as [contentLength| |] eqn:Es; try discriminate.
      destruct (_ <=? _)%Z eqn:El; [|discriminate].
      injection H as <- <-. split; [reflexivity|]. right.
      split; [exact E|]. right. exists h, contentLength.
      split; [reflexivity|]. split; [exact Es|].
      split; [apply Z.leb_le; exact El | reflexivity].
    + injection H as <- <-. split; [reflexivity|]. right.
      split; [exact E|]. left. split; reflexivity.
  - injection H as <- <-. split; [reflexivity|]. left.
    apply Nat.ltb_ge in E. split; [exact E | reflexivity].
Qed.

(** X22. A response that parses has a status that is a code of the
    enumeration other than [INVALID], read from the text between the first
    two spaces of the first line; its version is the text before the first
    space. *)
Theorem parse_gives_known_status :
  forall (r0 r : HttpResponse.t) (raw : string) (w w' : world),
    parse r0 raw w = (Returned (true, r), w') ->
    In (getStatus r) http_status.codes
    /\ getStatus r <> http_status.INVALID
    /\ exists startLineEnd versionEnd statusCodeEnd,
         find raw CRLF 0 = Some startLineEnd
         /\ find (substr raw 0 startLineEnd) " " 0 = Some versionEnd
         /\ find (substr raw 0 startLineEnd) " " (versionEnd + 1)
            = Some statusCodeEnd
         /\ getStatus r
            = http_status.fromString
                (substr (substr raw 0 startLineEnd) (versionEnd + 1)
                   (statusCodeEnd - versionEnd - 1))
         /\ HttpMessage.getVersion (msg r)
            = substr (substr raw 0 startLineEnd) 0 versionEnd.
Proof.
  intros r0 r raw w w' H.
  apply parse_success in H
    as (startLineEnd & headersEnd & r1 & w1 & Hfind & Hstart & _ & Hbody).
  apply parseStartLine_success in Hstart
    as (versionEnd & statusCodeEnd & Hv & Hs & Hstatus & Hvalid & Hversion & _).
  apply parseBody_success in Hbody as (Hst & _ & Hver & _).
  destruct (determineKeepAlive_keeps
              (parseHeaders r1
                 (substr raw (startLineEnd + 2)
                    (headersEnd - (startLineEnd + 2))))) as (Hst2 & Hmsg2).
  unfold parseHeaders in *.
  match type of Hst2 with
  | context [parseHeaders_loop ?f r1 ?b ?p] =>
      destruct (parseHeaders_loop_keeps f r1 b p) as (Hst3 & Hver3 & _)
  end.
  assert (Hfinal : getStatus r = status r1)
    by (unfold getStatus; rewrite Hst, Hst2, Hst3; reflexivity).
  rewrite Hfinal, Hstatus.
  split; [apply fromString_in_codes|].
  split; [rewrite <- Hstatus; exact Hvalid|].
  exists startLineEnd, versionEnd, statusCodeEnd.
  repeat split; try assumption.
  unfold HttpMessage.getVersion in *. rewrite Hver, Hmsg2, Hver3.
  exact Hversion.
Qed.

Lemma parse_plain_response :
  parse new plain_response (Socket.fresh_world [])
  = (Returned (true, parsed plain_response), Socket.fresh_world []).
Proof. vm_compute. reflexivity. Qed.

Lemma parse_known_status_witness :
  In (getStatus (parsed plain_response)) http_status.codes
  /\ getStatus (parsed plain_response) <> http_status.INVALID.
Proof.
  pose proof (parse_gives_known_status new (parsed plain_response)
                plain_response (Socket.fresh_world []) (Socket.fresh_world [])
                parse_plain_response) as (H1 & H2 & _).
  split; [exact H1 | exact H2].
Defined.

(** X23. The body of a response parsed into a new object, where
    [headersEnd] is the place of the first blank line after the start
    line: when nothing follows the blank line, or when there is no
    [Content-Length] header, the body is empty whatever follows; else the
    header is a number that does not exceed what follows the blank line,
    and the body is that many characters taken right after the blank
    line. *)
Theorem parse_body_has_announced_length :
  forall (r : HttpResponse.t) (raw : string) (w w' : world),
    parse new raw w = (Returned (true, r), w') ->
    exists startLineEnd headersEnd,
      find raw CRLF 0 = Some startLineEnd
      /\ find raw CRLFCRLF (startLineEnd + 2) = Some headersEnd
      /\ ((size raw <= headersEnd + 4 /\ getBody r = "")
          \/ (headersEnd + 4 < size raw
              /\ getHeader r "Content-Length" = None
              /\ getBody r = "")
          \/ (headersEnd + 4 < size raw
              /\ exists h n,
                   getHeader r "Content-Length" = Some h
                   /\ stoul h = Parsed n
                   /\ (0 <= n <= Z.of_nat (size raw - (headersEnd + 4)))%Z
                   /\ getBody r = substr raw (headersEnd + 4) (Z.to_nat n)
                   /\ Z.of_nat (size (getBody r)) = n)).
Proof.
  intros r raw w w' H.
  apply parse_success in H
    as (startLineEnd & headersEnd & r1 & w1 & Hfind & Hstart & Hend & Hbody).
  exists startLineEnd, headersEnd.
  split; [exact Hfind|]. split; [exact Hend|].
  apply parseStartLine_success in Hstart
    as (versionEnd & statusCodeEnd & _ & _ & _ & _ & _ & Hb1).
  apply parseBody_located in Hbody as (Hh & Hcases).
  match type of Hh with
  | context [determineKeepAlive ?r2] =>
      destruct (determineKeepAlive_keeps r2) as (_ & Hmsg2);
      set (r3 := determineKeepAlive r2) in *
  end.
  assert (Hb3 : getBody r3 = "").
  { unfold getBody, HttpMessage.getBody. rewrite Hmsg2. unfold parseHeaders.
    match goal with
    | |- context [parseHeaders_loop ?f r1 ?b ?p] =>
        destruct (parseHeaders_loop_keeps f r1 b p) as (_ & _ & Hb2)
    end.
    rewrite Hb2, Hb1. reflexivity. }
  assert (Hsame : forall k, getHeader r k = getHeader r3 k)
    by (intros k; apply getHeader_same_headers; exact Hh).
  destruct Hcases
    as [[Hshort Hb] | (Hlong & [[Hnone Hb] | (h & n & Hsome & Hs & Hle & Hb)])].
  - left. split; assumption.
  - right. left. rewrite Hsame, Hb, Hb3. repeat split; assumption.
  - right. right. split; [exact Hlong|]. exists h, n. rewrite Hsame.
    pose proof (stoul_nonneg _ _ Hs) as Hn.
    split; [exact Hsome|]. split; [exact Hs|]. split; [lia|].
    split; [exact Hb|].
    rewrite Hb. unfold substr. rewrite size_take, size_substr_from. lia.
Qed.

Lemma parse_body_length_witness :
  find plain_response CRLFCRLF 17 = Some 34
  /\ getHeader (parsed plain_response) "Content-Length" = Some "5"
  /\ getBody (parsed plain_response) = substr plain_response 38 5.
Proof.
  destruct (parse_body_has_announced_length (parsed plain_response)
              plain_response (Socket.fresh_world [])
              (Socket.fresh_world []) parse_plain_response)
    as (startLineEnd & headersEnd & Hstart & Hend & Hcases).
  assert (Hs : startLineEnd = 15)
    by (vm_compute in Hstart; injection Hstart as <-; reflexivity).
  subst startLineEnd.
  assert (He : headersEnd = 34)
    by (vm_compute in Hend; injection Hend as <-; reflexivity).
  subst headersEnd.
  split; [exact Hend|].
  destruct Hcases as [[Hshort _] | [(_ & Hnone & _) | (_ & h & n & Hh & Hn & _ & Hb & _)]].
  - vm_compute in Hshort. lia.
  - vm_compute in Hnone. discriminate.
  - assert (Hh5 : h = "5")
      by (vm_compute in Hh; injection Hh as <-; reflexivity).
    subst h.
    assert (Hn5 : n = 5%Z)
      by (vm_compute in Hn; injection Hn as <-; reflexivity).
    subst n. split; [exact Hh | exact Hb].
Defined.

(** What a step may do to the world: write lines to the console. *)
Lemma write_nil w : write [] w = w.
Proof. destruct w. unfold write. cbn. rewrite app_nil_r. reflexivity. Qed.

Lemma log_error msg w :
  log msg ERROR w = (Returned tt, write [Logged ERROR msg] w).
Proof. unfold log. rewrite error_is_never_filtered. reflexivity. Qed.

Lemma parseStartLine_runs r line w :
  exists ok r1 lines,
    parseStartLine r line w = (Returned (ok, r1), write lines w)
    /\ forallb is_error_line lines = true
    /\ (ok = false -> lines <> [])
    /\ (ok = true -> lines = []).
Proof.
  unfold parseStartLine, bind, ret.
  destruct (find line " " 0) as [versionEnd|];
    [|rewrite log_error; exists false; do 2 eexists; split; [reflexivity|];
      split; [reflexivity|]; split; discriminate].
  destruct (find line " " (versionEnd + 1)) as [statusCodeEnd|];
    [|rewrite log_error; exists false; do 2 eexists; split; [reflexivity|];
      split; [reflexivity|]; split; discriminate].
  destruct (Z.eqb _ http_status.INVALID).
  - rewrite log_error. exists false. do 2 eexists. split; [reflexivity|].
    split; [reflexivity|]. split; discriminate.
  - exists true. eexists. exists []. rewrite write_nil.
    split; [reflexivity|]. split; [reflexivity|].
    split; [discriminate | reflexivity].
Qed.

Lemma parseBody_runs r raw bodyStart w :
  exists ok r1 lines,
    parseBody r raw bodyStart w = (Returned (ok, r1), write lines w)
    /\ forallb is_error_line lines = true
    /\ (ok = false -> lines <> [])
    /\ (ok = true -> lines = []).
Proof.
  unfold parseBody, bind, ret.
  destruct (Nat.ltb bodyStart (size raw));
    [|exists true; eexists; exists []; rewrite write_nil;
      split; [reflexivity|]; split; [reflexivity|];
      split; [discriminate | reflexivity]].
  destruct (getHeader r "Content-Length") as [h|];
    [|exists true; eexists; exists []; rewrite write_nil;
      split; [reflexivity|]; split; [reflexivity|];
      split; [discriminate | reflexivity]].
  destruct (stoul h) as [contentLength| |];
    try (rewrite log_error; exists false; do 2 eexists; split; [reflexivity|];
         split; [reflexivity|]; split; [discriminate | discriminate]).
  destruct (_ <=? _)%Z.
  - exists true. eexists. exists []. rewrite write_nil.
    split; [reflexivity|]. split; [reflexivity|].
    split; [discriminate | reflexivity].
  - rewrite log_error. exists false. do 2 eexists. split; [reflexivity|].
    split; [reflexivity|]. split; discriminate.
Qed.

Lemma snoc_not_nil {A} (l : list A) (x : A) : l ++ [x] <> [].
Proof. destruct l; intros H; discriminate H. Qed.

Lemma write_write l1 l2 w : write l2 (write l1 w) = write (l1 ++ l2) w.
Proof. destruct w. unfold write. cbn. rewrite app_assoc. reflexivity. Qed.

(** X24. [parse] always returns: it raises nothing, not even for a
    [Content-Length] that is no number or too large a one. It issues no
    system call and leaves the manager alone; all it does to the world is
    to write error lines, at least one whenever it reports failure and none
    when it reports success. *)
Theorem parse_reports_failure_in_the_log :
  forall (r : HttpResponse.t) (raw : string) (w : world),
    exists ok r' lines,
      parse r raw w = (Returned (ok, r'), write lines w)
      /\ forallb is_error_line lines = true
      /\ (ok = false -> lines <> [])
      /\ (ok = true -> lines = []).
Proof.
  intros r raw w. unfold parse.
  destruct (find raw CRLF 0) as [startLineEnd|].
  2:{ unfold bind, ret. rewrite log_error. exists false. do 2 eexists.
      split; [reflexivity|]. split; [reflexivity|]. split; discriminate. }
  unfold bind at 1.
  destruct (parseStartLine_runs r (substr raw 0 startLineEnd) w)
    as (ok & r1 & lines1 & -> & Herr1 & Hne1 & Hnil1).
  destruct ok; cbn [negb].
  2:{ unfold bind, ret. rewrite log_error, write_write.
      exists false. do 2 eexists. split; [reflexivity|].
      split; [rewrite forallb_app, Herr1; reflexivity|].
      split; [intros _; rewrite ?app_assoc; apply snoc_not_nil | discriminate]. }
  destruct (find raw CRLFCRLF (startLineEnd + 2)) as [headersEnd|].
  2:{ unfold bind, ret. rewrite log_error, write_write.
      exists false. do 2 eexists. split; [reflexivity|].
      split; [rewrite forallb_app, Herr1; reflexivity|].
      split; [intros _; rewrite ?app_assoc; apply snoc_not_nil | discriminate]. }
  unfold bind at 1.
  match goal with
  | |- context [parseBody ?r3 raw ?bs ?w1] =>
      destruct (parseBody_runs r3 raw bs w1)
        as (ok' & r4 & lines2 & -> & Herr2 & Hne2 & Hnil2)
  end.
  destruct ok'; cbn [negb].
  - unfold ret. rewrite write_write. exists true. do 2 eexists.
    split; [reflexivity|].
    split; [rewrite forallb_app, Herr1, Herr2; reflexivity|].
    split; [discriminate|]. intros _.
    rewrite (Hnil2 eq_refl), (Hnil1 eq_refl). reflexivity.
  - unfold bind, ret. rewrite log_error, !write_write.
    exists false. do 2 eexists. split; [reflexivity|].
    split; [rewrite !forallb_app, Herr1, Herr2; reflexivity|].
    split; [intros _; rewrite ?app_assoc; apply snoc_not_nil | discriminate].
Qed.

(** X25. A response without any header line is never accepted: the blank
    line that ends the headers is looked for after the line end of the
    first line, so the two line ends that follow the first line at once are
    not recognised as one. *)
Theorem parse_rejects_response_without_headers :
  forall (r : HttpResponse.t) (line body : string) (w : world),
    mem CR line = false ->
    find0 CRLFCRLF (CRLF +:+ body) = None ->
    exists r' w', parse r (line +:+ CRLFCRLF +:+ body) w = (Returned (false, r'), w').
Proof.
  intros r line body w Hline Hbody.
  assert (Hraw : line +:+ CRLFCRLF +:+ body = line +:+ CRLF +:+ (CRLF +:+ body))
    by (unfold CRLFCRLF; rewrite !str_app_assoc; reflexivity).
  rewrite Hraw. unfold parse.
  rewrite find_0, (find0_CRLF_after _ _ Hline).
  assert (Hstart : substr (line +:+ CRLF +:+ CRLF +:+ body) 0 (size line) = line)
    by (unfold substr; rewrite substr_from_0; apply take_app).
  rewrite Hstart. unfold bind at 1.
  destruct (parseStartLine_runs r line w) as (ok & r1 & lines1 & -> & _).
  destruct ok; cbn [negb].
  - assert (Hfind : find (line +:+ CRLF +:+ CRLF +:+ body) CRLFCRLF (size line + 2)
                    = None).
    { unfold find.
      assert (Hlt : Nat.ltb (size (line +:+ CRLF +:+ CRLF +:+ body))
                      (size line + 2) = false).
      { apply Nat.ltb_ge. rewrite !size_app.
        change (size CRLF) with 2. lia. }
      rewrite Hlt.
      replace (size line + 2) with (size (line +:+ CRLF))
        by (rewrite size_app; reflexivity).
      rewrite <- str_app_assoc, substr_from_app, Hbody. reflexivity. }
    rewrite Hfind. unfold bind, ret. rewrite log_error.
    do 2 eexists. reflexivity.
  - unfold bind, ret. rewrite log_error. do 2 eexists. reflexivity.
Qed.

Lemma parse_rejects_headerless_witness :
  exists r' w',
    parse new ("HTTP/1.1 204 No Content" +:+ CRLFCRLF +:+ "")
      (Socket.fresh_world [])
    = (Returned (false, r'), w').
Proof.
  apply (parse_rejects_response_without_headers new
           "HTTP/1.1 204 No Content" "" (Socket.fresh_world []));
    reflexivity.
Defined.

Lemma find0_char c s rest :
  mem c s = false ->
  find0 (String c "") (s +:+ String c rest) = Some (size s).
Proof.
  induction s as [|d s IH]; intros H.
  - rewrite str_app_nil_l. cbn [find0 starts_with]. rewrite Ascii.eqb_refl.
    reflexivity.
  - cbn [mem] in H. destruct (Ascii.eqb c d) eqn:E; [discriminate|].
    rewrite str_app_cons. cbn [find0 starts_with]. rewrite E, (IH H).
    reflexivity.
Qed.

(** X26. A header line is cut at its first colon: what comes before is the
    key, stored in lowercase like every key; what comes after is the value,
    without any of the spaces that lead it, however many, and with
    whatever trails it. *)
Theorem parseHeader_splits_at_first_colon :
  forall (r : HttpResponse.t) (key spaces value : string),
    mem ":" key = false ->
    all_in " " spaces = true ->
    front value <> Some " "%char ->
    parseHeader r (key +:+ ":" +:+ spaces +:+ value) = setHeader r key value
    /\ getHeader (parseHeader r (key +:+ ":" +:+ spaces +:+ value))
         (n_utils.toLower key) = Some value.
Proof.
  intros r key spaces value Hkey Hsp Hval.
  assert (Hparse : parseHeader r (key +:+ ":" +:+ spaces +:+ value)
                   = setHeader r key value).
  { unfold parseHeader.
    assert (Hne : empty (key +:+ ":" +:+ spaces +:+ value) = false)
      by (destruct key; reflexivity).
    rewrite Hne, find_0.
    change (key +:+ ":" +:+ spaces +:+ value)
      with (key +:+ String ":" (spaces +:+ value)).
    rewrite (find0_char _ _ _ Hkey).
    assert (Hkeystr : substr (key +:+ String ":" (spaces +:+ value)) 0 (size key)
                      = key)
      by (unfold substr; rewrite substr_from_0; apply take_app).
    rewrite Hkeystr. f_equal.
    unfold find_first_not_of.
    assert (Hlt : Nat.ltb (size (key +:+ String ":" (spaces +:+ value)))
                    (size key + 1) = false).
    { apply Nat.ltb_ge. rewrite size_app. cbn [size String.length]. lia. }
    rewrite Hlt.
    assert (Hrest : substr_from (key +:+ String ":" (spaces +:+ value))
                      (size key + 1) = spaces +:+ value).
    { change (key +:+ String ":" (spaces +:+ value))
        with (key +:+ (":" +:+ (spaces +:+ value))).
      rewrite <- str_app_assoc.
      replace (size key + 1) with (size (key +:+ ":"))
        by (rewrite size_app; reflexivity).
      apply substr_from_app. }
    rewrite Hrest, (find_first_not_of0_skip _ _ _ Hsp).
    destruct value as [|c value'].
    - reflexivity.
    - cbn [find_first_not_of0 mem].
      destruct (Ascii.eqb c " ") eqn:E;
        [apply Ascii.eqb_eq in E; subst c; exfalso; apply Hval; reflexivity|].
      cbn [option_map]. rewrite Nat.add_0_r.
      change (key +:+ String ":" (spaces +:+ String c value'))
        with (key +:+ (":" +:+ (spaces +:+ String c value'))).
      rewrite <- !str_app_assoc.
      replace (size key + 1 + size spaces) with (size ((key +:+ ":") +:+ spaces))
        by (rewrite !size_app; reflexivity).
      apply substr_from_app. }
  split; [exact Hparse|]. rewrite Hparse.
  unfold getHeader, setHeader.
  apply getHeader_setHeader_same_lower. symmetry. apply toLower_idem.
Qed.

Lemma parseHeader_witness :
  parseHeader new ("Content-Type" +:+ ":" +:+ "   " +:+ "text/html ")
  = setHeader new "Content-Type" "text/html ".
Proof.
  refine (proj1 (parseHeader_splits_at_first_colon new "Content-Type" "   "
                   "text/html " eq_refl eq_refl _)).
  discriminate.
Defined.

End ResponseParsingMore.

(** ** [HttpClient]: what is sent, and what becomes of the connection *)

Section RequestText.
Import StdString Sys HttpClient.

Lemma header_lines_end (l : list (string * string)) :
  forall acc,
    let lines :=
      List.fold_left
        (fun acc kv => acc +:+ fst kv +:+ ": " +:+ snd kv +:+ CRLF) l acc in
    (l = [] /\ lines = acc) \/ exists mid, lines = acc +:+ mid +:+ CRLF.
Proof.
  induction l as [|kv l IH]; intros acc; cbn zeta.
  - left. split; reflexivity.
  - right. cbn [List.fold_left].
    destruct (IH (acc +:+ fst kv +:+ ": " +:+ snd kv +:+ CRLF))
      as [[_ ->] | [mid ->]].
    + exists (fst kv +:+ ": " +:+ snd kv). rewrite !str_app_assoc.
      reflexivity.
    + exists (fst kv +:+ ": " +:+ snd kv +:+ CRLF +:+ mid).
      rewrite !str_app_assoc. reflexivity.
Qed.

(** X27. A serialized request is the request line, the header lines, a blank
    line, and the body: it begins with the request line and a line end, and
    the body is what follows a blank line, so that a reader that looks for
    the blank line finds one. *)
Theorem serializeRequest_is_framed :
  forall request : HttpRequest.t,
    starts_with (HttpRequest.getStatusLine request +:+ CRLF)
      (serializeRequest request) = true
    /\ (exists head,
          serializeRequest request
          = head +:+ CRLFCRLF +:+ HttpMessage.getBody (HttpRequest.msg request)
          /\ starts_with (HttpRequest.getStatusLine request) head = true)
    /\ exists i, find (serializeRequest request) CRLFCRLF 0 = Some i.
Proof.
  intros request. unfold serializeRequest.
  set (line := HttpRequest.getStatusLine request).
  set (body := HttpMessage.getBody (HttpRequest.msg request)).
  assert (Hbody : (if empty body then "" else body) = body)
    by (destruct body; reflexivity).
  rewrite Hbody.
  assert (Hhead : exists head,
             line +:+ CRLF +:+
             List.fold_left
               (fun acc kv => acc +:+ fst kv +:+ ": " +:+ snd kv +:+ CRLF)
               (map_to_list (HttpMessage.headers (HttpRequest.msg request))) ""
             +:+ CRLF +:+ body
             = head +:+ CRLFCRLF +:+ body
             /\ starts_with line head = true).
  { destruct (header_lines_end
                (map_to_list (HttpMessage.headers (HttpRequest.msg request))) "")
      as [[_ ->] | [mid ->]].
    - exists line. rewrite str_app_nil_l. unfold CRLFCRLF.
      rewrite !str_app_assoc. split; [reflexivity|].
      rewrite <- (str_app_nil_r line) at 2. apply starts_with_app.
    - exists (line +:+ CRLF +:+ mid). rewrite str_app_nil_l. unfold CRLFCRLF.
      rewrite !str_app_assoc. split; [reflexivity | apply starts_with_app]. }
  split; [|split].
  - rewrite <- str_app_assoc. apply starts_with_app.
  - exact Hhead.
  - destruct Hhead as (head & -> & _). apply find_framed.
Qed.

End RequestText.

Section ConnectionAfterRequest.
Import StdString StdConv Sys ConnectionManager HttpClient.

Local Arguments level_below : simpl never.

(** X28. When the response asks to keep the connection, [processRequest]
    returns with the manager as the exchange left it, socket and flag, and
    issues no further system call: the connection stays open for the next
    request. *)
Theorem processRequest_keeps_connection_alive :
  forall (request : HttpRequest.t) (ip port : string) (w w1 : world)
         (response : HttpResponse.t),
    exchange request ip port w = (Returned (Some response), w1) ->
    HttpResponse.isKeepAlive response = true ->
    let final := snd (processRequest request ip port w) in
    fst (processRequest request ip port w) = Returned tt
    /\ mgr_socket final = mgr_socket w1
    /\ mgr_connected final = mgr_connected w1
    /\ trace final = trace w1.
Proof.
  intros request ip port w w1 response Hex Hk. cbn zeta.
  destruct (conclude_keeps response w1 Hk) as (Hr & [Hs Hc] & Ht).
  unfold processRequest, try_catch, process, bind. rewrite Hex.
  destruct (conclude response w1) as [r w2]. cbn [fst snd] in *. subst r.
  repeat split; assumption.
Qed.

Lemma processRequest_keeps_alive_witness :
  let w := Socket.fresh_world
             [Success 3; Success 0; Success 0; Success 0; Success 0;
              Success 100; Success 1; Delivered HttpResponse.lasting_response] in
  fst (processRequest sample_request "127.0.0.1" "60001" w) = Returned tt
  /\ mgr_socket (snd (processRequest sample_request "127.0.0.1" "60001" w))
     = Some 3%Z.
Proof.
  cbn zeta.
  pose proof (processRequest_keeps_connection_alive sample_request
                "127.0.0.1" "60001"
                (Socket.fresh_world
                   [Success 3; Success 0; Success 0; Success 0; Success 0;
                    Success 100; Success 1;
                    Delivered HttpResponse.lasting_response])
                (snd (exchange sample_request "127.0.0.1" "60001"
                        (Socket.fresh_world
                           [Success 3; Success 0; Success 0; Success 0;
                            Success 0; Success 100; Success 1;
                            Delivered HttpResponse.lasting_response])))
                (HttpResponse.parsed HttpResponse.lasting_response)) as H.
  cbv zeta in H. destruct H as (H1 & H2 & _).
  - vm_compute. reflexivity.
  - vm_compute. reflexivity.
  - split; [exact H1|]. rewrite H2. vm_compute. reflexivity.
Defined.

(** X29. When the connection is down and cannot be set up again,
    [processRequest] writes one error line and returns: nothing of the
    request is sent. *)
Theorem processRequest_sends_nothing_unconnected :
  forall (request : HttpRequest.t) (ip port : string) (w w0 w1 : world),
    isConnected w = (Returned false, w0) ->
    connect ip port w0 = (Returned false, w1) ->
    processRequest request ip port w
    = (Returned tt,
       write [Logged ERROR [Str "Failed to connect to "; Str ip; Str ":";
                            Str port]] w1)
    /\ trace (snd (processRequest request ip port w)) = trace w1.
Proof.
  intros request ip port w w0 w1 Hc Hn.
  assert (H : processRequest request ip port w
              = (Returned tt,
                 write [Logged ERROR [Str "Failed to connect to "; Str ip;
                                      Str ":"; Str port]] w1)).
  { unfold processRequest, try_catch, process, exchange.
    unfold bind at 1. unfold bind at 1. unfold bind at 1. rewrite Hc.
    rewrite Hn. cbn [negb]. unfold bind, ret. rewrite log_error.
    reflexivity. }
  split; [exact H|]. rewrite H. reflexivity.
Qed.

(** The peer has closed the connection the manager holds, and the new
    connection is refused (error 111): the old socket is closed, a new one
    is made and its connect fails; no write follows, and the answers the
    operating system had ready for a write and a read are left. *)
Lemma processRequest_unconnected_witness :
  let w :=
    set_connected true
      (holding_world 3
         [Delivered ""; Success 4; Success 0; Success 0; Success 0;
          Failure 111; Success 100; Success 1;
          Delivered HttpResponse.closing_response]) in
  fst (processRequest sample_request "127.0.0.1" "60001" w) = Returned tt
  /\ trace (snd (processRequest sample_request "127.0.0.1" "60001" w))
     = [SysRecv 3 1 peek_flags; SysClose 3; SysSocket; SysSetsockopt 4;
        SysFcntlGet 4; SysFcntlSet 4 (Z.lor O_RDWR O_NONBLOCK);
        SysConnect 4 (mkSockaddr (htons 60001) "127.0.0.1")]
  /\ script (snd (processRequest sample_request "127.0.0.1" "60001" w))
     = [Success 100; Success 1; Delivered HttpResponse.closing_response]
  /\ mgr_connected (snd (processRequest sample_request "127.0.0.1" "60001" w))
     = false.
Proof.
  cbv zeta.
  set (w := set_connected true
              (holding_world 3
                 [Delivered ""; Success 4; Success 0; Success 0; Success 0;
                  Failure 111; Success 100; Success 1;
                  Delivered HttpResponse.closing_response])).
  destruct (processRequest_sends_nothing_unconnected sample_request
              "127.0.0.1" "60001" w (snd (isConnected w))
              (snd (connect "127.0.0.1" "60001" (snd (isConnected w)))))
    as [Hrun Htrace].
  - vm_compute. reflexivity.
  - vm_compute. reflexivity.
  - rewrite Hrun. cbn [fst snd]. split; [reflexivity|].
    split; [vm_compute; reflexivity|].
    split; vm_compute; reflexivity.
Defined.

Lemma parse_same_manager r raw : relates same_manager (HttpResponse.parse r raw).
Proof.
  intros w res w' H.
  unfold HttpResponse.parse in H.
  destruct (find raw CRLF 0) as [startLineEnd|].
  2:{ unfold bind, ret in H. rewrite log_error in H. injection H as _ <-.
      split; reflexivity. }
  unfold bind at 1 in H.
  destruct (parseStartLine_runs r (substr raw 0 startLineEnd) w)
    as (ok & r1 & lines1 & Hs & _).
  rewrite Hs in H. destruct ok; cbn [negb] in H.
  2:{ unfold bind, ret in H. rewrite log_error in H. injection H as _ <-.
      split; reflexivity. }
  destruct (find raw CRLFCRLF (startLineEnd + 2)) as [headersEnd|].
  2:{ unfold bind, ret in H. rewrite log_error in H. injection H as _ <-.
      split; reflexivity. }
  unfold bind at 1 in H.
  match type of H with
  | context [HttpResponse.parseBody ?r3 raw ?bs ?w1] =>
      destruct (parseBody_runs r3 raw bs w1)
        as (ok' & r4 & lines2 & Hb & _)
  end.
  rewrite Hb in H. destruct ok'; cbn [negb] in H.
  - injection H as _ <-. split; reflexivity.
  - unfold bind, ret in H. rewrite log_error in H. injection H as _ <-.
    split; reflexivity.
Qed.

Lemma parseResponse_same_manager data :
  relates same_manager (parseResponse data).
Proof.
  unfold parseResponse.
  apply relates_bind; [apply same_manager_trans | apply parse_same_manager |].
  intros [ok response]. same_manager_steps.
Qed.

Lemma keeps_same_manager {A} (m : M A) :
  relates same_manager m -> keeps consistent m.
Proof. apply keeps_of_same_manager, same_manager_consistent. Qed.

Lemma exchange_keeps_consistent request ip port :
  keeps consistent (exchange request ip port).
Proof.
  unfold exchange.
  apply keeps_bind; [apply isConnected_keeps_consistent|]. intros alive.
  apply keeps_bind.
  { destruct alive; [apply keeps_same_manager; same_manager_steps
                    | apply connect_keeps_consistent]. }
  intros reached. apply keeps_same_manager.
  destruct (negb reached); [same_manager_steps|].
  apply relates_bind; [apply same_manager_trans | apply log_same_manager |].
  intros _.
  apply relates_bind; [apply same_manager_trans | apply log_same_manager |].
  intros _.
  apply relates_bind; [apply same_manager_trans | apply send_same_manager |].
  intros sent. destruct (negb sent); [same_manager_steps|].
  apply relates_bind; [apply same_manager_trans | apply print_same_manager |].
  intros _.
  apply relates_bind; [apply same_manager_trans | apply receive_same_manager |].
  intros [data|]; [|same_manager_steps].
  apply relates_bind; [apply same_manager_trans | apply log_same_manager |].
  intros _.
  apply relates_bind;
    [apply same_manager_trans | apply parseResponse_same_manager |].
  intros response. same_manager_steps.
Qed.

Lemma conclude_keeps_consistent response : keeps consistent (conclude response).
Proof.
  unfold conclude.
  apply keeps_bind; [apply keeps_same_manager, print_same_manager|].
  intros _. destruct (negb _); [|apply keeps_same_manager; same_manager_steps].
  apply keeps_bind; [apply keeps_same_manager, log_same_manager|].
  intros _. apply disconnect_keeps_consistent.
Qed.

(** X30. The invariant of the manager, that the [connected] flag is set
    only while a socket is held and that a socket held owns a descriptor,
    is kept by every operation of the manager and by a whole request with
    everything that can go wrong in it; sending and receiving do not touch
    the members of the manager at all. *)
Theorem manager_invariant_is_kept :
  forall (request : HttpRequest.t) (ip port data : string),
    keeps consistent (connect ip port)
    /\ keeps consistent disconnect
    /\ keeps consistent isConnected
    /\ keeps consistent (send data)
    /\ keeps consistent receive
    /\ relates same_manager (send data)
    /\ relates same_manager receive
    /\ keeps consistent (processRequest request ip port).
Proof.
  intros request ip port data.
  split; [apply connect_keeps_consistent|].
  split; [apply disconnect_keeps_consistent|].
  split; [apply isConnected_keeps_consistent|].
  split; [apply keeps_same_manager, send_same_manager|].
  split; [apply keeps_same_manager, receive_same_manager|].
  split; [apply send_same_manager|].
  split; [apply receive_same_manager|].
  unfold processRequest. apply keeps_try_catch.
  - unfold process. apply keeps_bind; [apply exchange_keeps_consistent|].
    intros [response|]; [apply conclude_keeps_consistent|].
    apply keeps_same_manager. same_manager_steps.
  - intros e. apply keeps_same_manager, log_same_manager.
Qed.

End ConnectionAfterRequest.
